(** * German A1 mock test: session orchestrator, retrying executor, audio assembly

    A shallow embedding of the TypeScript sources
    - [services/geminiService.ts]  ([runWithRetry], [preloadListeningTest]),
    - [services/audioUtils.ts]     ([concatenateRawAudio], [decodeAudioData]),
    - [App.tsx]                    ([updateScore], [getAverageScore], the
                                    preloading effect, the restart handler),
    - [components/modules/*.tsx]   (fetching and scoring of the stage modules),
    and the properties the design document states about them; further
    - [services/geminiService.ts]  ([cleanJson], [generateAudioFromScript],
                                    [evaluateSpeaking]),
    - [services/audioUtils.ts]     ([blobToBase64]),
    - [services/submissionService.ts] ([getSheetUrl], [submitTestResults]),
    - [App.tsx]                    ([validatePhone], [handleFormSubmit],
                                    [getExamTips], [renderContent]),
    - [components/modules/*.tsx]   (the answer sheet of the choice modules,
                                    the submit handler of the speaking module),
    with properties read off the code.

    Conventions of the embedding.
    - A JavaScript string is the [string] of the bytes of its UTF-8
      encoding (a binary string, as [atob] returns it, is the [string] of
      its code units); [toLowerCase] folds the letters [A]..[Z] and leaves
      every other byte alone.
    - A finite JavaScript number that holds a score or a sample is given
      by its exact value, a rational ([Q]).  Arithmetic on scores is the
      arithmetic of binary64: an operation delivers its exact result
      rounded to the nearest representable number, a tie going to the even
      one, or an infinity ([Binary64]).  The floating-point numbers of the
      kernel are evaluated next to it ([Js.number], [Js.rationalOf]).
      Counters, lengths and offsets are [nat]; delays in milliseconds are
      [Z].
    - A promise that has settled is a value of [Settled]; the remote provider
      is a function from the attempt number to the outcome of that attempt. *)

From stdpp Require Import base option list gmap strings pretty.
From Stdlib Require Import ZArith QArith Qround Qabs Qfield Qpower Lia Lqa Ascii.
From Stdlib Require String.
From Stdlib.Strings Require Import Byte.
From Stdlib Require PrimFloat FloatOps SpecFloat Uint63.

Close Scope Q_scope.
Local Open Scope nat_scope.

(* ===================================================================== *)
(** * JavaScript values used by the sources *)
(* ===================================================================== *)

Module Js.

(** [String.prototype.toLowerCase], on the ASCII letters. *)
Definition lowerAscii (c : ascii) : ascii :=
  let n := nat_of_ascii c in
  if (65 <=? n) && (n <=? 90) then ascii_of_nat (n + 32) else c.

Fixpoint toLowerCase (s : string) : string :=
  match s with
  | EmptyString => EmptyString
  | String c s' => String (lowerAscii c) (toLowerCase s')
  end.

(** [String.prototype.startsWith]. *)
Fixpoint startsWith (s prefix : string) {struct prefix} : bool :=
  match prefix, s with
  | EmptyString, _ => true
  | String p prefix', String c s' =>
      if Ascii.eqb p c then startsWith s' prefix' else false
  | String _ _, EmptyString => false
  end.

(** [String.prototype.includes]: the needle starts at some position. *)
Fixpoint includes (s needle : string) : bool :=
  startsWith s needle ||
  match s with
  | EmptyString => false
  | String _ s' => includes s' needle
  end.

(** A value caught by [catch (error: any)].  Only two views of it are read
    by the sources: its [message] property ([None] when the property is
    absent) and the text [JSON.stringify] yields for it. *)
Record Error := mkError { message : option string; json : string }.

(** [new Error(msg)]: own properties of an [Error] are not enumerable, so
    it serialises to an empty object. *)
Definition newError (msg : string) : Error :=
  {| message := Some msg; json := "{}" |}.

(** [e.message || fallback]: the empty string and [undefined] are falsy. *)
Definition messageOr (e : Error) (fallback : string) : string :=
  match message e with
  | Some (String c s) => String c s
  | Some EmptyString | None => fallback
  end.

(** The message of an error, empty when it has none. *)
Definition messageText (e : Error) : string := default "" (message e).

(** The character [U+0022], for texts that [JSON.stringify] produces. *)
Definition quote : string := String "034"%char EmptyString.

(** Result of one invocation of an asynchronous operation. *)
Inductive Outcome (T : Type) : Type :=
| Resolve (v : T)
| Throw (error : Error).
Arguments Resolve {T} v.
Arguments Throw {T} error.

(** A settled promise; the rejection reason is [None] for [undefined]. *)
Inductive Settled (T : Type) : Type :=
| Fulfilled (v : T)
| Rejected (reason : option Error).
Arguments Fulfilled {T} v.
Arguments Rejected {T} reason.

Definition isRejected {T} (p : Settled T) : bool :=
  match p with Fulfilled _ => false | Rejected _ => true end.

(** An integer as a Number, that is, a binary64 floating-point number
    (exact below [2^53] in absolute value). *)
Definition number (z : Z) : PrimFloat.float :=
  if (z <? 0)%Z
  then PrimFloat.opp (PrimFloat.of_uint63 (Uint63.of_Z (- z)))
  else PrimFloat.of_uint63 (Uint63.of_Z z).

(** The rational a finite Number stands for. *)
Definition rationalOf (x : PrimFloat.float) : option Q :=
  match FloatOps.Prim2SF x with
  | SpecFloat.S754_zero _ => Some 0%Q
  | SpecFloat.S754_finite negative m e =>
      let mantissa := if negative then Z.neg m else Z.pos m in
      Some (if (e <? 0)%Z then Qmake mantissa (Z.to_pos (2 ^ (- e)))
            else inject_Z (mantissa * 2 ^ e))
  | _ => None
  end.

End Js.

(* ===================================================================== *)
(** * The arithmetic of JavaScript numbers *)
(* ===================================================================== *)

Module Binary64.
Local Open Scope Q_scope.

(** [floor (log2 |q|)] for [q] other than zero: the two logarithms of
    numerator and denominator differ from it by less than one. *)
Definition magnitude (q : Q) : Z :=
  let e := (Z.log2 (Z.abs (Qnum q)) - Z.log2 (Z.pos (Qden q)))%Z in
  if Qle_bool (2 ^ e) (Qabs q) then e else (e - 1)%Z.

(** The exponent of the unit in the last place: 53 significant bits, and
    no unit below [2^-1074]. *)
Definition quantum (q : Q) : Z := Z.max (magnitude q - 52) (-1074).

(** The nearest integer, a tie going to the even one. *)
Definition roundHalfEven (x : Q) : Z :=
  let f := Qfloor x in
  match Qcompare (x - inject_Z f) (1 # 2) with
  | Lt => f
  | Gt => (f + 1)%Z
  | Eq => if Z.even f then f else (f + 1)%Z
  end.

(** The multiple of the unit in the last place nearest to [q]: the value a
    binary64 operation delivers for the exact result [q], as long as it
    does not overflow. *)
Definition nearest (q : Q) : Q :=
  if Qeq_bool q 0 then 0
  else inject_Z (roundHalfEven (q / 2 ^ quantum q)) * 2 ^ quantum q.

(** [Number.MAX_VALUE]. *)
Definition maxValue : Q := inject_Z ((2 ^ 53 - 1) * 2 ^ 971).

(** A JavaScript number: a finite one by its exact value (the two zeros
    are not told apart), an infinity, or not-a-number. *)
Inductive Number :=
| Finite (value : Q)
| PlusInfinity
| MinusInfinity
| NaN.

(** The number an operation delivers for the exact result [q]. *)
Definition double (q : Q) : Number :=
  let r := nearest q in
  if Qle_bool (Qabs r) maxValue then Finite r
  else if Qle_bool 0 r then PlusInfinity else MinusInfinity.

(** [a + b]. *)
Definition add (a b : Number) : Number :=
  match a, b with
  | NaN, _ | _, NaN => NaN
  | Finite x, Finite y => double (x + y)
  | PlusInfinity, MinusInfinity | MinusInfinity, PlusInfinity => NaN
  | PlusInfinity, _ | _, PlusInfinity => PlusInfinity
  | MinusInfinity, _ | _, MinusInfinity => MinusInfinity
  end.

(** [a / d] for a finite divisor [d] above zero. *)
Definition divideBy (d : Q) (a : Number) : Number :=
  match a with
  | Finite x => double (x / d)
  | other => other
  end.

(** [Math.round]: the nearest integer, a tie going up. *)
Definition mathRound (a : Number) : Number :=
  match a with
  | Finite x => Finite (inject_Z (Qfloor (x + (1 # 2))))
  | other => other
  end.

(** [a >= t] for a finite [t]. *)
Definition atLeast (t : Q) (a : Number) : bool :=
  match a with
  | Finite x => Qle_bool t x
  | PlusInfinity => true
  | MinusInfinity | NaN => false
  end.

End Binary64.

(* ===================================================================== *)
(** * services/geminiService.ts: the retrying executor *)
(* ===================================================================== *)

Module Executor.
Import Js.

(** What a run of the executor does to the outside, in the order in which
    it happens: invocations of the wrapped operation and delays. *)
Inductive Effect := Invoked | Slept (ms : Z).

Abbreviation World := (list Effect).

Fixpoint invocations (w : World) : nat :=
  match w with
  | [] => 0
  | Invoked :: w' => S (invocations w')
  | Slept _ :: w' => invocations w'
  end.

Fixpoint sleeps (w : World) : list Z :=
  match w with
  | [] => []
  | Invoked :: w' => sleeps w'
  | Slept ms :: w' => ms :: sleeps w'
  end.

(** The state monad the asynchronous code runs in. *)
Definition Async (A : Type) : Type := World -> A * World.

Definition ret {A} (a : A) : Async A := fun w => (a, w).
Definition bind {A B} (m : Async A) (k : A -> Async B) : Async B :=
  fun w => let (a, w') := m w in k a w'.

Notation "'await' x <- m 'in' k" := (bind m (fun x => k))
  (at level 10, x name, m at level 100, k at level 200).

(** [await operation()]: the n-th invocation gets the n-th answer. *)
Definition invoke {T} (operation : nat -> Outcome T) : Async (Outcome T) :=
  fun w => (operation (invocations w), w ++ [Invoked]).

(** [await sleep(ms)]. *)
Definition sleep (ms : Z) : Async unit :=
  fun w => (tt, w ++ [Slept ms]).

Definition transientMarkers : list string :=
  ["503"; "overloaded"; "unavailable"; "quota"; "429"].

(** Lines 28-29. *)
Definition errorMsg (error : Error) : string :=
  toLowerCase (messageOr error (json error)).

Definition isTransient (error : Error) : bool :=
  let errorMsg := errorMsg error in
  includes errorMsg "503" || includes errorMsg "overloaded" ||
  includes errorMsg "unavailable" || includes errorMsg "quota" ||
  includes errorMsg "429".

(** The body of [for (let i = 0; i < retries; i++)]; [remaining] counts the
    iterations that are left, [remaining + i = retries]. *)
Fixpoint retryLoop {T} (operation : nat -> Outcome T) (retries : nat)
    (baseDelay : Z) (remaining i : nat) (lastError : option Error)
    : Async (Settled T) :=
  match remaining with
  | O => ret (Rejected lastError)
  | S remaining' =>
      await r <- invoke operation in
      match r with
      | Resolve v => ret (Fulfilled v)
      | Throw error =>
          if isTransient error && (Z.of_nat i <? Z.of_nat retries - 1)%Z
          then
            let delay := (baseDelay * 2 ^ Z.of_nat i)%Z in
            await _slept <- sleep delay in
            retryLoop operation retries baseDelay remaining' (S i) (Some error)
          else ret (Rejected (Some error))
      end
  end.

Definition runWithRetry {T} (operation : nat -> Outcome T)
    (retries : nat) (baseDelay : Z) : Async (Settled T) :=
  retryLoop operation retries baseDelay retries 0 None.

Definition defaultRetries : nat := 3.
Definition defaultBaseDelay : Z := 1500.

(** A call with the default arguments, as every fetcher makes it. *)
Definition execute {T} (operation : nat -> Outcome T) : Async (Settled T) :=
  runWithRetry operation defaultRetries defaultBaseDelay.

(** The delays of the first [k] retries and their sum. *)
Definition backoffDelays (baseDelay : Z) (k : nat) : list Z :=
  map (fun i => (baseDelay * 2 ^ Z.of_nat i)%Z) (seq 0 k).

Definition sumZ (l : list Z) : Z := foldr Z.add 0%Z l.

Definition totalSleep (w : World) : Z := sumZ (sleeps w).

(** An attempt that throws an error the classifier takes for transient,
    respectively for permanent. *)
Definition failsTransiently {T} (attempt : Outcome T) : Prop :=
  exists error, attempt = Throw error /\ isTransient error = true.

Definition failsPermanently {T} (attempt : Outcome T) (error : Error) : Prop :=
  attempt = Throw error /\ isTransient error = false.

(** What [k] failed attempts that are retried add to the world: each is
    an invocation followed by its backoff delay. *)
Definition retried (baseDelay : Z) (k : nat) : World :=
  flat_map (fun i => [Invoked; Slept (baseDelay * 2 ^ Z.of_nat i)%Z]) (seq 0 k).

(** The reading of the design document: a marker occurs in the message as
    a substring, letter case ignored. *)
Definition occursIgnoringCase (marker text : string) : Prop :=
  exists before middle after,
    text = before +:+ middle +:+ after /\
    toLowerCase middle = toLowerCase marker.

Definition mentionsTransientMarker (text : string) : Prop :=
  exists marker, In marker transientMarkers /\ occursIgnoringCase marker text.

End Executor.

(* ===================================================================== *)
(** * services/audioUtils.ts: audio assembly *)
(* ===================================================================== *)

Module Audio.

(** The bytes an [ArrayBuffer] holds; also the bytes a [Uint8Array]
    shows. *)
Abbreviation Bytes := (list byte).

(** A [Uint8Array] with its [ArrayBuffer]: it shows the window of
    [byteLength] bytes at [byteOffset]. *)
Record Uint8Array := mkUint8Array {
  arrayBuffer : Bytes;
  byteOffset : nat;
  byteLength : nat
}.

(** An array that shows the whole of a buffer of its own, as
    [new Uint8Array(n)] makes it. *)
Definition ownBuffer (bytes : Bytes) : Uint8Array :=
  {| arrayBuffer := bytes; byteOffset := 0; byteLength := length bytes |}.

(** What [createBuffer] asks of the implementation behind an
    [AudioContext]: whether a number of channels and a sample rate lie in
    its nominal ranges.  The Web Audio API obliges every implementation to
    accept 1 to 32 channels and the rates from 8000 to 96000; beyond that
    the ranges are its own. *)
Record AudioContext := mkAudioContext {
  acceptsChannels : nat -> bool;
  acceptsSampleRate : nat -> bool
}.

Definition supports (ctx : AudioContext) (numChannels sampleRate : nat)
    : bool :=
  negb (sampleRate =? 0) && acceptsChannels ctx numChannels &&
  acceptsSampleRate ctx sampleRate.

(** An implementation that keeps to the Web Audio API. *)
Definition conforming (ctx : AudioContext) : Prop :=
  (forall n, 1 <= n <= 32 -> acceptsChannels ctx n = true) /\
  (forall r, 8000 <= r <= 96000 -> acceptsSampleRate ctx r = true).

Inductive DomException :=
| RangeError | NotSupportedError | InvalidCharacterError.

(** [new Uint8Array(n)]: zero-filled. *)
Definition newUint8Array (n : nat) : Bytes := replicate n x00.

(** [target.set(source, offset)]: a [RangeError] when the source does not
    fit, otherwise the bytes at [offset ..] are overwritten. *)
Definition set (target source : Bytes) (offset : nat) : option Bytes :=
  if decide (offset + length source <= length target)
  then Some (take offset target ++ source ++
             drop (offset + length source) target)
  else None.

(** The [forEach] of lines 24-34 from index [i] on; the loop state is the
    pair of the buffer and the running offset, [count] is
    [segments.length]. *)
Fixpoint copySegments (rest : list Bytes) (i count silenceLength : nat)
    (result : Bytes) (offset : nat) : option (Bytes * nat) :=
  match rest with
  | [] => Some (result, offset)
  | seg :: rest' =>
      result' ← set result seg offset;
      let offset' := offset + length seg in
      let offset'' :=
        if i <? count - 1 then offset' + silenceLength else offset' in
      copySegments rest' (S i) count silenceLength result' offset''
  end.

(** Durations and rates are natural numbers here.  [Math.max(0, n - 1)] is
    written with the truncated subtraction of [nat], which agrees with it
    also at [n = 0]. *)
Definition concatenateRawAudio (segments : list Bytes)
    (silenceDurationSec sampleRate : nat) : option Bytes :=
  let silenceLength := silenceDurationSec * sampleRate * 2 in
  let totalLength :=
    foldl (fun acc seg => acc + length seg) 0 segments +
    Nat.max 0 (length segments - 1) * silenceLength in
  let result := newUint8Array totalLength in
  fst <$> copySegments segments 0 (length segments) silenceLength result 0.

Definition defaultSampleRate : nat := 24000.

(** One element of an [Int16Array] laid over two bytes, low byte first. *)
Definition int16 (lo hi : byte) : Z :=
  let u := (Z.of_N (Byte.to_N lo) + 256 * Z.of_N (Byte.to_N hi))%Z in
  if (u <? 32768)%Z then u else (u - 65536)%Z.

(** [new Int16Array(data.buffer)]: a [RangeError] unless the byte length is
    a multiple of two. *)
Fixpoint int16View (data : Bytes) : option (list Z) :=
  match data with
  | [] => Some []
  | [_] => None
  | lo :: hi :: data' => cons (int16 lo hi) <$> int16View data'
  end.

Definition newInt16Array (data : Bytes) : DomException + list Z :=
  match int16View data with
  | Some view => inr view
  | None => inl RangeError
  end.

(** An [AudioBuffer]: its rate and the samples of each channel. *)
Record AudioBuffer := mkAudioBuffer {
  bufferSampleRate : nat;
  channels : list (list Q)
}.

(** [dataInt16[k] / 32768.0].  A 16-bit integer divided by a power of two
    is representable exactly in binary floating point, so the rational is
    the value the [Float32Array] holds. *)
Definition normalize (sample : Z) : Q := (inject_Z sample / 32768)%Q.

(** The same quotient in the arithmetic of the machine. *)
Definition normalizeBinary64 (sample : Z) : PrimFloat.float :=
  PrimFloat.div (Js.number sample) (Js.number 32768).

(** A binary64 number that a [Float32Array] stores without rounding: at most
    24 significant bits, exponent in the range of binary32. *)
Definition fitsFloat32 (x : PrimFloat.float) : bool :=
  match FloatOps.Prim2SF x with
  | SpecFloat.S754_zero _ => true
  | SpecFloat.S754_finite _ m e =>
      ((Z.pos m mod 2 ^ 29 =? 0) && (-149 <=? e + 29) && (e + 52 <=? 127))%Z
  | _ => false
  end.

(** On one sample, the machine computes the rational of [normalize] and
    stores it as it is. *)
Definition exactOn (sample : Z) : bool :=
  match Js.rationalOf (normalizeBinary64 sample) with
  | Some q => Qeq_bool q (normalize sample) &&
              fitsFloat32 (normalizeBinary64 sample)
  | None => false
  end.

Fixpoint upFrom (first : Z) (count : nat) : list Z :=
  match count with
  | O => []
  | S count' => first :: upFrom (first + 1)%Z count'
  end.

(** All values of an [Int16Array] element. *)
Definition int16Values : list Z := upFrom (-32768)%Z (Z.to_nat 65536).

(** The inner loop of lines 52-54 for one channel. *)
Definition channelData (dataInt16 : list Z) (numChannels frameCount channel : nat)
    : list Q :=
  map (fun i => normalize (nth (i * numChannels + channel) dataInt16 0%Z))
      (seq 0 frameCount).

(** Line 46 lays the [Int16Array] over [data.buffer], the whole buffer
    behind [data], whatever window [data] shows.
    [ctx.createBuffer(numChannels, frameCount, sampleRate)] of the Web
    Audio API refuses with a [NotSupportedError] a buffer without channels
    or without frames, and a number of channels or a sample rate that the
    implementation does not support. *)
Definition decodeAudioData (data : Uint8Array) (ctx : AudioContext)
    (sampleRate numChannels : nat) : DomException + AudioBuffer :=
  match newInt16Array (arrayBuffer data) with
  | inl e => inl e
  | inr dataInt16 =>
      let frameCount := length dataInt16 / numChannels in
      if (numChannels =? 0) || (frameCount =? 0) ||
         negb (supports ctx numChannels sampleRate)
      then inl NotSupportedError
      else inr {| bufferSampleRate := sampleRate;
                  channels := map (channelData dataInt16 numChannels frameCount)
                                  (seq 0 numChannels) |}
  end.

(** The two steps as the listening stage chains them (lines 43 and 50 of
    [initTest]), one channel; the stage passes two seconds of silence and
    the default rate. *)
Definition assemble (segments : list Bytes) (ctx : AudioContext)
    (silenceDurationSec sampleRate : nat) : DomException + AudioBuffer :=
  match concatenateRawAudio segments silenceDurationSec sampleRate with
  | Some combinedRawBytes =>
      decodeAudioData (ownBuffer combinedRawBytes) ctx sampleRate 1
  | None => inl RangeError
  end.

(** A segment the design document calls malformed: its byte length is not
    a positive even number. *)
Definition malformed (seg : Bytes) : bool :=
  (length seg =? 0) || Nat.odd (length seg).

(** The layout the design document describes: the segments in order with
    [gap] zero bytes between neighbours. *)
Fixpoint interleaved (segments : list Bytes) (gap : nat) : Bytes :=
  match segments with
  | [] => []
  | [seg] => seg
  | seg :: rest => seg ++ replicate gap x00 ++ interleaved rest gap
  end.

(** Offset of segment [i] in that layout. *)
Definition segmentOffset (segments : list Bytes) (gap i : nat) : nat :=
  sum_list (map length (take i segments)) + i * gap.

End Audio.

(* ===================================================================== *)
(** * types.ts *)
(* ===================================================================== *)

Module Types.

Record Question := mkQuestion {
  questionId : string;
  questionText : string;
  options : list string;
  correctAnswerIndex : Z
}.

Record TestPart := mkTestPart {
  partId : string;
  partType : string;
  title : string;
  partContent : string;
  questions : list Question
}.

Record ReadingTestContent := mkReadingTestContent {
  readingParts : list TestPart
}.

Record ListeningTestContent := mkListeningTestContent {
  parts : list TestPart;
  fullScript : string;
  audioBase64 : option string
}.

Record WritingTask := mkWritingTask {
  writingTopic : string;
  writingInstructions : string
}.

Record SpeakingTask := mkSpeakingTask {
  speakingTopic : string;
  speakingInstructions : string
}.

Inductive AppState :=
| HOME | LOADING | TEST_READING | TEST_LISTENING | TEST_WRITING
| TEST_SPEAKING | USER_DETAILS_FORM | RESULTS.

#[global] Instance AppState_eq_dec : EqDecision AppState.
Proof. solve_decision. Defined.

(** What [preloadListeningTest] resolves to. *)
Record ListeningPreload := mkListeningPreload {
  content : ListeningTestContent;
  audioParts : list string
}.

End Types.

(* ===================================================================== *)
(** * Scoring of the multiple-choice stages *)
(* ===================================================================== *)

Module Scoring.
Import Types.

(** [answers[q.id] === q.correctAnswerIndex]; a question without an answer
    reads [undefined], which equals no number. *)
Definition isCorrect (answers : gmap string Z) (q : Question) : bool :=
  bool_decide (answers !! questionId q = Some (correctAnswerIndex q)).

(** [(correct / total) * 100]: the quotient is rounded, and so is the
    product.  The two counters are exact, and with [correct <= total]
    neither operation leaves the finite numbers. *)
Definition ratio (correct total : nat) : Q :=
  Binary64.nearest
    (Binary64.nearest
       (inject_Z (Z.of_nat correct) / inject_Z (Z.of_nat total)) * 100)%Q.

(** ReadingModule.tsx, lines 186-195: both counters run over the
    questions of all parts. *)
Definition scoreReading (content : ReadingTestContent)
    (answers : gmap string Z) : Q :=
  let '(correct, total) :=
    foldl (fun st part =>
             foldl (fun '(correct, total) q =>
                      (if isCorrect answers q then S correct else correct,
                       S total))
                   st (questions part))
          (0, 0) (readingParts content) in
  if 0 <? total then ratio correct total else 0%Q.

(** ListeningModule.tsx, lines 91-94. *)
Definition getTotalQuestions (content : option ListeningTestContent) : nat :=
  match content with
  | None => 0
  | Some content =>
      foldl (fun acc part => acc + length (questions part)) 0 (parts content)
  end.

(** ListeningModule.tsx, lines 185-188.  Without questions the quotient is
    [0 / 0], the not-a-number value, rendered here as [None]. *)
Definition scoreListening (content : ListeningTestContent)
    (answers : gmap string Z) : option Q :=
  let correct :=
    foldl (fun correct part =>
             foldl (fun correct q =>
                      if isCorrect answers q then S correct else correct)
                   correct (questions part))
          0 (parts content) in
  let total := getTotalQuestions (Some content) in
  if total =? 0 then None else Some (ratio correct total).

(** The quantities the property is stated with: all questions of a
    content, and the number of those whose entry in the map of answers is
    the correct index. *)
Definition allQuestions (parts : list TestPart) : list Question :=
  concat (map questions parts).

Definition correctCount (answers : gmap string Z) (parts : list TestPart) : nat :=
  length (List.filter
            (fun q => bool_decide (answers !! questionId q = Some (correctAnswerIndex q)))
            (allQuestions parts)).

Definition percentage (correct total : nat) : Q :=
  (100 * inject_Z (Z.of_nat correct) / inject_Z (Z.of_nat total))%Q.

(** [(correct / total) * 100] in the arithmetic of the machine. *)
Definition ratioBinary64 (correct total : nat) : PrimFloat.float :=
  PrimFloat.mul
    (PrimFloat.div (Js.number (Z.of_nat correct)) (Js.number (Z.of_nat total)))
    (Js.number 100).

(** The floating-point unit of the kernel delivers the number that
    [ratio] gives. *)
Definition agreesOn (counts : nat * nat) : bool :=
  let (correct, total) := counts in
  match Js.rationalOf (ratioBinary64 correct total) with
  | Some q => Qeq_bool q (ratio correct total)
  | None => false
  end.

(** Every way of answering up to [limit] questions. *)
Definition outcomesUpTo (limit : nat) : list (nat * nat) :=
  flat_map (fun total => map (fun correct => (correct, total)) (seq 0 (S total)))
           (seq 1 limit).

End Scoring.

(* ===================================================================== *)
(** * services/geminiService.ts: the content fetchers *)
(* ===================================================================== *)

Module Fetchers.
Import Js Executor Types.

(** The remote provider as one fetch sees it.  Each field answers an
    attempt number with what the wrapped operation gets out of that
    attempt, up to and including [JSON.parse]; for speech it is the
    [inlineData.data] of the response, [None] when absent.  Synthesis calls
    are told apart by the index of their part; [audioSettledAt] is the
    instant at which the call for a part settles. *)
Record Provider := mkProvider {
  readingResponse : nat -> Outcome ReadingTestContent;
  scriptResponse : nat -> Outcome ListeningTestContent;
  audioResponse : nat -> string -> nat -> Outcome (option string);
  audioSettledAt : nat -> nat;
  writingResponse : nat -> Outcome WritingTask;
  speakingResponse : nat -> Outcome SpeakingTask
}.

(** Every call starts its own loop, with its own counters. *)
Definition fresh : World := [].

Definition generateReadingTest (p : Provider) : Settled ReadingTestContent :=
  fst (execute (readingResponse p) fresh).

(** Line 126. *)
Definition scriptOf (data : ListeningTestContent) : string :=
  String.concat " ... ... "
    (imap (fun i part =>
             "Teil " +:+ pretty (i + 1) +:+ ". " +:+ partType part +:+
             ". ... " +:+ partContent part)
          (parts data)).

Definition generateListeningTestScript (p : Provider)
    : Settled ListeningTestContent :=
  fst (execute
         (fun n =>
            match scriptResponse p n with
            | Resolve data =>
                Resolve {| parts := parts data;
                           fullScript := scriptOf data;
                           audioBase64 := audioBase64 data |}
            | Throw error => Throw error
            end)
         fresh).

Definition generateAudioFromScript (p : Provider) (index : nat)
    (script : string) : Settled string :=
  fst (execute
         (fun n =>
            match audioResponse p index script n with
            | Resolve (Some (String c s)) => Resolve (String c s)
            | Resolve (Some EmptyString) | Resolve None =>
                Throw (newError "No audio data")
            | Throw error => Throw error
            end)
         fresh).

Definition generateWritingTask (p : Provider) : Settled WritingTask :=
  fst (execute (writingResponse p) fresh).

Definition generateSpeakingTask (p : Provider) : Settled SpeakingTask :=
  fst (execute (speakingResponse p) fresh).

(** [Promise.all] over promises that settle at the given instants: it is
    fulfilled with all values in the order of the list, or rejected with
    the reason of the rejection that comes first in time (the earlier
    position wins a tie). *)
Fixpoint firstRejection {T} (promises : list (nat * Settled T))
    : option (nat * option Error) :=
  match promises with
  | [] => None
  | (_, Fulfilled _) :: rest => firstRejection rest
  | (at_, Rejected reason) :: rest =>
      match firstRejection rest with
      | Some (at', reason') =>
          if at' <? at_ then Some (at', reason') else Some (at_, reason)
      | None => Some (at_, reason)
      end
  end.

Fixpoint fulfilledValues {T} (promises : list (nat * Settled T)) : list T :=
  match promises with
  | [] => []
  | (_, Fulfilled v) :: rest => v :: fulfilledValues rest
  | (_, Rejected _) :: rest => fulfilledValues rest
  end.

Definition promiseAll {T} (promises : list (nat * Settled T))
    : Settled (list T) :=
  match firstRejection promises with
  | Some (_, reason) => Rejected reason
  | None => Fulfilled (fulfilledValues promises)
  end.

(** The fan-out of line 150 (and of line 38 of the listening stage). *)
Definition synthesisCalls (p : Provider) (testContent : ListeningTestContent)
    : list (nat * Settled string) :=
  imap (fun index part =>
          (audioSettledAt p index,
           generateAudioFromScript p index
             ("Teil " +:+ pretty (index + 1) +:+ ". " +:+ partType part +:+
              ". " +:+ partContent part)))
       (parts testContent).

(** Lines 148-152. *)
Definition preloadListeningTest (p : Provider) : Settled ListeningPreload :=
  match generateListeningTestScript p with
  | Rejected reason => Rejected reason
  | Fulfilled content =>
      match promiseAll (synthesisCalls p content) with
      | Rejected reason => Rejected reason
      | Fulfilled audioParts =>
          Fulfilled {| content := content; audioParts := audioParts |}
      end
  end.

End Fetchers.

(* ===================================================================== *)
(** * components/modules: loading of the stage modules *)
(* ===================================================================== *)

Module Stages.
Import Js Types.

(** What the browser contributes: [atob] ([None] for the
    [InvalidCharacterError]), the message text of its exceptions, and
    [JSON.parse(text).error.message] ([None] when the text does not parse
    or has no such field). *)
Record Platform := mkPlatform {
  atob : string -> option string;
  exceptionMessage : Audio.DomException -> string;
  embeddedMessage : string -> option string;
  webAudio : Audio.AudioContext
}.

(** [console.error(...)] with its arguments. *)
Record LogEntry := mkLogEntry { label : string; logged : option Error }.

(** What a stage shows: the four branches of its render function. *)
Inductive View := LoadingView | ErrorView (text : string) | Blank | Shown.

Definition isSpace (c : ascii) : bool :=
  let n := nat_of_ascii c in ((9 <=? n) && (n <=? 13)) || (n =? 32).

Definition utf8 (bytes : list nat) : string :=
  String.string_of_list_ascii (map ascii_of_nat bytes).

(** The white space and the line terminators of ECMAScript beyond ASCII,
    in UTF-8: U+00A0, U+1680, U+2000 to U+200A, U+2028, U+2029, U+202F,
    U+205F, U+3000 and U+FEFF. *)
Definition unicodeSpaces : list string :=
  utf8 [194; 160] :: utf8 [225; 154; 128] ::
  map (fun last => utf8 [226; 128; last]) (seq 128 11) ++
  [utf8 [226; 128; 168]; utf8 [226; 128; 169]; utf8 [226; 128; 175];
   utf8 [226; 129; 159]; utf8 [227; 128; 128]; utf8 [239; 187; 191]].

(** The number of bytes of the white space [s] starts with, [0] when it
    starts with none. *)
Definition spaceAt (s : string) : nat :=
  match s with
  | EmptyString => 0
  | String c _ =>
      if isSpace c then 1
      else match List.find (startsWith s) unicodeSpaces with
           | Some encoding => String.length encoding
           | None => 0
           end
  end.

(** [s] without the white space at its head; [skip] counts the bytes of
    the current one that are still to be dropped. *)
Fixpoint skipSpaces (skip : nat) (s : string) : string :=
  match s with
  | EmptyString => EmptyString
  | String c s' =>
      match skip with
      | S k => skipSpaces k s'
      | O =>
          match spaceAt s with
          | O => s
          | S k => skipSpaces k s'
          end
      end
  end.

Definition trimStart (s : string) : string := skipSpaces 0 s.

(** [s] is white space from end to end. *)
Fixpoint onlySpaces (skip : nat) (s : string) : bool :=
  match s with
  | EmptyString => true
  | String c s' =>
      match skip with
      | S k => onlySpaces k s'
      | O =>
          match spaceAt s with
          | O => false
          | S k => onlySpaces k s'
          end
      end
  end.

Fixpoint trimEnd (s : string) : string :=
  match s with
  | EmptyString => EmptyString
  | String c s' =>
      if onlySpaces 0 s then EmptyString else String c (trimEnd s')
  end.

(** [String.prototype.trim]. *)
Definition trim (s : string) : string := trimEnd (trimStart s).

(** ReadingModule.tsx lines 27-35. *)
Definition readingErrorText (pf : Platform) (e : Error) : string :=
  let errMsg := messageOr e "Failed to load reading test." in
  if startsWith (trim errMsg) "{" then
    match embeddedMessage pf errMsg with
    | Some (String c s) => String c s
    | Some EmptyString | None => errMsg
    end
  else errMsg.

Definition writingErrorText (e : Error) : string :=
  messageOr e "Failed to load writing task".

Definition speakingErrorText (e : Error) : string :=
  messageOr e "Failed to generate speaking task.".

(** The loading logic ReadingModule, WritingModule and SpeakingModule
    share up to the text of the error ([content]/[task], [loading],
    [error]/[initError], [fetchTest]/[fetchTask] and the effect on the
    preloaded prop).
    [fetching] is not a field of the component: it records that the
    [await] of the fetch is outstanding. *)
Module Loader.
Section WithContent.
Context {T : Type}.
Variable errorText : Error -> string.

Record State := mkState {
  content : option T;
  loading : bool;
  error : option string;
  fetching : bool
}.

(** The [useState] initialisers. *)
Definition init (preloadedData : option T) : State :=
  {| content := preloadedData;
     loading := match preloadedData with Some _ => false | None => true end;
     error := None;
     fetching := false |}.

(** [fetchTest] up to its [await]. *)
Definition fetchTest (preloadedData : option T) (st : State) : State :=
  match preloadedData with
  | Some _ => st
  | None => {| content := content st; loading := true; error := None;
               fetching := true |}
  end.

(** The rest of [fetchTest]: [try], [catch], [finally].  Reading a
    property of [undefined] throws inside the [catch], which leaves
    only the [finally]. *)
Definition fetchSettled (r : Settled T) (st : State)
    : State * list LogEntry :=
  match r with
  | Fulfilled data =>
      ({| content := Some data; loading := false; error := error st;
          fetching := false |}, [])
  | Rejected (Some e) =>
      ({| content := content st; loading := false;
          error := Some (errorText e); fetching := false |},
       [{| label := ""; logged := Some e |}])
  | Rejected None =>
      ({| content := content st; loading := false; error := error st;
          fetching := false |},
       [{| label := ""; logged := None |}])
  end.

(** [useEffect(..., [preloadedData])]. *)
Definition effect (preloadedData : option T) (st : State) : State :=
  match preloadedData with
  | None => fetchTest preloadedData st
  | Some _ => {| content := content st; loading := false;
                 error := error st; fetching := fetching st |}
  end.

Definition mount (preloadedData : option T) : State :=
  effect preloadedData (init preloadedData).

Definition view (st : State) : View :=
  if loading st then LoadingView
  else match error st with
       | Some (String c s) => ErrorView (String c s)
       | Some EmptyString | None =>
           match content st with
           | None => Blank
           | Some _ => Shown
           end
       end.
End WithContent.
Arguments State T : clear implicits.
End Loader.

(** ListeningModule.tsx. *)
Module ListeningModule.

Inductive LoadingStep :=
| initializing | scripting | synthesizing | processing | ready | error.

(** Where [initTest] is suspended; the script it holds in a local
    variable while the synthesis runs travels along. *)
Inductive Awaiting :=
| Idle
| AwaitingScript
| AwaitingAudio (testContent : ListeningTestContent).

Record State := mkState {
  content : option ListeningTestContent;
  loadingStep : LoadingStep;
  errorMsg : option string;
  audioContext : bool;
  audioBuffer : option Audio.AudioBuffer;
  awaiting : Awaiting
}.

Definition init : State :=
  {| content := None; loadingStep := initializing; errorMsg := None;
     audioContext := false; audioBuffer := None; awaiting := Idle |}.

Definition setLoadingStep (step : LoadingStep) (st : State) : State :=
  {| content := content st; loadingStep := step; errorMsg := errorMsg st;
     audioContext := audioContext st; audioBuffer := audioBuffer st;
     awaiting := awaiting st |}.

Definition setAwaiting (a : Awaiting) (st : State) : State :=
  {| content := content st; loadingStep := loadingStep st;
     errorMsg := errorMsg st; audioContext := audioContext st;
     audioBuffer := audioBuffer st; awaiting := a |}.

(** The [catch] of lines 53-57. *)
Definition catch (e : option Error) (st : State) : State * list LogEntry :=
  match e with
  | Some err =>
      ({| content := content st; loadingStep := error;
          errorMsg := Some (messageOr err "Failed to load listening test.");
          audioContext := audioContext st; audioBuffer := audioBuffer st;
          awaiting := Idle |},
       [{| label := ""; logged := e |}])
  | None => (setAwaiting Idle st, [{| label := ""; logged := None |}])
  end.

Definition domError (pf : Platform) (exn : Audio.DomException) : Error :=
  {| message := Some (exceptionMessage pf exn); json := "{}" |}.

(** audioUtils.ts, [decode]: the characters of [atob]'s result as bytes. *)
Definition decode (pf : Platform) (base64 : string) : option Audio.Bytes :=
  (fun binaryString =>
     map Ascii.byte_of_ascii (String.list_ascii_of_string binaryString))
  <$> atob pf base64.

(** Lines 41-52: from the resolved parts to a playable buffer.  The
    context is made at the first run, at the default rate; the constructor
    supports the sample rates that [createBuffer] supports and refuses
    another one with a [NotSupportedError]. *)
Definition process (pf : Platform) (testContent : ListeningTestContent)
    (audioBase64Results : list string) (st : State) : State * list LogEntry :=
  let st := setLoadingStep processing st in
  match mapM (decode pf) audioBase64Results with
  | None => catch (Some (domError pf Audio.InvalidCharacterError)) st
  | Some audioSegments =>
      match Audio.concatenateRawAudio audioSegments 2
              Audio.defaultSampleRate with
      | None => catch (Some (domError pf Audio.RangeError)) st
      | Some combinedRawBytes =>
          let st :=
            {| content := Some testContent; loadingStep := loadingStep st;
               errorMsg := errorMsg st; audioContext := audioContext st;
               audioBuffer := audioBuffer st; awaiting := awaiting st |} in
          if negb (audioContext st) &&
             negb (Audio.supports (webAudio pf) 1 Audio.defaultSampleRate)
          then catch (Some (domError pf Audio.NotSupportedError)) st
          else
            let st :=
              {| content := content st; loadingStep := loadingStep st;
                 errorMsg := errorMsg st; audioContext := true;
                 audioBuffer := audioBuffer st; awaiting := awaiting st |} in
            match Audio.decodeAudioData (Audio.ownBuffer combinedRawBytes)
                    (webAudio pf) Audio.defaultSampleRate 1 with
            | inl exn => catch (Some (domError pf exn)) st
            | inr buffer =>
                ({| content := content st; loadingStep := ready;
                    errorMsg := errorMsg st; audioContext := true;
                    audioBuffer := Some buffer; awaiting := Idle |}, [])
            end
      end
  end.

(** [initTest] up to its first [await]. *)
Definition initTest (pf : Platform) (preloadedData : option ListeningPreload)
    (st : State) : State * list LogEntry :=
  let st :=
    {| content := content st; loadingStep := loadingStep st;
       errorMsg := None; audioContext := audioContext st;
       audioBuffer := audioBuffer st; awaiting := awaiting st |} in
  match preloadedData with
  | Some preloaded =>
      process pf (Types.content preloaded) (audioParts preloaded)
              (setLoadingStep processing st)
  | None => (setAwaiting AwaitingScript (setLoadingStep scripting st), [])
  end.

(** [await generateListeningTestScript()] has settled. *)
Definition scriptSettled (r : Settled ListeningTestContent) (st : State)
    : State * list LogEntry :=
  match awaiting st, r with
  | AwaitingScript, Fulfilled testContent =>
      (setAwaiting (AwaitingAudio testContent)
         (setLoadingStep synthesizing st), [])
  | AwaitingScript, Rejected reason => catch reason st
  | _, _ => (st, [])
  end.

(** [await Promise.all(...)] has settled. *)
Definition audioSettled (pf : Platform) (r : Settled (list string))
    (st : State) : State * list LogEntry :=
  match awaiting st, r with
  | AwaitingAudio testContent, Fulfilled audioBase64Results =>
      process pf testContent audioBase64Results st
  | AwaitingAudio _, Rejected reason => catch reason st
  | _, _ => (st, [])
  end.

Definition mount (pf : Platform) (preloadedData : option ListeningPreload)
    : State * list LogEntry :=
  initTest pf preloadedData init.

(** [initTest] run to its end against a provider. *)
Definition runInitTest (pf : Platform) (p : Fetchers.Provider)
    (preloadedData : option ListeningPreload) (st : State)
    : State * list LogEntry :=
  let (st1, log1) := initTest pf preloadedData st in
  match awaiting st1 with
  | AwaitingScript =>
      let (st2, log2) :=
        scriptSettled (Fetchers.generateListeningTestScript p) st1 in
      match awaiting st2 with
      | AwaitingAudio testContent =>
          let (st3, log3) :=
            audioSettled pf
              (Fetchers.promiseAll (Fetchers.synthesisCalls p testContent))
              st2 in
          (st3, log1 ++ log2 ++ log3)
      | _ => (st2, log1 ++ log2)
      end
  | _ => (st1, log1)
  end.

Definition view (st : State) : View :=
  match loadingStep st with
  | error => ErrorView (default "" (errorMsg st))
  | ready => match content st with None => Blank | Some _ => Shown end
  | _ => LoadingView
  end.

End ListeningModule.

End Stages.

(* ===================================================================== *)
(** * App.tsx: the session orchestrator *)
(* ===================================================================== *)

Module App.
Import Js Types Stages.

Record Scores := mkScores {
  reading : Q; listening : Q; writing : Q; speaking : Q
}.

Record UserDetails := mkUserDetails {
  name : string; phone : string; language : string
}.

(** [keyof typeof scores]. *)
Inductive ModuleKey := Reading | Listening | Writing | Speaking.

(** submissionService.ts, [TestSubmissionData]. *)
Record TestSubmissionData := mkTestSubmissionData {
  submittedName : string;
  submittedPhone : string;
  submittedLanguage : string;
  readingScore : Z;
  listeningScore : Z;
  writingScore : Z;
  speakingScore : Z;
  averageScore : Binary64.Number;
  timestamp : string
}.

(** The stage module that is mounted, with its loading state. *)
Inductive Stage :=
| ReadingStage (st : Loader.State ReadingTestContent)
| ListeningStage (st : ListeningModule.State)
| WritingStage (st : Loader.State WritingTask)
| SpeakingStage (st : Loader.State SpeakingTask).

(** The four [preloaded...] cells. *)
Inductive Slot := ReadingSlot | ListeningSlot | WritingSlot | SpeakingSlot.

#[global] Instance Slot_eq_dec : EqDecision Slot.
Proof. solve_decision. Defined.

(** The component state of [App] (lines 12-31), the mounted stage, the
    background fetches the preloading effect has launched and that have
    not settled, the console and the result sink. *)
Record World := mkWorld {
  state : AppState;
  scores : Scores;
  userDetails : UserDetails;
  isSubmitting : bool;
  formError : option string;
  preloadedReading : option ReadingTestContent;
  preloadedListening : option ListeningPreload;
  preloadedWriting : option WritingTask;
  preloadedSpeaking : option SpeakingTask;
  stage : option Stage;
  background : list Slot;
  console : list LogEntry;
  submissions : list TestSubmissionData
}.

Definition setState (v : AppState) (w : World) : World :=
  {| state := v; scores := scores w; userDetails := userDetails w;
     isSubmitting := isSubmitting w; formError := formError w;
     preloadedReading := preloadedReading w;
     preloadedListening := preloadedListening w;
     preloadedWriting := preloadedWriting w;
     preloadedSpeaking := preloadedSpeaking w; stage := stage w;
     background := background w; console := console w;
     submissions := submissions w |}.

Definition setScores (v : Scores) (w : World) : World :=
  {| state := state w; scores := v; userDetails := userDetails w;
     isSubmitting := isSubmitting w; formError := formError w;
     preloadedReading := preloadedReading w;
     preloadedListening := preloadedListening w;
     preloadedWriting := preloadedWriting w;
     preloadedSpeaking := preloadedSpeaking w; stage := stage w;
     background := background w; console := console w;
     submissions := submissions w |}.

Definition setUserDetails (v : UserDetails) (w : World) : World :=
  {| state := state w; scores := scores w; userDetails := v;
     isSubmitting := isSubmitting w; formError := formError w;
     preloadedReading := preloadedReading w;
     preloadedListening := preloadedListening w;
     preloadedWriting := preloadedWriting w;
     preloadedSpeaking := preloadedSpeaking w; stage := stage w;
     background := background w; console := console w;
     submissions := submissions w |}.

Definition setIsSubmitting (v : bool) (w : World) : World :=
  {| state := state w; scores := scores w; userDetails := userDetails w;
     isSubmitting := v; formError := formError w;
     preloadedReading := preloadedReading w;
     preloadedListening := preloadedListening w;
     preloadedWriting := preloadedWriting w;
     preloadedSpeaking := preloadedSpeaking w; stage := stage w;
     background := background w; console := console w;
     submissions := submissions w |}.

Definition setFormError (v : option string) (w : World) : World :=
  {| state := state w; scores := scores w; userDetails := userDetails w;
     isSubmitting := isSubmitting w; formError := v;
     preloadedReading := preloadedReading w;
     preloadedListening := preloadedListening w;
     preloadedWriting := preloadedWriting w;
     preloadedSpeaking := preloadedSpeaking w; stage := stage w;
     background := background w; console := console w;
     submissions := submissions w |}.

Definition setPreloadedReading (v : option ReadingTestContent) (w : World) : World :=
  {| state := state w; scores := scores w; userDetails := userDetails w;
     isSubmitting := isSubmitting w; formError := formError w;
     preloadedReading := v; preloadedListening := preloadedListening w;
     preloadedWriting := preloadedWriting w;
     preloadedSpeaking := preloadedSpeaking w; stage := stage w;
     background := background w; console := console w;
     submissions := submissions w |}.

Definition setPreloadedListening (v : option ListeningPreload) (w : World) : World :=
  {| state := state w; scores := scores w; userDetails := userDetails w;
     isSubmitting := isSubmitting w; formError := formError w;
     preloadedReading := preloadedReading w; preloadedListening := v;
     preloadedWriting := preloadedWriting w;
     preloadedSpeaking := preloadedSpeaking w; stage := stage w;
     background := background w; console := console w;
     submissions := submissions w |}.

Definition setPreloadedWriting (v : option WritingTask) (w : World) : World :=
  {| state := state w; scores := scores w; userDetails := userDetails w;
     isSubmitting := isSubmitting w; formError := formError w;
     preloadedReading := preloadedReading w;
     preloadedListening := preloadedListening w; preloadedWriting := v;
     preloadedSpeaking := preloadedSpeaking w; stage := stage w;
     background := background w; console := console w;
     submissions := submissions w |}.

Definition setPreloadedSpeaking (v : option SpeakingTask) (w : World) : World :=
  {| state := state w; scores := scores w; userDetails := userDetails w;
     isSubmitting := isSubmitting w; formError := formError w;
     preloadedReading := preloadedReading w;
     preloadedListening := preloadedListening w;
     preloadedWriting := preloadedWriting w; preloadedSpeaking := v;
     stage := stage w; background := background w; console := console w;
     submissions := submissions w |}.

Definition setStage (v : option Stage) (w : World) : World :=
  {| state := state w; scores := scores w; userDetails := userDetails w;
     isSubmitting := isSubmitting w; formError := formError w;
     preloadedReading := preloadedReading w;
     preloadedListening := preloadedListening w;
     preloadedWriting := preloadedWriting w;
     preloadedSpeaking := preloadedSpeaking w; stage := v;
     background := background w; console := console w;
     submissions := submissions w |}.

Definition setBackground (v : list Slot) (w : World) : World :=
  {| state := state w; scores := scores w; userDetails := userDetails w;
     isSubmitting := isSubmitting w; formError := formError w;
     preloadedReading := preloadedReading w;
     preloadedListening := preloadedListening w;
     preloadedWriting := preloadedWriting w;
     preloadedSpeaking := preloadedSpeaking w; stage := stage w;
     background := v; console := console w;
     submissions := submissions w |}.

Definition setConsole (v : list LogEntry) (w : World) : World :=
  {| state := state w; scores := scores w; userDetails := userDetails w;
     isSubmitting := isSubmitting w; formError := formError w;
     preloadedReading := preloadedReading w;
     preloadedListening := preloadedListening w;
     preloadedWriting := preloadedWriting w;
     preloadedSpeaking := preloadedSpeaking w; stage := stage w;
     background := background w; console := v;
     submissions := submissions w |}.

Definition setSubmissions (v : list TestSubmissionData) (w : World) : World :=
  {| state := state w; scores := scores w; userDetails := userDetails w;
     isSubmitting := isSubmitting w; formError := formError w;
     preloadedReading := preloadedReading w;
     preloadedListening := preloadedListening w;
     preloadedWriting := preloadedWriting w;
     preloadedSpeaking := preloadedSpeaking w; stage := stage w;
     background := background w; console := console w; submissions := v |}.
Definition noScores : Scores :=
  {| reading := 0; listening := 0; writing := 0; speaking := 0 |}.

Definition noDetails : UserDetails :=
  {| name := ""; phone := ""; language := "Malayalam" |}.

Definition isSet {A} (slot : option A) : bool :=
  match slot with Some _ => true | None => false end.

Definition launch (slot : Slot) (w : World) : World :=
  setBackground (background w ++ [slot]) w.

(** Lines 34-47: the preloading effect. *)
Definition preloadingEffect (w : World) : World :=
  let w :=
    if bool_decide (state w = HOME) && negb (isSet (preloadedReading w))
    then launch ReadingSlot w else w in
  let w :=
    if bool_decide (state w = TEST_READING) && negb (isSet (preloadedListening w))
    then launch ListeningSlot w else w in
  let w :=
    if bool_decide (state w = TEST_LISTENING) && negb (isSet (preloadedWriting w))
    then launch WritingSlot w else w in
  if bool_decide (state w = TEST_WRITING) && negb (isSet (preloadedSpeaking w))
  then launch SpeakingSlot w else w.

(** The first render, followed by the effect. *)
Definition initial : World :=
  preloadingEffect
    {| state := HOME; scores := noScores; userDetails := noDetails;
       isSubmitting := false; formError := None;
       preloadedReading := None; preloadedListening := None;
       preloadedWriting := None; preloadedSpeaking := None;
       stage := None; background := []; console := []; submissions := [] |}.

(** [{ ...prev, [module]: score }]. *)
Definition withScore (module : ModuleKey) (score : Q) (prev : Scores) : Scores :=
  match module with
  | Reading => {| reading := score; listening := listening prev;
                  writing := writing prev; speaking := speaking prev |}
  | Listening => {| reading := reading prev; listening := score;
                    writing := writing prev; speaking := speaking prev |}
  | Writing => {| reading := reading prev; listening := listening prev;
                  writing := score; speaking := speaking prev |}
  | Speaking => {| reading := reading prev; listening := listening prev;
                   writing := writing prev; speaking := score |}
  end.

(** Lines 49-55. *)
Definition updateScore (module : ModuleKey) (score : Q) (w : World) : World :=
  let w := setScores (withScore module score (scores w)) w in
  let w := match module with Reading => setState TEST_LISTENING w | _ => w end in
  let w := match module with Listening => setState TEST_WRITING w | _ => w end in
  let w := match module with Writing => setState TEST_SPEAKING w | _ => w end in
  match module with Speaking => setState USER_DETAILS_FORM w | _ => w end.

(** The state in which a module is on screen, and the one that follows its
    completion. *)
Definition stateOfModule (module : ModuleKey) : AppState :=
  match module with
  | Reading => TEST_READING
  | Listening => TEST_LISTENING
  | Writing => TEST_WRITING
  | Speaking => TEST_SPEAKING
  end.

Definition stateAfter (module : ModuleKey) : AppState :=
  match module with
  | Reading => TEST_LISTENING
  | Listening => TEST_WRITING
  | Writing => TEST_SPEAKING
  | Speaking => USER_DETAILS_FORM
  end.

(** [Math.round] of a finite number: the nearest integer, a tie going
    up. *)
Definition round (x : Q) : Z := Qfloor (x + (1 # 2))%Q.

(** Lines 57-59: three additions from left to right, the division and
    [Math.round], each on the number the step before has delivered. *)
Definition getAverageScore (w : World) : Binary64.Number :=
  Binary64.mathRound
    (Binary64.divideBy 4
       (Binary64.add
          (Binary64.add
             (Binary64.add (Binary64.Finite (reading (scores w)))
                           (Binary64.Finite (listening (scores w))))
             (Binary64.Finite (writing (scores w))))
          (Binary64.Finite (speaking (scores w))))).

(** The quotient of lines 57-59, before [Math.round], on the
    floating-point numbers of the kernel. *)
Definition meanBinary64 (r l w s : PrimFloat.float) : PrimFloat.float :=
  PrimFloat.div (PrimFloat.add (PrimFloat.add (PrimFloat.add r l) w) s)
                (Js.number 4).

(** A score board of two scores of the choice modules, given by their
    counters, and two integers.  On it the floating-point unit of the
    kernel delivers a quotient whose rounding is the average that
    [getAverageScore] returns. *)
Definition averageAgreesOn
    (board : (nat * nat) * (nat * nat) * (Z * Z)) : bool :=
  let '(r, l, (w, s)) := board in
  match Js.rationalOf
          (meanBinary64 (Scoring.ratioBinary64 (fst r) (snd r))
                        (Scoring.ratioBinary64 (fst l) (snd l))
                        (Js.number w) (Js.number s)) with
  | Some q =>
      match getAverageScore
              (setScores {| reading := Scoring.ratio (fst r) (snd r);
                            listening := Scoring.ratio (fst l) (snd l);
                            writing := inject_Z w;
                            speaking := inject_Z s |} initial) with
      | Binary64.Finite average => Qeq_bool average (inject_Z (round q))
      | _ => false
      end
  | None => false
  end.

(** Every way of answering up to six questions in each choice module,
    with some marks for writing and speaking. *)
Definition boards : list ((nat * nat) * (nat * nat) * (Z * Z)) :=
  flat_map
    (fun r =>
       flat_map
         (fun l =>
            map (fun marks => (r, l, marks))
                [(70, 70); (60, 85); (0, 100); (35, 90); (100, 100)]%Z)
         (Scoring.outcomesUpTo 6))
    (Scoring.outcomesUpTo 6).

Definition isDigit (c : ascii) : bool :=
  let n := nat_of_ascii c in (48 <=? n) && (n <=? 57).

(** [s.replace(/\D/g, '')]. *)
Fixpoint digitsOf (s : string) : string :=
  match s with
  | EmptyString => EmptyString
  | String c s' => if isDigit c then String c (digitsOf s') else digitsOf s'
  end.

Fixpoint allEqual (c : ascii) (s : string) : bool :=
  match s with
  | EmptyString => true
  | String d s' => Ascii.eqb c d && allEqual c s'
  end.

(** [/^(\d)\1+$/.test(s)]: a digit, then the same digit at least once. *)
Definition repeatedDigit (s : string) : bool :=
  match s with
  | String c (String d rest) => isDigit c && allEqual c (String d rest)
  | _ => false
  end.

(** Lines 126-134. *)
Definition validatePhone (phone : string) : option string :=
  let cleanPhone := digitsOf phone in
  if negb (String.length cleanPhone =? 10)
  then Some "Phone number must be exactly 10 digits."
  else if startsWith cleanPhone "0"
  then Some "Phone number cannot start with 0."
  else if existsb (String.eqb cleanPhone)
            ["1234567890"; "9876543210"; "0123456789"]
  then Some "Please enter a valid, real phone number."
  else if repeatedDigit cleanPhone
  then Some "Please enter a valid phone number (not repeated digits)."
  else None.

Definition truthy (s : string) : bool :=
  match s with EmptyString => false | String _ _ => true end.

(** Lines 136-166; [submitTestResults] catches its own failures, so the
    handler always reaches the lines after the [await]. *)
Definition handleFormSubmit (now : string) (w : World) : World :=
  let w := setFormError None w in
  if negb (truthy (trim (name (userDetails w))))
  then setFormError (Some "Please enter your full name.") w
  else
    match validatePhone (phone (userDetails w)) with
    | Some phoneError => setFormError (Some phoneError) w
    | None =>
        if truthy (name (userDetails w)) && truthy (phone (userDetails w))
        then
          let w := setIsSubmitting true w in
          let average := getAverageScore w in
          let submissionData :=
            {| submittedName := name (userDetails w);
               submittedPhone := phone (userDetails w);
               submittedLanguage := language (userDetails w);
               readingScore := round (reading (scores w));
               listeningScore := round (listening (scores w));
               writingScore := round (writing (scores w));
               speakingScore := round (speaking (scores w));
               averageScore := average;
               timestamp := now |} in
          let w := setSubmissions (submissions w ++ [submissionData]) w in
          let w := setIsSubmitting false w in
          setState RESULTS w
        else w
    end.

(** Lines 418-426: the handler of the restart button. *)
Definition restart (w : World) : World :=
  let w := setScores {| reading := 0; listening := 0; writing := 0;
                        speaking := 0 |} w in
  let w := setUserDetails {| name := ""; phone := "";
                             language := "Malayalam" |} w in
  let w := setState HOME w in
  let w := setPreloadedReading None w in
  let w := setPreloadedListening None w in
  let w := setPreloadedWriting None w in
  setPreloadedSpeaking None w.

Definition log (entries : list LogEntry) (w : World) : World :=
  setConsole (console w ++ entries) w.

Fixpoint removeFirst (slot : Slot) (slots : list Slot) : list Slot :=
  match slots with
  | [] => []
  | s :: rest => if decide (s = slot) then rest else s :: removeFirst slot rest
  end.

Definition inFlight (slot : Slot) (w : World) : bool :=
  bool_decide (slot ∈ background w).

(** The [.then(setPreloaded...)] and [.catch(e => console.error(...))] of a
    background fetch. *)
Definition preloadSettled {T} (slot : Slot) (failed : string)
    (setPreloaded : option T -> World -> World) (r : Settled T) (w : World)
    : World :=
  if inFlight slot w then
    let w := setBackground (removeFirst slot (background w)) w in
    match r with
    | Fulfilled data => setPreloaded (Some data) w
    | Rejected reason => log [{| label := failed; logged := reason |}] w
    end
  else w.

(** [renderContent] (lines 168-437): which stage module is on screen.
    A stage is mounted when its state is entered and receives the cell of
    its slot as it is at that moment. *)
Definition render (pf : Platform) (before : AppState) (w : World) : World :=
  if decide (state w = before) then w
  else
    match state w with
    | TEST_READING =>
        setStage (Some (ReadingStage
                          (Loader.mount (preloadedReading w)))) w
    | TEST_LISTENING =>
        let (st, entries) := ListeningModule.mount pf (preloadedListening w) in
        log entries (setStage (Some (ListeningStage st)) w)
    | TEST_WRITING =>
        setStage (Some (WritingStage (Loader.mount (preloadedWriting w)))) w
    | TEST_SPEAKING =>
        setStage (Some (SpeakingStage (Loader.mount (preloadedSpeaking w)))) w
    | _ => setStage None w
    end.

(** A mounted stage sees its preloaded prop change: the effect of
    ReadingModule, WritingModule and SpeakingModule depends on it, the one
    of ListeningModule does not. *)
Definition propChanged (slot : Slot) (w : World) : World :=
  match slot, stage w with
  | ReadingSlot, Some (ReadingStage st) =>
      setStage (Some (ReadingStage (Loader.effect (preloadedReading w) st))) w
  | WritingSlot, Some (WritingStage st) =>
      setStage (Some (WritingStage (Loader.effect (preloadedWriting w) st))) w
  | SpeakingSlot, Some (SpeakingStage st) =>
      setStage (Some (SpeakingStage (Loader.effect (preloadedSpeaking w) st))) w
  | _, _ => w
  end.

(** What happens to the application from outside. *)
Inductive Event :=
| ClickStart
| ClickLogo
| ModuleComplete (score : Q)
| TypeName (value : string)
| TypePhone (value : string)
| SelectLanguage (value : string)
| SubmitForm (now : string)
| ClickRestart
| ClickTryAgain
| ReadingPreloadSettled (r : Settled ReadingTestContent)
| ListeningPreloadSettled (r : Settled ListeningPreload)
| WritingPreloadSettled (r : Settled WritingTask)
| SpeakingPreloadSettled (r : Settled SpeakingTask)
| ReadingFetchSettled (r : Settled ReadingTestContent)
| ListeningScriptSettled (r : Settled ListeningTestContent)
| ListeningAudioSettled (r : Settled (list string))
| WritingFetchSettled (r : Settled WritingTask)
| SpeakingFetchSettled (r : Settled SpeakingTask).

Definition updateStage {S} (wrap : S -> Stage) (r : S * list LogEntry)
    (w : World) : World :=
  log (snd r) (setStage (Some (wrap (fst r))) w).

(** The handler an event reaches.  A control that is not on screen, a
    module that is not mounted and a fetch that is not outstanding mean
    that there is nothing to handle. *)
Definition handle (pf : Platform) (ev : Event) (w : World) : World :=
  match ev with
  | ClickStart =>
      if decide (state w = HOME) then setState TEST_READING w else w
  | ClickLogo => setState HOME w
  | ModuleComplete score =>
      match state w with
      | TEST_READING => updateScore Reading score w
      | TEST_LISTENING => updateScore Listening score w
      | TEST_WRITING => updateScore Writing score w
      | TEST_SPEAKING => updateScore Speaking score w
      | _ => w
      end
  | TypeName value =>
      if decide (state w = USER_DETAILS_FORM) then
        setFormError None
          (setUserDetails {| name := value; phone := phone (userDetails w);
                             language := language (userDetails w) |} w)
      else w
  | TypePhone value =>
      if decide (state w = USER_DETAILS_FORM) then
        let val := digitsOf value in
        let w :=
          if String.length val <=? 15
          then setUserDetails {| name := name (userDetails w); phone := val;
                                 language := language (userDetails w) |} w
          else w in
        setFormError None w
      else w
  | SelectLanguage value =>
      if decide (state w = USER_DETAILS_FORM) then
        setUserDetails {| name := name (userDetails w);
                          phone := phone (userDetails w);
                          language := value |} w
      else w
  | SubmitForm now =>
      if decide (state w = USER_DETAILS_FORM) then handleFormSubmit now w
      else w
  | ClickRestart =>
      if decide (state w = RESULTS) then restart w else w
  | ClickTryAgain =>
      match stage w with
      | Some (ReadingStage st) =>
          match Loader.view st with
          | ErrorView _ =>
              setStage (Some (ReadingStage
                                (Loader.fetchTest (preloadedReading w) st))) w
          | _ => w
          end
      | Some (ListeningStage st) =>
          match ListeningModule.view st with
          | ErrorView _ =>
              updateStage ListeningStage
                (ListeningModule.initTest pf (preloadedListening w) st) w
          | _ => w
          end
      | Some (WritingStage st) =>
          match Loader.view st with
          | ErrorView _ =>
              setStage (Some (WritingStage
                                (Loader.fetchTest (preloadedWriting w) st))) w
          | _ => w
          end
      | Some (SpeakingStage st) =>
          match Loader.view st with
          | ErrorView _ =>
              setStage (Some (SpeakingStage
                                (Loader.fetchTest (preloadedSpeaking w) st))) w
          | _ => w
          end
      | None => w
      end
  | ReadingPreloadSettled r =>
      let w' := preloadSettled ReadingSlot "BG Load Reading Failed"
                  setPreloadedReading r w in
      if inFlight ReadingSlot w && negb (isRejected r)
      then propChanged ReadingSlot w' else w'
  | ListeningPreloadSettled r =>
      preloadSettled ListeningSlot "BG Load Listening Failed"
        setPreloadedListening r w
  | WritingPreloadSettled r =>
      let w' := preloadSettled WritingSlot "BG Load Writing Failed"
                  setPreloadedWriting r w in
      if inFlight WritingSlot w && negb (isRejected r)
      then propChanged WritingSlot w' else w'
  | SpeakingPreloadSettled r =>
      let w' := preloadSettled SpeakingSlot "BG Load Speaking Failed"
                  setPreloadedSpeaking r w in
      if inFlight SpeakingSlot w && negb (isRejected r)
      then propChanged SpeakingSlot w' else w'
  | ReadingFetchSettled r =>
      match stage w with
      | Some (ReadingStage st) =>
          if Loader.fetching st
          then updateStage ReadingStage
                 (Loader.fetchSettled (readingErrorText pf) r st) w
          else w
      | _ => w
      end
  | ListeningScriptSettled r =>
      match stage w with
      | Some (ListeningStage st) =>
          updateStage ListeningStage (ListeningModule.scriptSettled r st) w
      | _ => w
      end
  | ListeningAudioSettled r =>
      match stage w with
      | Some (ListeningStage st) =>
          updateStage ListeningStage (ListeningModule.audioSettled pf r st) w
      | _ => w
      end
  | WritingFetchSettled r =>
      match stage w with
      | Some (WritingStage st) =>
          if Loader.fetching st
          then updateStage WritingStage
                 (Loader.fetchSettled writingErrorText r st) w
          else w
      | _ => w
      end
  | SpeakingFetchSettled r =>
      match stage w with
      | Some (SpeakingStage st) =>
          if Loader.fetching st
          then updateStage SpeakingStage
                 (Loader.fetchSettled speakingErrorText r st) w
          else w
      | _ => w
      end
  end.

(** A background fetch that was outstanding has delivered a value: the
    cell holds a new object, whatever it held before. *)
Definition deliversValue (ev : Event) (w : World) : bool :=
  match ev with
  | ReadingPreloadSettled (Fulfilled _) => inFlight ReadingSlot w
  | ListeningPreloadSettled (Fulfilled _) => inFlight ListeningSlot w
  | WritingPreloadSettled (Fulfilled _) => inFlight WritingSlot w
  | SpeakingPreloadSettled (Fulfilled _) => inFlight SpeakingSlot w
  | _ => false
  end.

(** The dependency list of the preloading effect (line 47). *)
Definition depsChanged (before after : World) : bool :=
  negb (bool_decide (state before = state after)) ||
  negb (Bool.eqb (isSet (preloadedReading before)) (isSet (preloadedReading after))) ||
  negb (Bool.eqb (isSet (preloadedListening before)) (isSet (preloadedListening after))) ||
  negb (Bool.eqb (isSet (preloadedWriting before)) (isSet (preloadedWriting after))) ||
  negb (Bool.eqb (isSet (preloadedSpeaking before)) (isSet (preloadedSpeaking after))).

(** One event: its handler, the render it causes, and the preloading
    effect when one of its dependencies changed. *)
Definition step (pf : Platform) (w : World) (ev : Event) : World :=
  let w' := render pf (state w) (handle pf ev w) in
  if deliversValue ev w || depsChanged w w' then preloadingEffect w' else w'.

Definition run (pf : Platform) (w : World) (events : list Event) : World :=
  foldl (step pf) w events.

(** The states a run passes through, one per event. *)
Fixpoint statesOf (pf : Platform) (w : World) (events : list Event)
    : list AppState :=
  match events with
  | [] => []
  | ev :: rest => let w' := step pf w ev in state w' :: statesOf pf w' rest
  end.

(** Events that come from the provider or from inside a stage module:
    settled fetches and the retry button of a stage. *)
Definition quiet (ev : Event) : bool :=
  match ev with
  | ClickTryAgain
  | ReadingPreloadSettled _ | ListeningPreloadSettled _
  | WritingPreloadSettled _ | SpeakingPreloadSettled _
  | ReadingFetchSettled _ | ListeningScriptSettled _ | ListeningAudioSettled _
  | WritingFetchSettled _ | SpeakingFetchSettled _ => true
  | _ => false
  end.

(** The background fetch for a slot is rejected. *)
Definition preloadRejected (slot : Slot) (reason : option Error) : Event :=
  match slot with
  | ReadingSlot => ReadingPreloadSettled (Rejected reason)
  | ListeningSlot => ListeningPreloadSettled (Rejected reason)
  | WritingSlot => WritingPreloadSettled (Rejected reason)
  | SpeakingSlot => SpeakingPreloadSettled (Rejected reason)
  end.

Definition failureLabel (slot : Slot) : string :=
  match slot with
  | ReadingSlot => "BG Load Reading Failed"
  | ListeningSlot => "BG Load Listening Failed"
  | WritingSlot => "BG Load Writing Failed"
  | SpeakingSlot => "BG Load Speaking Failed"
  end.

(** The event that brings the stage of a slot on screen. *)
Definition enters (slot : Slot) (w : World) (ev : Event) : Prop :=
  match slot with
  | ReadingSlot => state w = HOME /\ ev = ClickStart
  | ListeningSlot => state w = TEST_READING /\ exists score, ev = ModuleComplete score
  | WritingSlot => state w = TEST_LISTENING /\ exists score, ev = ModuleComplete score
  | SpeakingSlot => state w = TEST_WRITING /\ exists score, ev = ModuleComplete score
  end.

(** What the mounted stage shows, and whether it waits for a fetch of its
    own. *)
Definition stageView (s : Stage) : View :=
  match s with
  | ReadingStage st => Loader.view st
  | ListeningStage st => ListeningModule.view st
  | WritingStage st => Loader.view st
  | SpeakingStage st => Loader.view st
  end.

Definition fetchOutstanding (s : Stage) : bool :=
  match s with
  | ReadingStage st => Loader.fetching st
  | ListeningStage st =>
      match ListeningModule.awaiting st with
      | ListeningModule.Idle => false
      | _ => true
      end
  | WritingStage st => Loader.fetching st
  | SpeakingStage st => Loader.fetching st
  end.

Definition stageOf (slot : Slot) (s : Stage) : bool :=
  match slot, s with
  | ReadingSlot, ReadingStage _ | ListeningSlot, ListeningStage _
  | WritingSlot, WritingStage _ | SpeakingSlot, SpeakingStage _ => true
  | _, _ => false
  end.

(** Every cell of the cache is empty. *)
Definition cacheEmpty (w : World) : Prop :=
  preloadedReading w = None /\ preloadedListening w = None /\
  preloadedWriting w = None /\ preloadedSpeaking w = None.

(** The cell of a slot is empty. *)
Definition slotEmpty (slot : Slot) (w : World) : bool :=
  match slot with
  | ReadingSlot => negb (isSet (preloadedReading w))
  | ListeningSlot => negb (isSet (preloadedListening w))
  | WritingSlot => negb (isSet (preloadedWriting w))
  | SpeakingSlot => negb (isSet (preloadedSpeaking w))
  end.

End App.

(* ===================================================================== *)
(** * Sample data *)
(* ===================================================================== *)

Module Samples.
Import Js Types.

Definition question (id : string) (answer : Z) : Question :=
  {| questionId := id; questionText := "Was ist richtig?";
     options := ["a"; "b"; "c"]; correctAnswerIndex := answer |}.

(** One part with three questions. *)
Definition email : TestPart :=
  {| partId := "p1"; partType := "Email"; title := "Einladung";
     partContent := "Liebe Anna, ...";
     questions := [question "q1" 0; question "q2" 1; question "q3" 2] |}.

Definition readingSample : ReadingTestContent := {| readingParts := [email] |}.

Definition listeningSample : ListeningTestContent :=
  {| parts := [email]; fullScript := ""; audioBase64 := None |}.

Definition announcement : TestPart :=
  {| partId := "p2"; partType := "Announcement"; title := "Am Bahnhof";
     partContent := "Achtung, der Zug nach Berlin ...";
     questions := [question "q4" 1] |}.

Definition dialogue : TestPart :=
  {| partId := "p3"; partType := "Dialogue"; title := "Im Supermarkt";
     partContent := "Guten Tag! Was kostet ...";
     questions := [question "q5" 2] |}.

(** A script of three parts, as the provider returns it. *)
Definition threeParts : ListeningTestContent :=
  {| parts := [email; announcement; dialogue]; fullScript := "";
     audioBase64 := None |}.

(** A provider that delivers everything at the first attempt, except the
    speech of the second part, which it refuses for good. *)
Definition refusesSecondPart : Fetchers.Provider :=
  {| Fetchers.readingResponse := fun _ => Resolve readingSample;
     Fetchers.scriptResponse := fun _ => Resolve threeParts;
     Fetchers.audioResponse := fun index _ _ =>
       if (index =? 1)%nat
       then Throw (newError "400 Bad Request: voice not supported")
       else Resolve (Some "AAAA");
     Fetchers.audioSettledAt := fun index => index;
     Fetchers.writingResponse := fun _ =>
       Resolve {| writingTopic := "Urlaub"; writingInstructions := "..." |};
     Fetchers.speakingResponse := fun _ =>
       Resolve {| speakingTopic := "Familie"; speakingInstructions := "..." |} |}.

(** A browser for the examples: [atob] lets its argument pass. *)
Definition browser : Stages.Platform :=
  {| Stages.atob := fun base64 => Some base64;
     Stages.exceptionMessage := fun _ => "The operation failed.";
     Stages.embeddedMessage := fun _ => None;
     Stages.webAudio :=
       {| Audio.acceptsChannels := fun n => (1 <=? n) && (n <=? 32);
          Audio.acceptsSampleRate := fun r =>
            (8000 <=? r) && (r <=? 96000) |} |}.

(** Every question answered with the first option: one of three is right. *)
Definition firstOptions : gmap string Z :=
  {[ "q1" := 0%Z; "q2" := 0%Z; "q3" := 0%Z ]}.

End Samples.

(* ===================================================================== *)
(** * The assembled track, sample by sample *)
(* ===================================================================== *)

Module Track.

(** The samples of the segments in order, with [gap] samples of silence
    between neighbours. *)
Fixpoint joined (views : list (list Z)) (gap : nat) : list Z :=
  match views with
  | [] => []
  | [view] => view
  | view :: rest => view ++ replicate gap 0%Z ++ joined rest gap
  end.

(** The range of an [Int16Array] element divided by 32768. *)
Definition inUnitRange (q : Q) : Prop := (-1 <= q)%Q /\ (q < 1)%Q.

End Track.

(* ===================================================================== *)
(** * services/geminiService.ts: the wrapped operations, and [cleanJson] *)
(* ===================================================================== *)

Module Calls.
Import Js Executor Types Fetchers.

(** The operation [generateAudioFromScript] hands to the executor (lines
    132-145). *)
Definition audioOperation (p : Provider) (index : nat) (script : string)
    : nat -> Outcome string :=
  fun n =>
    match audioResponse p index script n with
    | Resolve (Some (String c s)) => Resolve (String c s)
    | Resolve (Some EmptyString) | Resolve None =>
        Throw (newError "No audio data")
    | Throw error => Throw error
    end.

(** The text line 150 has synthesized for a part. *)
Definition spokenText (index : nat) (part : TestPart) : string :=
  "Teil " +:+ pretty (index + 1) +:+ ". " +:+ partType part +:+
  ". " +:+ partContent part.

Definition backtick : ascii := "`"%char.
Definition newline : ascii := "010"%char.

Fixpoint dropChars (n : nat) (s : string) : string :=
  match n, s with
  | S n', String _ s' => dropChars n' s'
  | _, _ => s
  end.

(** The length of the match of [/```json\n?|\n?```/] at the start of [s],
    [0] when there is none: the first alternative before the second, the
    optional line feed taken when it is there. *)
Definition fenceAt (s : string) : nat :=
  if startsWith s "```json" then
    if startsWith (dropChars 7 s) (String newline EmptyString) then 8 else 7
  else if startsWith s (String newline "```") then 4
  else if startsWith s "```" then 3
  else 0.

(** [text.replace(/```json\n?|\n?```/g, '')]: from left to right, a match is
    dropped and the search goes on behind it; [skip] counts the characters
    of the current match that are still to be dropped. *)
Fixpoint removeFences (skip : nat) (s : string) : string :=
  match s with
  | EmptyString => EmptyString
  | String c s' =>
      match skip with
      | S k => removeFences k s'
      | O =>
          match fenceAt s with
          | O => String c (removeFences 0 s')
          | S k => removeFences k s'
          end
      end
  end.

(** Line 11. *)
Definition cleanJson (text : string) : string :=
  Stages.trim (removeFences 0 text).

Fixpoint noBacktick (s : string) : bool :=
  match s with
  | EmptyString => true
  | String c s' => negb (Ascii.eqb c backtick) && noBacktick s'
  end.

End Calls.

Module Cases.
Import Js Types Fetchers.

(** A provider that delivers everything at the first attempt; the speech
    of a part is a text that depends on the index of the part. *)
Definition deliversAll : Provider :=
  {| readingResponse := fun _ => Resolve Samples.readingSample;
     scriptResponse := fun _ => Resolve Samples.threeParts;
     audioResponse := fun index _ _ => Resolve (Some ("AAAA" +:+ pretty index));
     audioSettledAt := fun index => index;
     writingResponse := fun _ =>
       Resolve {| writingTopic := "Urlaub"; writingInstructions := "..." |};
     speakingResponse := fun _ =>
       Resolve {| speakingTopic := "Familie"; speakingInstructions := "..." |} |}.

(** A provider whose speech response carries no audio. *)
Definition silent : Provider :=
  {| readingResponse := fun _ => Resolve Samples.readingSample;
     scriptResponse := fun _ => Resolve Samples.threeParts;
     audioResponse := fun _ _ _ => Resolve None;
     audioSettledAt := fun index => index;
     writingResponse := fun _ =>
       Resolve {| writingTopic := "Urlaub"; writingInstructions := "..." |};
     speakingResponse := fun _ =>
       Resolve {| speakingTopic := "Familie"; speakingInstructions := "..." |} |}.

End Cases.

(* ===================================================================== *)
(** * App.tsx: the details form and the results page *)
(* ===================================================================== *)

Module Report.
Import Js Types Stages App.

Record Tips := mkTips {
  tipsTitle : string;
  tipsContent : string;
  tipsColor : string;
  tipsBg : string;
  tipsBorder : string;
  tipsIconColor : string
}.

(** Lines 61-99. *)
Definition getExamTips (score : Binary64.Number) : Tips :=
  if Binary64.atLeast 90 score then
    {| tipsTitle := "Ready for the Exam! (Sehr Gut)";
       tipsContent := "Your performance is outstanding! You are well-prepared for the real A1 exam. To ensure a perfect score, double-check article genders (der/die/das) and read every question carefully to avoid silly mistakes. Viel Glück!";
       tipsColor := "text-green-800"; tipsBg := "bg-green-50";
       tipsBorder := "border-green-200"; tipsIconColor := "text-green-600" |}
  else if Binary64.atLeast 80 score then
    {| tipsTitle := "Very Good Performance (Gut)";
       tipsContent := "You have a solid grasp of the basics. To push for 100%, review plural forms and irregular verb conjugations. Practice speaking aloud to improve your confidence and fluency. You're doing great!";
       tipsColor := "text-blue-800"; tipsBg := "bg-blue-50";
       tipsBorder := "border-blue-200"; tipsIconColor := "text-blue-600" |}
  else if Binary64.atLeast 60 score then
    {| tipsTitle := "Good Start - Keep Practicing (Befriedigend)";
       tipsContent := "You are passing, but there's room for improvement. Focus on the 'Akkusativ' case and modal verbs (können, wollen, müssen). Try listening to German radio or podcasts to get used to the speed of native speakers.";
       tipsColor := "text-yellow-800"; tipsBg := "bg-yellow-50";
       tipsBorder := "border-yellow-200"; tipsIconColor := "text-yellow-600" |}
  else
    {| tipsTitle := "Needs More Preparation (Ausreichend)";
       tipsContent := "Don't be discouraged! Focus on building your daily vocabulary (numbers, days, family members) and basic sentence structure. Regular practice with flashcards and repeating audio exercises will help immensely. You can do this!";
       tipsColor := "text-red-800"; tipsBg := "bg-red-50";
       tipsBorder := "border-red-200"; tipsIconColor := "text-red-600" |}.

(** Line 383: the classes of the circle around the overall score. *)
Definition overallClass (average : Binary64.Number) : string :=
  if Binary64.atLeast 60 average
  then "border-green-500 text-green-600 bg-green-50"
  else "border-red-500 text-red-600 bg-red-50".

(** Line 401: the class of the score of one module. *)
Definition moduleClass (score : Q) : string :=
  if Qle_bool 60 score then "text-green-600" else "text-red-500".

(** Line 317: whether the phone field is drawn as invalid,
    [formError && formError.includes('Phone')]. *)
Definition phoneFieldInvalid (formError : option string) : bool :=
  match formError with
  | Some (String c s) => includes (String c s) "Phone"
  | Some EmptyString | None => false
  end.

(** What the results page shows for a score board (lines 363-364). *)
Definition overallTips (w : World) : Tips := getExamTips (getAverageScore w).



(** The record [handleFormSubmit] builds (lines 151-161). *)
Definition submissionOf (now : string) (w : World) : TestSubmissionData :=
  {| submittedName := name (userDetails w);
     submittedPhone := phone (userDetails w);
     submittedLanguage := language (userDetails w);
     readingScore := round (reading (scores w));
     listeningScore := round (listening (scores w));
     writingScore := round (writing (scores w));
     speakingScore := round (speaking (scores w));
     averageScore := getAverageScore w;
     timestamp := now |}.





End Report.

(* ===================================================================== *)
(** * ReadingModule.tsx, ListeningModule.tsx: the answer sheet *)
(* ===================================================================== *)

Module Quiz.
Import Js Types Scoring.

(** [answers] and [submitted] of the two choice modules. *)
Record Sheet := mkSheet {
  answers : gmap string Z;
  submitted : bool
}.

Definition init : Sheet := {| answers := ∅; submitted := false |}.

(** [handleSelect] (ReadingModule lines 51-54, ListeningModule lines
    86-89). *)
Definition handleSelect (questionId : string) (optionIndex : Z) (s : Sheet)
    : Sheet :=
  if submitted s then s
  else {| answers := <[questionId := optionIndex]> (answers s);
          submitted := submitted s |}.

Definition handleSubmit (s : Sheet) : Sheet :=
  {| answers := answers s; submitted := true |}.

(** [disabled={Object.keys(answers).length !== getTotalQuestions()}]. *)
Definition submitDisabled (content : list TestPart) (s : Sheet) : bool :=
  negb (size (answers s) =?
        foldl (fun acc part => acc + length (questions part)) 0 content).

(** What the user can click: the button of an option of a question of a
    part, and the submit button. *)
Inductive Click :=
| ClickOption (part question option : nat)
| ClickSubmit.

(** The buttons are rendered from the content; the option buttons are
    disabled once the sheet is submitted, and the submit button gives way
    to the button for the next module. *)
Definition click (content : list TestPart) (s : Sheet) (c : Click) : Sheet :=
  match c with
  | ClickOption p q i =>
      match content !! p ≫= (fun part => questions part !! q) with
      | Some question =>
          if (i <? length (options question)) && negb (submitted s)
          then handleSelect (questionId question) (Z.of_nat i) s
          else s
      | None => s
      end
  | ClickSubmit =>
      if submitted s || submitDisabled content s then s else handleSubmit s
  end.

Definition clicks (content : list TestPart) (cs : list Click) : Sheet :=
  foldl (click content) init cs.

(** What holds of the sheet whatever was clicked: an answer is the index
    of an option of a question with that identifier, and a submitted sheet
    has as many answers as there are questions. *)
Definition sheetInvariant (content : list TestPart) (s : Sheet) : Prop :=
  (forall id z,
      answers s !! id = Some z ->
      exists question i,
        question ∈ allQuestions content /\ questionId question = id /\
        z = Z.of_nat i /\ i < length (options question)) /\
  (submitted s = true ->
   size (answers s) = length (allQuestions content)).

End Quiz.

(* ===================================================================== *)
(** * SpeakingModule.tsx, audioUtils.ts, geminiService.ts: what is sent
      for evaluation *)
(* ===================================================================== *)

Module Speech.
Import Js Types Stages.

(** [String.prototype.split] with a separator of one character. *)
Fixpoint split (sep : ascii) (s : string) : list string :=
  match s with
  | EmptyString => [EmptyString]
  | String c s' =>
      if Ascii.eqb c sep then EmptyString :: split sep s'
      else match split sep s' with
           | first :: rest => String c first :: rest
           | [] => [String c EmptyString]
           end
  end.

(** audioUtils.ts lines 60-72, for the text the reader delivers:
    [result.split(',')[1]], [None] for [undefined]. *)
Definition blobToBase64 (result : string) : option string :=
  split "," result !! 1.

(** The parts of a request for evaluation. *)
Inductive Part :=
| InlineData (mimeType data : string)
| Text (text : string).

Record Input := mkInput {
  inputAudioBase64 : option string;
  inputText : option string
}.

Definition whenTruthy {A} (value : option string) (f : string -> A) : list A :=
  match value with
  | Some (String c s) => [f (String c s)]
  | Some EmptyString | None => []
  end.

Definition taskPrompt (task : SpeakingTask) : Part :=
  Text ("Task: " +:+ speakingInstructions task +:+
        ". Evaluate German A1 speech. Score (0-100), feedback & corrections.").

(** geminiService.ts lines 218-221. *)
Definition evaluationParts (task : SpeakingTask) (input : Input) : list Part :=
  whenTruthy (inputAudioBase64 input) (InlineData "audio/webm") ++
  whenTruthy (inputText input) (fun text => Text ("User text: " +:+ text)) ++
  [taskPrompt task].

(** The fields of the module that [handleSubmit] reads; [audioBlob] holds
    the data URL the reader makes of the recording. *)
Record Form := mkForm {
  task : option SpeakingTask;
  useTextFallback : bool;
  audioBlob : option string;
  textInput : string
}.

Inductive Action :=
| Nothing
| Evaluate (task : SpeakingTask) (input : Input)
| ShowError (text : string).

(** SpeakingModule.tsx lines 101-128, up to the call of [evaluateSpeaking]. *)
Definition handleSubmit (f : Form) : Action :=
  match task f with
  | None => Nothing
  | Some t =>
      if negb (useTextFallback f) && negb (App.isSet (audioBlob f)) then Nothing
      else if useTextFallback f && negb (App.truthy (trim (textInput f)))
      then Nothing
      else if useTextFallback f
      then Evaluate t {| inputAudioBase64 := None;
                         inputText := Some (textInput f) |}
      else
        match audioBlob f with
        | Some result =>
            Evaluate t {| inputAudioBase64 := blobToBase64 result;
                          inputText := None |}
        | None =>
            ShowError ("Failed to evaluate submission. " +:+
                       "No input provided")
        end
  end.

Fixpoint noComma (s : string) : bool :=
  match s with
  | EmptyString => true
  | String c s' => negb (Ascii.eqb c ",") && noComma s'
  end.

End Speech.

(* ===================================================================== *)
(** * services/submissionService.ts *)
(* ===================================================================== *)

Module Sheets.
Import Js Types Stages App.

Definition hardcodedUrl : string :=
  "https://script.google.com/macros/s/AKfycbw7wpzYSLRYAsdkI2z7qEl03hyBLiScoUubRCOkqOicE1aNWgDrPxzUpgfST0UIrSYqLg/exec".

(** Lines 33-43; [env] is [import.meta.env.VITE_GOOGLE_SHEET_URL], [None]
    when any link of that chain is missing. *)
Definition getSheetUrl (env : option string) : string :=
  match env with
  | Some (String c s) => String c s
  | Some EmptyString | None => hardcodedUrl
  end.

(** A value appended to the parameters: a text as it is, a number through
    its [toString()]. *)
Inductive Value :=
| OfText (text : string)
| OfNumber (number : Binary64.Number).

Definition ofInteger (z : Z) : Value :=
  OfNumber (Binary64.Finite (inject_Z z)).

Record Request := mkRequest {
  requestUrl : string;
  requestMethod : string;
  requestMode : string;
  contentType : string;
  params : list (string * Value)
}.

Inductive Console :=
| Warned (text : string)
| Logged (text : string)
| Errored (text : string) (reason : option Error).

(** Lines 45-81, against a [fetch] that answers a request with its
    outcome; the result is what was requested and what was written to the
    console.  The promise of the function is fulfilled on every path. *)
Definition submitTestResults (env : option string)
    (fetch : Request -> Outcome unit) (data : TestSubmissionData)
    : list Request * list Console :=
  let GOOGLE_SCRIPT_URL := getSheetUrl env in
  if negb (truthy GOOGLE_SCRIPT_URL) then
    ([], [Warned "⚠️ VITE_GOOGLE_SHEET_URL is missing. Data will not be saved to Google Sheets."])
  else
    let request :=
      {| requestUrl := GOOGLE_SCRIPT_URL;
         requestMethod := "POST";
         requestMode := "no-cors";
         contentType := "application/x-www-form-urlencoded";
         params :=
           [("name", OfText (submittedName data));
            ("phone", OfText (submittedPhone data));
            ("language", OfText (submittedLanguage data));
            ("readingScore", ofInteger (readingScore data));
            ("listeningScore", ofInteger (listeningScore data));
            ("writingScore", ofInteger (writingScore data));
            ("speakingScore", ofInteger (speakingScore data));
            ("averageScore", OfNumber (averageScore data));
            ("timestamp", OfText (timestamp data))] |} in
    match fetch request with
    | Resolve _ =>
        ([request], [Logged "✅ Submission sent to Google Sheet (opaque response)"])
    | Throw error =>
        ([request], [Errored "❌ Error submitting to Google Sheets:" (Some error)])
    end.

End Sheets.

(* ===================================================================== *)
(** * Properties of the executor *)
(* ===================================================================== *)

Section ExecutorFacts.
Import Js Executor.

Lemma toLowerCase_app (s t : string) :
  toLowerCase (s +:+ t) = toLowerCase s +:+ toLowerCase t.
Proof. induction s as [|c s IH]; simpl; [reflexivity | now rewrite IH]. Qed.

(** A lower-cased text splits where its image splits. *)
Lemma toLowerCase_split (text x y : string) :
  toLowerCase text = x +:+ y ->
  exists x' y', text = x' +:+ y' /\ toLowerCase x' = x /\ toLowerCase y' = y.
Proof.
  revert text. induction x as [|c x IH]; intros text H.
  - exists EmptyString, text. auto.
  - destruct text as [|d text]; simpl in H; [discriminate|].
    injection H as Hc Hrest.
    destruct (IH _ Hrest) as (x' & y' & -> & Hx & Hy).
    exists (String d x'), y'. simpl. now rewrite Hc, Hx, Hy.
Qed.

Lemma startsWith_spec (s prefix : string) :
  startsWith s prefix = true <-> exists rest, s = prefix +:+ rest.
Proof.
  revert s. induction prefix as [|p prefix IH]; intros s; simpl.
  - split; [intros _; now exists s | reflexivity].
  - destruct s as [|c s].
    + split; [discriminate | intros [rest H]; discriminate].
    + destruct (Ascii.eqb_spec p c) as [->|Hne].
      * rewrite IH. split; intros [rest H]; exists rest.
        -- simpl. now rewrite H.
        -- simpl in H. now injection H.
      * split; [discriminate | intros [rest H]; simpl in H; injection H as H1 H2; congruence].
Qed.

Lemma includes_spec (s needle : string) :
  includes s needle = true <->
  exists before after, s = before +:+ needle +:+ after.
Proof.
  induction s as [|c s IH]; simpl.
  - rewrite orb_false_r, startsWith_spec. split.
    + intros [rest H]. now exists EmptyString, rest.
    + intros (before & after & H). destruct before; simpl in H.
      * now exists after.
      * discriminate.
  - rewrite orb_true_iff, startsWith_spec, IH. split.
    + intros [[rest H] | (before & after & H)].
      * now exists EmptyString, rest.
      * exists (String c before), after. simpl. now rewrite H.
    + intros (before & after & H). destruct before as [|d before]; simpl in H.
      * left. now exists after.
      * right. injection H as _ H. now exists before, after.
Qed.

(** [includes] on the lower-cased text is the case-insensitive search for
    a marker that is itself in lower case. *)
Lemma includes_lower_spec (text marker : string) :
  toLowerCase marker = marker ->
  includes (toLowerCase text) marker = true <-> occursIgnoringCase marker text.
Proof.
  intros Hlow. rewrite includes_spec. unfold occursIgnoringCase. split.
  - intros (before & after & H).
    apply toLowerCase_split in H as (b' & rest & -> & Hb & Hrest).
    apply toLowerCase_split in Hrest as (m' & a' & -> & Hm & Ha).
    exists b', m', a'. split; [reflexivity | congruence].
  - intros (before & middle & after & -> & Hm).
    exists (toLowerCase before), (toLowerCase after).
    rewrite !toLowerCase_app. congruence.
Qed.

Lemma isTransient_spec (error : Error) :
  isTransient error = true <->
  mentionsTransientMarker (messageOr error (json error)).
Proof.
  unfold isTransient, mentionsTransientMarker, transientMarkers, errorMsg.
  rewrite !orb_true_iff, !includes_lower_spec by reflexivity.
  simpl. split.
  - intros [[[[H|H]|H]|H]|H]; eexists; (split; [|exact H]); tauto.
  - intros (marker & Hin & H).
    destruct Hin as [<-|[<-|[<-|[<-|[<-|[]]]]]]; tauto.
Qed.

Lemma invocations_app (w w' : World) :
  invocations (w ++ w') = invocations w + invocations w'.
Proof. induction w as [|[|ms] w IH]; simpl; lia. Qed.

Lemma sleeps_app (w w' : World) : sleeps (w ++ w') = sleeps w ++ sleeps w'.
Proof. induction w as [|[|ms] w IH]; simpl; congruence. Qed.

Lemma retried_S (baseDelay : Z) (k : nat) :
  retried baseDelay (S k) =
  retried baseDelay k ++ [Invoked; Slept (baseDelay * 2 ^ Z.of_nat k)%Z].
Proof.
  unfold retried. now rewrite seq_S, flat_map_app.
Qed.

Lemma backoffDelays_S (baseDelay : Z) (k : nat) :
  backoffDelays baseDelay (S k) =
  backoffDelays baseDelay k ++ [(baseDelay * 2 ^ Z.of_nat k)%Z].
Proof. unfold backoffDelays. now rewrite seq_S, map_app. Qed.

Lemma invocations_retried (baseDelay : Z) (k : nat) :
  invocations (retried baseDelay k) = k.
Proof.
  induction k as [|k IH]; [reflexivity|].
  rewrite retried_S, invocations_app, IH. simpl. lia.
Qed.

Lemma sleeps_retried (baseDelay : Z) (k : nat) :
  sleeps (retried baseDelay k) = backoffDelays baseDelay k.
Proof.
  induction k as [|k IH]; [reflexivity|].
  now rewrite retried_S, sleeps_app, IH, backoffDelays_S.
Qed.

Lemma sumZ_app (l l' : list Z) : sumZ (l ++ l') = (sumZ l + sumZ l')%Z.
Proof. unfold sumZ. induction l as [|x l IH]; simpl; lia. Qed.

(** The delays of [k] retries add up to [baseDelay * (2^k - 1)]. *)
Lemma sum_backoffDelays (baseDelay : Z) (k : nat) :
  sumZ (backoffDelays baseDelay k) = (baseDelay * (2 ^ Z.of_nat k - 1))%Z.
Proof.
  induction k as [|k IH].
  - unfold sumZ. simpl. lia.
  - rewrite backoffDelays_S, sumZ_app, IH, Nat2Z.inj_succ, Z.pow_succ_r by lia.
    unfold sumZ. simpl. lia.
Qed.

Section Loop.
Context {T : Type} (operation : nat -> Outcome T).
Variables (retries : nat) (baseDelay : Z).

(** [k] transient failures, each with attempts still left, advance the
    loop by [k] iterations: [k] invocations, each followed by its delay. *)
Lemma retryLoop_transient (k : nat) :
  forall (remaining : nat) (lastError : option Error) (w : World),
    (forall j, j < k -> failsTransiently (operation (invocations w + j))) ->
    k < retries -> k <= remaining ->
    exists lastError',
      retryLoop operation retries baseDelay remaining 0 lastError w =
      retryLoop operation retries baseDelay (remaining - k) k lastError'
                (w ++ retried baseDelay k).
Proof.
  induction k as [|k IH]; intros remaining lastError w Hfail Hk Hrem.
  - exists lastError. now rewrite Nat.sub_0_r, app_nil_r.
  - destruct (IH remaining lastError w) as [lastError' ->]; [|lia|lia|].
    { intros j Hj. apply Hfail. lia. }
    destruct (Hfail k) as (error & Hop & Htr); [lia|].
    exists (Some error).
    destruct (remaining - k) as [|rest] eqn:Hrest; [lia|].
    replace (remaining - S k) with rest by lia.
    simpl. unfold bind, invoke.
    rewrite invocations_app, invocations_retried, Hop, Htr. simpl.
    replace (Z.of_nat k <? Z.of_nat retries - 1)%Z with true
      by (symmetry; apply Z.ltb_lt; lia).
    unfold bind, sleep. now rewrite retried_S, <- !app_assoc.
Qed.

(** The iteration that follows those [k]. *)
Lemma runWithRetry_unfold (k : nat) (w : World) :
  (forall j, j < k -> failsTransiently (operation (invocations w + j))) ->
  k < retries ->
  runWithRetry operation retries baseDelay w =
  match operation (invocations w + k) with
  | Resolve v => (Fulfilled v, w ++ retried baseDelay k ++ [Invoked])
  | Throw error =>
      if isTransient error && (Z.of_nat k <? Z.of_nat retries - 1)%Z
      then retryLoop operation retries baseDelay (retries - S k) (S k)
             (Some error) (w ++ retried baseDelay (S k))
      else (Rejected (Some error), w ++ retried baseDelay k ++ [Invoked])
  end.
Proof.
  intros Hfail Hk. unfold runWithRetry.
  destruct (retryLoop_transient k retries None w Hfail Hk) as [le ->]; [lia|].
  destruct (retries - k) as [|rest] eqn:Hrest; [lia|].
  replace (retries - S k) with rest by lia.
  simpl. unfold bind, invoke.
  rewrite invocations_app, invocations_retried, <- !app_assoc.
  destruct (operation (invocations w + k)) as [v|error]; [reflexivity|].
  destruct (isTransient error && _); [|reflexivity].
  unfold bind, sleep. now rewrite retried_S, <- !app_assoc.
Qed.

Lemma runWithRetry_succeeds (k : nat) (v : T) (w : World) :
  k < retries ->
  (forall j, j < k -> failsTransiently (operation (invocations w + j))) ->
  operation (invocations w + k) = Resolve v ->
  runWithRetry operation retries baseDelay w =
  (Fulfilled v, w ++ retried baseDelay k ++ [Invoked]).
Proof.
  intros Hk Hfail Hok. rewrite (runWithRetry_unfold k w Hfail Hk).
  now rewrite Hok.
Qed.

Lemma runWithRetry_exhausted (w : World) :
  0 < retries ->
  (forall j, j < retries ->
             failsTransiently (operation (invocations w + j))) ->
  exists error,
    operation (invocations w + (retries - 1)) = Throw error /\
    runWithRetry operation retries baseDelay w =
    (Rejected (Some error), w ++ retried baseDelay (retries - 1) ++ [Invoked]).
Proof.
  intros Hpos Hfail.
  destruct (Hfail (retries - 1)) as (error & Hop & Htr); [lia|].
  exists error. split; [exact Hop|].
  rewrite (runWithRetry_unfold (retries - 1) w); [|intros; apply Hfail|]; try lia.
  rewrite Hop, Htr.
  now replace (Z.of_nat (retries - 1) <? Z.of_nat retries - 1)%Z with false
    by (symmetry; apply Z.ltb_ge; lia).
Qed.

Lemma runWithRetry_permanent (k : nat) (error : Error) (w : World) :
  k < retries ->
  (forall j, j < k -> failsTransiently (operation (invocations w + j))) ->
  failsPermanently (operation (invocations w + k)) error ->
  runWithRetry operation retries baseDelay w =
  (Rejected (Some error), w ++ retried baseDelay k ++ [Invoked]).
Proof.
  intros Hk Hfail [Hop Hperm]. rewrite (runWithRetry_unfold k w Hfail Hk).
  now rewrite Hop, Hperm.
Qed.

(** With at least one attempt the rejection reason is a caught error. *)
Lemma runWithRetry_reason (w : World) (reason : option Error) (w' : World) :
  0 < retries ->
  runWithRetry operation retries baseDelay w = (Rejected reason, w') ->
  exists error, reason = Some error.
Proof.
  intros Hpos. unfold runWithRetry.
  assert (H : forall remaining i lastError w0,
             (0 < remaining \/ is_Some lastError) ->
             retryLoop operation retries baseDelay remaining i lastError w0
             = (Rejected reason, w') -> exists error, reason = Some error).
  { induction remaining as [|remaining IH]; intros i lastError w0 Hinv; simpl.
    - destruct Hinv as [Hinv|[error ->]]; [lia|].
      unfold ret. intros [= <- _]. now exists error.
    - unfold bind, invoke. simpl.
      destruct (operation (invocations w0)) as [v|error]; [discriminate|].
      destruct (isTransient error && _).
      + unfold bind, sleep. simpl. apply IH. right. now exists error.
      + unfold ret. intros [= <- _]. now exists error. }
  apply H. now left.
Qed.

End Loop.

(** What the trace of a run says about invocations and delays. *)
Lemma trace_invocations (w : World) (baseDelay : Z) (k : nat) :
  invocations (w ++ retried baseDelay k ++ [Invoked]) = invocations w + (k + 1).
Proof. rewrite !invocations_app, invocations_retried. simpl. lia. Qed.

Lemma trace_sleeps (w : World) (baseDelay : Z) (k : nat) :
  sleeps (w ++ retried baseDelay k ++ [Invoked]) =
  sleeps w ++ backoffDelays baseDelay k.
Proof. rewrite !sleeps_app, sleeps_retried. simpl. now rewrite app_nil_r. Qed.

Lemma trace_totalSleep (w : World) (baseDelay : Z) (k : nat) :
  totalSleep (w ++ retried baseDelay k ++ [Invoked]) =
  (totalSleep w + sumZ (backoffDelays baseDelay k))%Z.
Proof. unfold totalSleep. now rewrite trace_sleeps, sumZ_app. Qed.

(** C1: run through the executor with three attempts and a base delay of
    1500 ms, an operation that fails [k < 3] times with an error classified
    as transient and then succeeds yields that success after exactly
    [k + 1] invocations, having slept [1500 * 2^i] for [i = 0 .. k-1] in
    total; an operation that fails transiently on all three attempts is
    rejected after exactly three invocations, the last of which is not
    followed by a delay; an error classified as permanent is propagated at
    once, with no further invocation and no delay after it. *)
Theorem C1_execute_retries_with_backoff
    {T : Type} (operation : nat -> Outcome T) (w : World) :
  (forall (k : nat) (v : T),
      k < 3 ->
      (forall j, j < k -> failsTransiently (operation (invocations w + j))) ->
      operation (invocations w + k) = Resolve v ->
      exists w',
        execute operation w = (Fulfilled v, w') /\
        w' = w ++ retried 1500 k ++ [Invoked] /\
        invocations w' = invocations w + (k + 1) /\
        totalSleep w' =
          (totalSleep w +
           sumZ (map (fun i => 1500 * 2 ^ Z.of_nat i) (seq 0 k)))%Z) /\
  ((forall j, j < 3 -> failsTransiently (operation (invocations w + j))) ->
      exists error w',
        operation (invocations w + 2) = Throw error /\
        execute operation w = (Rejected (Some error), w') /\
        w' = w ++ [Invoked; Slept 1500; Invoked; Slept 3000; Invoked] /\
        invocations w' = invocations w + 3) /\
  (forall (k : nat) (error : Error),
      k < 3 ->
      (forall j, j < k -> failsTransiently (operation (invocations w + j))) ->
      failsPermanently (operation (invocations w + k)) error ->
      exists w',
        execute operation w = (Rejected (Some error), w') /\
        w' = w ++ retried 1500 k ++ [Invoked] /\
        invocations w' = invocations w + (k + 1) /\
        (k = 0 -> w' = w ++ [Invoked])).
Proof.
  unfold execute, defaultRetries, defaultBaseDelay. repeat split.
  - intros k v Hk Hfail Hok. eexists. split; [|split; [reflexivity|]].
    + now apply runWithRetry_succeeds.
    + split; [apply trace_invocations | apply trace_totalSleep].
  - intros Hfail.
    destruct (runWithRetry_exhausted operation 3 1500 w) as (error & Hop & Hrun);
      [lia | exact Hfail |].
    exists error. eexists. split; [exact Hop|]. split; [exact Hrun|].
    split; [reflexivity|]. rewrite invocations_app. simpl. lia.
  - intros k error Hk Hfail Hperm. eexists. split; [|split; [reflexivity|]].
    + now apply runWithRetry_permanent.
    + split; [apply trace_invocations | now intros ->].
Qed.

(** An operation for the three cases: it answers the attempts it is asked
    for from a list and succeeds with 7 afterwards. *)
Lemma C1_execute_retries_with_backoff_witness :
  let busy := Throw (newError "503 Service Unavailable") in
  let denied := Throw (newError "API key not valid") in
  execute (fun n => nth n [busy; busy] (Resolve 7%nat)) [] =
    (Fulfilled 7%nat, [Invoked; Slept 1500; Invoked; Slept 3000; Invoked]) /\
  (exists error w',
      execute (fun n => nth n [busy; busy; busy] (Resolve 7%nat)) [] =
      (Rejected (Some error), w') /\ invocations w' = 3) /\
  execute (fun n => nth n [busy; denied] (Resolve 7%nat)) [] =
    (Rejected (Some (newError "API key not valid")),
     [Invoked; Slept 1500; Invoked]).
Proof.
  intros busy denied. split; [|split].
  - destruct (proj1 (C1_execute_retries_with_backoff
                       (fun n => nth n [busy; busy] (Resolve 7%nat)) [])
                    2 7%nat) as (w' & Hrun & -> & _).
    + lia.
    + intros j Hj. exists (newError "503 Service Unavailable").
      destruct j as [|[|j]]; [split; reflexivity | split; reflexivity | lia].
    + reflexivity.
    + exact Hrun.
  - destruct (proj1 (proj2 (C1_execute_retries_with_backoff
                       (fun n => nth n [busy; busy; busy] (Resolve 7%nat)) [])))
      as (error & w' & _ & Hrun & _ & Hinv).
    + intros j Hj. exists (newError "503 Service Unavailable").
      destruct j as [|[|[|j]]]; try (split; reflexivity). lia.
    + exists error, w'. split; [exact Hrun | exact Hinv].
  - destruct (proj2 (proj2 (C1_execute_retries_with_backoff
                       (fun n => nth n [busy; denied] (Resolve 7%nat)) []))
                    1 (newError "API key not valid")) as (w' & Hrun & -> & _).
    + lia.
    + intros j Hj. exists (newError "503 Service Unavailable").
      destruct j as [|j]; [split; reflexivity | lia].
    + split; reflexivity.
    + exact Hrun.
Defined.

Lemma empty_mentions_nothing : ~ mentionsTransientMarker "".
Proof.
  intros (marker & Hin & before & middle & after & Hsplit & Hlow).
  destruct before; [|discriminate]. destruct middle; [|discriminate].
  destruct Hin as [<-|[<-|[<-|[<-|[<-|[]]]]]]; discriminate.
Qed.

(** C6, the claim as it is stated, at a thrown object without a message:
    the executor takes [{"status":503}] for transient although the message
    of that value mentions none of the markers. *)
Lemma C6_counterexample_no_message :
  let thrown := {| message := None;
                   json := "{" +:+ quote +:+ "status" +:+ quote +:+ ":503}" |} in
  ~ (isTransient thrown = true <-> mentionsTransientMarker (messageText thrown)).
Proof.
  intros thrown [Hto _]. apply empty_mentions_nothing.
  apply (Hto eq_refl).
Qed.

(** C6, amended: the executor classifies an error as transient if and only
    if the text it inspects - the message of the error when that is not
    empty, the JSON serialisation of the error otherwise - contains one of
    "503", "overloaded", "unavailable", "quota", "429" as a substring,
    letter case ignored; for an error with a message that text is the
    message.  Every other failure is classified permanent and comes back
    from the executor at once, without a retry and without a delay. *)
Theorem C6_classification_by_inspected_text (error : Error) :
  (isTransient error = true <->
   mentionsTransientMarker (messageOr error (json error))) /\
  (messageText error <> "" ->
   (isTransient error = true <-> mentionsTransientMarker (messageText error))) /\
  (~ mentionsTransientMarker (messageOr error (json error)) ->
   forall (T : Type) (operation : nat -> Outcome T)
          (retries : nat) (baseDelay : Z) (w : World),
     0 < retries ->
     operation (invocations w) = Throw error ->
     runWithRetry operation retries baseDelay w =
     (Rejected (Some error), w ++ [Invoked])).
Proof.
  split; [apply isTransient_spec | split].
  - intros Hmsg. rewrite isTransient_spec.
    unfold messageText, messageOr in *.
    destruct (message error) as [[|c s]|]; simpl in *;
      first [reflexivity | congruence].
  - intros Hnone T operation retries baseDelay w Hpos Hop.
    rewrite (runWithRetry_permanent operation retries baseDelay 0 error w);
      [reflexivity | exact Hpos | intros j Hj; lia |].
    rewrite Nat.add_0_r. split; [exact Hop|].
    destruct (isTransient error) eqn:Htr; [|reflexivity].
    exfalso. apply Hnone. now apply isTransient_spec.
Qed.

Lemma C6_classification_by_inspected_text_witness :
  let refused := newError "API key not valid" in
  isTransient (newError "Model is OVERLOADED") = true /\
  runWithRetry (fun _ : nat => @Throw nat refused) 3 1500 [] =
    (Rejected (Some refused), [Invoked]).
Proof.
  intros refused. split.
  - apply (proj1 (proj2 (C6_classification_by_inspected_text
                           (newError "Model is OVERLOADED")))).
    + discriminate.
    + exists "overloaded". split; [simpl; tauto|].
      exists "Model is ", "OVERLOADED", "". split; reflexivity.
  - apply (proj2 (proj2 (C6_classification_by_inspected_text refused))).
    + intros Hm. apply isTransient_spec in Hm. discriminate Hm.
    + lia.
    + reflexivity.
Defined.

End ExecutorFacts.

(* ===================================================================== *)
(** * Properties of the audio assembly *)
(* ===================================================================== *)

Section AudioFacts.
Import Audio.

Lemma foldl_lengths (segments : list Bytes) (acc : nat) :
  foldl (fun acc seg => acc + length seg) acc segments =
  acc + sum_list (map length segments).
Proof.
  revert acc. induction segments as [|seg rest IH]; intros acc; simpl.
  - lia.
  - rewrite IH. lia.
Qed.

Lemma length_interleaved (segments : list Bytes) (gap : nat) :
  length (interleaved segments gap) =
  sum_list (map length segments) + (length segments - 1) * gap.
Proof.
  induction segments as [|seg rest IH]; [reflexivity|].
  destruct rest as [|seg' rest].
  - simpl. lia.
  - change (interleaved (seg :: seg' :: rest) gap)
      with (seg ++ replicate gap x00 ++ interleaved (seg' :: rest) gap).
    rewrite !length_app, length_replicate, IH. simpl. lia.
Qed.

(** Writing a segment at the end of the part written so far consumes
    zeros of the fresh buffer. *)
Lemma set_at_end (written seg : Bytes) (zeros : nat) :
  length seg <= zeros ->
  set (written ++ replicate zeros x00) seg (length written) =
  Some (written ++ seg ++ replicate (zeros - length seg) x00).
Proof.
  intros Hfit. unfold set.
  rewrite decide_True by (rewrite length_app, length_replicate; lia).
  f_equal. rewrite take_app_length. f_equal. f_equal.
  rewrite drop_app_add'  by reflexivity.
  now rewrite drop_replicate.
Qed.

Lemma copySegments_cons (seg : Bytes) (rest : list Bytes)
    (i count gap : nat) (result : Bytes) (offset : nat) :
  copySegments (seg :: rest) i count gap result offset =
  set result seg offset ≫= fun result' =>
    copySegments rest (S i) count gap result'
      (if i <? count - 1 then offset + length seg + gap
       else offset + length seg).
Proof. reflexivity. Qed.

(** The loop invariant: what is written so far, followed by exactly the
    zeros the remaining segments and gaps will occupy. *)
Lemma copySegments_interleaved (count gap : nat) (rest : list Bytes) :
  forall (i : nat) (written : Bytes),
    i + length rest = count ->
    fst <$> copySegments rest i count gap
              (written ++ replicate (length (interleaved rest gap)) x00)
              (length written)
    = Some (written ++ interleaved rest gap).
Proof.
  induction rest as [|seg rest IH]; intros i written Hcount.
  - simpl. now rewrite app_nil_r.
  - destruct rest as [|seg' rest].
    + simpl in *. rewrite set_at_end by lia. simpl.
      now rewrite Nat.sub_diag, app_nil_r.
    + change (interleaved (seg :: seg' :: rest) gap)
        with (seg ++ replicate gap x00 ++ interleaved (seg' :: rest) gap).
      set (tail := interleaved (seg' :: rest) gap) in *.
      rewrite copySegments_cons, set_at_end by (rewrite length_app; lia).
      cbn [mbind option_bind].
      replace (i <? count - 1) with true
        by (symmetry; apply Nat.ltb_lt; simpl in Hcount; lia).
      rewrite !length_app, length_replicate.
      replace (length seg + (gap + length tail) - length seg)
        with (gap + length tail) by lia.
      rewrite replicate_add.
      specialize (IH (S i) (written ++ seg ++ replicate gap x00)).
      rewrite !length_app, length_replicate, <- !app_assoc in IH.
      replace (length written + length seg + gap)
        with (length written + (length seg + gap)) by lia.
      rewrite IH by (simpl in *; lia). reflexivity.
Qed.

(** The imperative assembly computes the layout of the design document,
    for every list of segments: it never fails. *)
Lemma concatenateRawAudio_interleaved
    (segments : list Bytes) (silenceDurationSec sampleRate : nat) :
  concatenateRawAudio segments silenceDurationSec sampleRate =
  Some (interleaved segments (silenceDurationSec * sampleRate * 2)).
Proof.
  unfold concatenateRawAudio, newUint8Array.
  rewrite foldl_lengths, Nat.max_0_l. simpl "+".
  rewrite <- length_interleaved.
  exact (copySegments_interleaved (length segments) _ segments 0 []
           (Nat.add_0_l _)).
Qed.

Lemma interleaved_cons (seg : Bytes) (rest : list Bytes) (gap : nat) :
  rest <> [] ->
  interleaved (seg :: rest) gap =
  seg ++ replicate gap x00 ++ interleaved rest gap.
Proof. destruct rest; [congruence | reflexivity]. Qed.

Lemma segmentOffset_S (seg : Bytes) (rest : list Bytes) (gap i : nat) :
  segmentOffset (seg :: rest) gap (S i) =
  length seg + gap + segmentOffset rest gap i.
Proof. unfold segmentOffset. simpl. lia. Qed.

Lemma drop_past_head (seg : Bytes) (gap n : nat) (tail : Bytes) :
  drop (length seg + gap + n) (seg ++ replicate gap x00 ++ tail) = drop n tail.
Proof.
  rewrite <- Nat.add_assoc, drop_app_add' by reflexivity.
  rewrite drop_app_add'; [reflexivity | now rewrite length_replicate].
Qed.

Lemma interleaved_segment (segments : list Bytes) (gap i : nat) (seg : Bytes) :
  segments !! i = Some seg ->
  take (length seg) (drop (segmentOffset segments gap i)
                          (interleaved segments gap)) = seg.
Proof.
  revert i. induction segments as [|seg0 rest IH]; intros i Hi; [discriminate|].
  destruct i as [|i].
  - injection Hi as ->.
    replace (segmentOffset (seg :: rest) gap 0) with 0 by reflexivity.
    rewrite drop_0. destruct rest as [|seg' rest].
    + apply firstn_all.
    + rewrite interleaved_cons by discriminate. apply take_app_length.
  - simpl in Hi. rewrite segmentOffset_S, interleaved_cons
      by (intros ->; discriminate).
    rewrite drop_past_head. now apply IH.
Qed.

Lemma interleaved_gap (segments : list Bytes) (gap i : nat) (seg : Bytes) :
  segments !! i = Some seg -> S i < length segments ->
  take gap (drop (segmentOffset segments gap i + length seg)
                 (interleaved segments gap)) = replicate gap x00.
Proof.
  revert i. induction segments as [|seg0 rest IH]; intros i Hi Hlt; [discriminate|].
  destruct i as [|i].
  - injection Hi as ->.
    replace (segmentOffset (seg :: rest) gap 0 + length seg)
      with (length seg) by reflexivity.
    rewrite interleaved_cons by (destruct rest; simpl in *; [lia|congruence]).
    rewrite drop_app_length.
    rewrite take_app_length'; [reflexivity | now rewrite length_replicate].
  - simpl in Hi, Hlt. rewrite segmentOffset_S, interleaved_cons
      by (intros ->; discriminate).
    rewrite <- Nat.add_assoc, drop_past_head. apply IH; [exact Hi | lia].
Qed.

(** The [Int16Array] view exists exactly over an even number of bytes. *)
Lemma int16View_parity (data : Bytes) :
  (Nat.even (length data) = true ->
   exists view, int16View data = Some view /\ length data = 2 * length view) /\
  (Nat.even (length data) = false -> int16View data = None).
Proof.
  assert (H : forall n (data : Bytes), length data < n ->
    (Nat.even (length data) = true ->
     exists view, int16View data = Some view /\
                  length data = 2 * length view) /\
    (Nat.even (length data) = false -> int16View data = None)).
  { induction n as [|n IH]; intros d Hn; [lia|].
    destruct d as [|lo [|hi d]].
    - split; [exists []; auto | discriminate].
    - split; [discriminate | reflexivity].
    - destruct (IH d) as [Heven Hodd]; [simpl in Hn; lia|].
      change (Nat.even (length (lo :: hi :: d))) with (Nat.even (length d)).
      split; intros Hp.
      + destruct (Heven Hp) as (view & Hv & Hlen).
        exists (int16 lo hi :: view). simpl. rewrite Hv. split; [reflexivity|].
        simpl in *. lia.
      + simpl. now rewrite (Hodd Hp). }
  exact (H (S (length data)) data (Nat.lt_succ_diag_r _)).
Qed.

Lemma channelData_mono (dataInt16 : list Z) :
  channelData dataInt16 1 (length dataInt16) 0 = map normalize dataInt16.
Proof.
  unfold channelData.
  apply nth_ext with (d := normalize 0) (d' := normalize 0).
  - now rewrite !length_map, length_seq.
  - intros i Hi. rewrite length_map, length_seq in Hi.
    rewrite (map_nth normalize).
    rewrite nth_indep with (d' := (fun i => normalize (nth (i * 1 + 0) dataInt16 0%Z)) 0)
      by now rewrite length_map, length_seq.
    rewrite (map_nth (fun i => normalize (nth (i * 1 + 0) dataInt16 0%Z))).
    rewrite seq_nth by exact Hi. simpl.
    now rewrite Nat.mul_1_r, Nat.add_0_r.
Qed.

(** Decoding one channel: it succeeds exactly on a non-empty buffer of
    even length, at a rate the implementation supports, and then divides
    every 16-bit sample by 32768. *)
Lemma decodeAudioData_mono (data : Uint8Array) (ctx : AudioContext)
    (sampleRate : nat) :
  decodeAudioData data ctx sampleRate 1 =
  match int16View (arrayBuffer data) with
  | None => inl RangeError
  | Some [] => inl NotSupportedError
  | Some view =>
      if supports ctx 1 sampleRate
      then inr {| bufferSampleRate := sampleRate;
                  channels := [map normalize view] |}
      else inl NotSupportedError
  end.
Proof.
  unfold decodeAudioData, newInt16Array.
  destruct (int16View (arrayBuffer data)) as [view|]; [|reflexivity].
  rewrite Nat.div_1_r. destruct view as [|x view]; [reflexivity|].
  cbn [Nat.eqb orb length map seq].
  destruct (supports ctx 1 sampleRate); [|reflexivity].
  cbn [negb]. now rewrite channelData_mono.
Qed.

Lemma decodeAudioData_returns (data : Uint8Array) (ctx : AudioContext)
    (sampleRate : nat) :
  (exists buffer, decodeAudioData data ctx sampleRate 1 = inr buffer) <->
  Nat.even (length (arrayBuffer data)) = true /\
  0 < length (arrayBuffer data) /\ supports ctx 1 sampleRate = true.
Proof.
  rewrite decodeAudioData_mono.
  destruct (int16View_parity (arrayBuffer data)) as [Heven Hodd].
  destruct (Nat.even (length (arrayBuffer data))) eqn:Hp.
  - destruct (Heven eq_refl) as (view & -> & Hlen).
    destruct view as [|x view]; simpl in Hlen.
    + split; [intros [b H]; discriminate | lia].
    + destruct (supports ctx 1 sampleRate).
      * split; [split; [reflexivity | split; [lia | reflexivity]]
               | intros _; eauto].
      * split; [intros [b H]; discriminate | intros (_ & _ & H); discriminate].
  - rewrite (Hodd eq_refl). split; [intros [b H]|intros [H _]]; discriminate.
Qed.

Lemma assemble_decodes (segments : list Bytes) (ctx : AudioContext)
    (silenceDurationSec sampleRate : nat) :
  assemble segments ctx silenceDurationSec sampleRate =
  decodeAudioData
    (ownBuffer (interleaved segments (silenceDurationSec * sampleRate * 2)))
    ctx sampleRate 1.
Proof. unfold assemble. now rewrite concatenateRawAudio_interleaved. Qed.

Lemma even_total (segments : list Bytes) (k : nat) :
  Nat.even (length (interleaved segments (k * 2))) =
  Nat.even (sum_list (map length segments)).
Proof.
  rewrite length_interleaved, Nat.even_add, Nat.mul_assoc.
  rewrite (Nat.mul_comm _ 2), Nat.even_even.
  now destruct (Nat.even (sum_list (map length segments))).
Qed.

(** When the assembly returns a buffer. *)
Lemma assemble_returns (segments : list Bytes) (ctx : AudioContext)
    (silenceDurationSec sampleRate : nat) :
  (exists buffer,
      assemble segments ctx silenceDurationSec sampleRate = inr buffer) <->
  Nat.even (sum_list (map length segments)) = true /\
  0 < sum_list (map length segments) +
      (length segments - 1) * (silenceDurationSec * sampleRate * 2) /\
  supports ctx 1 sampleRate = true.
Proof.
  rewrite assemble_decodes, decodeAudioData_returns. cbn [ownBuffer arrayBuffer].
  now rewrite even_total, length_interleaved.
Qed.

(** The rate of the listening stage and one channel are supported by every
    implementation that keeps to the Web Audio API. *)
Lemma default_rate_supported (ctx : AudioContext) :
  conforming ctx -> supports ctx 1 defaultSampleRate = true.
Proof.
  intros [Hchannels Hrates]. unfold supports.
  rewrite Hchannels by lia.
  rewrite Hrates by (split; apply Nat.leb_le; vm_compute; reflexivity).
  replace (defaultSampleRate =? 0) with false
    by (symmetry; vm_compute; reflexivity).
  reflexivity.
Qed.

Lemma in_upFrom (count : nat) :
  forall first z : Z,
    (first <= z < first + Z.of_nat count)%Z -> In z (upFrom first count).
Proof.
  induction count as [|count IH]; intros first z Hz; [lia|].
  simpl. destruct (Z.eq_dec first z) as [->|Hne]; [now left|].
  right. apply IH. lia.
Qed.

(** Checked on each of the 65536 samples. *)
Lemma exactOn_all : forallb exactOn int16Values = true.
Proof. vm_compute. reflexivity. Qed.

Lemma normalize_is_machine_quotient (sample : Z) :
  (-32768 <= sample <= 32767)%Z ->
  exists q, Js.rationalOf (normalizeBinary64 sample) = Some q /\
            (q == normalize sample)%Q /\
            fitsFloat32 (normalizeBinary64 sample) = true.
Proof.
  intros Hrange.
  pose proof (proj1 (forallb_forall exactOn int16Values) exactOn_all sample)
    as Hexact.
  unfold exactOn in Hexact.
  destruct (Js.rationalOf (normalizeBinary64 sample)) as [q|].
  - exists q. split; [reflexivity|].
    apply andb_true_iff in Hexact as [Heq Hfit]; [|apply in_upFrom].
    + split; [now apply Qeq_bool_iff | exact Hfit].
    + rewrite Z2Nat.id by lia. lia.
  - discriminate Hexact. apply in_upFrom. rewrite Z2Nat.id by lia. lia.
Qed.

Lemma int16_range (lo hi : byte) : (-32768 <= int16 lo hi <= 32767)%Z.
Proof.
  unfold int16.
  pose proof (Byte.to_N_bounded lo) as Hlo.
  pose proof (Byte.to_N_bounded hi) as Hhi.
  destruct (_ <? 32768)%Z eqn:Hlt; [apply Z.ltb_lt in Hlt | apply Z.ltb_ge in Hlt];
    lia.
Qed.

Lemma int16View_lookup (data : Bytes) (view : list Z) (i : nat) (lo hi : byte) :
  int16View data = Some view ->
  data !! (2 * i) = Some lo -> data !! (2 * i + 1) = Some hi ->
  view !! i = Some (int16 lo hi).
Proof.
  revert data view. induction i as [|i IH]; intros data view Hview Hlo Hhi.
  - destruct data as [|lo' [|hi' data]]; simpl in *; try discriminate.
    injection Hlo as ->. injection Hhi as ->.
    destruct (int16View data); simpl in Hview; [|discriminate].
    now injection Hview as <-.
  - destruct data as [|lo' [|hi' data]]; try discriminate.
    replace (2 * S i) with (S (S (2 * i))) in * by lia.
    simpl in Hlo, Hhi, Hview.
    destruct (int16View data) as [view'|] eqn:Hv; simpl in Hview; [|discriminate].
    injection Hview as <-. simpl. now apply (IH data).
Qed.

Lemma assemble_fails (segments : list Bytes) (ctx : AudioContext)
    (silenceDurationSec sampleRate : nat) :
  let total := sum_list (map length segments) +
               (length segments - 1) * (silenceDurationSec * sampleRate * 2) in
  (Nat.even (sum_list (map length segments)) = false ->
   assemble segments ctx silenceDurationSec sampleRate = inl RangeError) /\
  (total = 0 ->
   assemble segments ctx silenceDurationSec sampleRate =
   inl NotSupportedError) /\
  (Nat.even (sum_list (map length segments)) = true ->
   supports ctx 1 sampleRate = false ->
   assemble segments ctx silenceDurationSec sampleRate =
   inl NotSupportedError).
Proof.
  intros total. rewrite assemble_decodes, decodeAudioData_mono.
  cbn [ownBuffer arrayBuffer].
  destruct (int16View_parity
              (interleaved segments (silenceDurationSec * sampleRate * 2)))
    as [Heven Hodd].
  rewrite even_total in Heven, Hodd. split; [|split].
  - intros Hp. now rewrite (Hodd Hp).
  - intros Hzero. subst total. rewrite <- length_interleaved in Hzero.
    apply nil_length_inv in Hzero. now rewrite Hzero.
  - intros Hp Hno. destruct (Heven Hp) as (view & -> & _).
    rewrite Hno. now destruct view.
Qed.

(** C3: for a non-empty list of [n] segments, a silence of [s] seconds and
    a sample rate [r], the assembly returns a buffer of length
    [sum l_i + (n - 1) * (s * r * 2)], which is [l_1] for a single segment;
    the bytes of segment [i] stand unchanged at offset
    [l_1 + ... + l_(i-1) + (i - 1) * (s * r * 2)] (counting segments from
    one; [i] below counts from zero), and every byte of every gap between
    two segments is zero. *)
Theorem C3_segments_and_silence_layout
    (segments : list Bytes) (s r : nat) :
  segments <> [] ->
  exists result,
    concatenateRawAudio segments s r = Some result /\
    length result =
      sum_list (map length segments) + (length segments - 1) * (s * r * 2) /\
    (length segments = 1 -> length result = sum_list (map length segments)) /\
    (forall i seg,
        segments !! i = Some seg ->
        take (length seg)
             (drop (sum_list (map length (take i segments)) + i * (s * r * 2))
                   result) = seg) /\
    (forall i seg j,
        segments !! i = Some seg -> S i < length segments -> j < s * r * 2 ->
        result !! (sum_list (map length (take i segments)) + i * (s * r * 2)
                   + length seg + j) = Some x00).
Proof.
  intros _. exists (interleaved segments (s * r * 2)).
  split; [apply concatenateRawAudio_interleaved|].
  split; [apply length_interleaved|]. split; [|split].
  - intros Hone. rewrite length_interleaved, Hone. simpl. lia.
  - intros i seg Hi. now apply interleaved_segment.
  - intros i seg j Hi Hlast Hj.
    pose proof (interleaved_gap segments (s * r * 2) i seg Hi Hlast) as Hgap.
    unfold segmentOffset in Hgap.
    rewrite <- (lookup_drop _ _ j), <- (lookup_take_lt _ (s * r * 2)) by exact Hj.
    rewrite Hgap. now apply lookup_replicate_2.
Qed.

Lemma C3_segments_and_silence_layout_witness :
  exists result,
    concatenateRawAudio [[x01; x02]; [x03]; [x04; x05]] 1 1 = Some result /\
    length result = 9 /\
    take 1 (drop 4 result) = [x03] /\
    result !! 5 = Some x00.
Proof.
  destruct (C3_segments_and_silence_layout [[x01; x02]; [x03]; [x04; x05]] 1 1)
    as (result & Hrun & Hlen & _ & Hseg & Hgap); [discriminate|].
  exists result. split; [exact Hrun|]. split; [exact Hlen|]. split.
  - exact (Hseg 1 [x03] eq_refl).
  - apply (Hgap 1 [x03] 0 eq_refl); simpl; lia.
Defined.

(** C4, the claim as it is stated, at two segments of one byte each, with
    the silence and the rate the listening stage uses, in a browser that
    supports what the Web Audio API obliges it to: both segments are
    malformed, and the assembly returns a buffer. *)
Lemma C4_counterexample_two_odd_segments :
  let segments := [[x01]; [x02]] in
  ~ (existsb malformed segments = true ->
     exists e, assemble segments (Stages.webAudio Samples.browser) 2
                 defaultSampleRate = inl e).
Proof.
  intros segments Hclaim. destruct (Hclaim eq_refl) as [e He].
  assert (Hok : exists buffer,
             assemble segments (Stages.webAudio Samples.browser) 2
               defaultSampleRate = inr buffer).
  { apply assemble_returns. split; [reflexivity|]. split.
    - apply Nat.add_pos_l. repeat constructor.
    - vm_compute. reflexivity. }
  destruct Hok as [buffer Hok]. congruence.
Qed.

(** C4, amended: no segment is inspected on its own.  The concatenation
    returns a buffer for every list of segments, the empty one included;
    the assembly as a whole fails, and then returns no buffer, exactly when
    the byte lengths of the segments add up to an odd number (the 16-bit
    view of the bytes is refused), or the assembled buffer has no bytes at
    all, as it is for an empty list (a buffer without frames is refused),
    or the implementation does not support one channel at the sample rate.
    At the rate the listening stage asks for, in a browser that supports
    what the Web Audio API obliges it to, the third case does not arise.
    The failure is the exception of the browser, no error of its own. *)
Theorem C4_assembly_fails_on_odd_or_empty_total
    (segments : list Bytes) (ctx : AudioContext) (s r : nat) :
  let total := sum_list (map length segments) +
               (length segments - 1) * (s * r * 2) in
  (exists combined, concatenateRawAudio segments s r = Some combined /\
                    length combined = total) /\
  ((exists e, assemble segments ctx s r = inl e) <->
   Nat.odd (sum_list (map length segments)) = true \/ total = 0 \/
   supports ctx 1 r = false) /\
  (Nat.odd (sum_list (map length segments)) = true ->
   assemble segments ctx s r = inl RangeError) /\
  (total = 0 -> assemble segments ctx s r = inl NotSupportedError) /\
  (segments = [] -> assemble segments ctx s r = inl NotSupportedError) /\
  (Nat.odd (sum_list (map length segments)) = false ->
   supports ctx 1 r = false ->
   assemble segments ctx s r = inl NotSupportedError) /\
  ((exists e, assemble segments ctx s r = inl e) ->
   forall buffer, assemble segments ctx s r <> inr buffer) /\
  (conforming ctx -> r = defaultSampleRate ->
   ((exists e, assemble segments ctx s r = inl e) <->
    Nat.odd (sum_list (map length segments)) = true \/ total = 0)).
Proof.
  intros total.
  destruct (assemble_fails segments ctx s r) as (Hodd & Hzero & Hrate).
  fold total in Hzero.
  assert (Hparity : Nat.odd (sum_list (map length segments)) = true ->
                    Nat.even (sum_list (map length segments)) = false).
  { unfold Nat.odd. now destruct (Nat.even _). }
  assert (Hparity' : Nat.odd (sum_list (map length segments)) = false ->
                     Nat.even (sum_list (map length segments)) = true).
  { unfold Nat.odd. now destruct (Nat.even _). }
  assert (Hfails : (exists e, assemble segments ctx s r = inl e) <->
                   Nat.odd (sum_list (map length segments)) = true \/
                   total = 0 \/ supports ctx 1 r = false).
  { split.
    - intros [e He].
      destruct (Nat.odd (sum_list (map length segments))) eqn:Hp; [now left|].
      right. destruct (Nat.eq_dec total 0) as [Hz|Hnz]; [now left|].
      right. destruct (supports ctx 1 r) eqn:Hs; [|reflexivity].
      exfalso.
      assert (Hok : exists buffer, assemble segments ctx s r = inr buffer).
      { apply assemble_returns. fold total. split; [auto|]. split; [lia|auto]. }
      destruct Hok as [buffer Hok]. congruence.
    - intros [Hp|[Hz|Hs]];
        [exists RangeError; auto | exists NotSupportedError; auto |].
      destruct (Nat.odd (sum_list (map length segments))) eqn:Hp;
        [exists RangeError; auto | exists NotSupportedError; auto]. }
  split.
  { exists (interleaved segments (s * r * 2)).
    split; [apply concatenateRawAudio_interleaved | apply length_interleaved]. }
  split; [exact Hfails|].
  split; [auto|].
  split; [exact Hzero|].
  split; [intros ->; now apply Hzero|].
  split; [auto|].
  split; [intros [e He] buffer; congruence|].
  intros Hconforming ->. rewrite Hfails.
  rewrite (default_rate_supported ctx Hconforming).
  split; [|tauto]. intros [Hp|[Hz|Hs]]; [now left | now right | discriminate].
Qed.

Lemma C4_assembly_fails_on_odd_or_empty_total_witness :
  assemble [[x01; x02; x03]] (Stages.webAudio Samples.browser) 2
    defaultSampleRate = inl RangeError /\
  assemble [] (Stages.webAudio Samples.browser) 2 defaultSampleRate =
    inl NotSupportedError.
Proof.
  split.
  - apply (proj1 (proj2 (proj2
             (C4_assembly_fails_on_odd_or_empty_total [[x01; x02; x03]]
                (Stages.webAudio Samples.browser) 2 defaultSampleRate)))).
    reflexivity.
  - apply (proj1 (proj2 (proj2 (proj2 (proj2
             (C4_assembly_fails_on_odd_or_empty_total []
                (Stages.webAudio Samples.browser) 2 defaultSampleRate)))))).
    reflexivity.
Defined.

(** C8: decoding divides every 16-bit signed little-endian sample of the
    bytes of the buffer by 32768, at every sample rate the implementation
    supports (at another one no buffer is made), the default rate among
    them in a browser that keeps to the Web Audio API; the sample -32768
    (bytes 00 80) becomes exactly -1, the sample 0 exactly 0, and the
    sample 32767 (bytes FF 7F) a value strictly between 0.999 and 1.  The
    quotient is exact in the arithmetic of the machine as well: for each
    sample the binary64 division yields that rational, and it is stored
    unrounded. *)
Theorem C8_samples_divided_by_32768
    (data : Uint8Array) (ctx : AudioContext) (sampleRate i : nat)
    (lo hi : byte) :
  Nat.even (length (arrayBuffer data)) = true ->
  arrayBuffer data !! (2 * i) = Some lo ->
  arrayBuffer data !! (2 * i + 1) = Some hi ->
  (exists samples,
      decodeAudioData data ctx sampleRate 1 =
        (if supports ctx 1 sampleRate
         then inr {| bufferSampleRate := sampleRate; channels := [samples] |}
         else inl NotSupportedError) /\
      samples !! i = Some (inject_Z (int16 lo hi) / 32768)%Q) /\
  (conforming ctx -> supports ctx 1 defaultSampleRate = true) /\
  (exists q,
      Js.rationalOf (normalizeBinary64 (int16 lo hi)) = Some q /\
      (q == inject_Z (int16 lo hi) / 32768)%Q /\
      fitsFloat32 (normalizeBinary64 (int16 lo hi)) = true) /\
  (int16 x00 x80 = (-32768)%Z /\ (normalize (-32768) == -1)%Q) /\
  (int16 x00 x00 = 0%Z /\ (normalize 0 == 0)%Q) /\
  (int16 xff x7f = 32767%Z /\
   (normalize 32767 < 1)%Q /\ (999 # 1000 < normalize 32767)%Q).
Proof.
  intros Heven Hlo Hhi.
  split; [|split; [apply default_rate_supported|split; [|now repeat split]]].
  - destruct (proj1 (int16View_parity (arrayBuffer data)) Heven)
      as (view & Hview & Hlen).
    pose proof (int16View_lookup (arrayBuffer data) view i lo hi Hview Hlo Hhi)
      as Hi.
    exists (map normalize view). rewrite decodeAudioData_mono, Hview. split.
    + destruct view; [discriminate | reflexivity].
    + now rewrite list_lookup_fmap, Hi.
  - apply normalize_is_machine_quotient, int16_range.
Qed.

Lemma C8_samples_divided_by_32768_witness :
  exists samples,
    decodeAudioData (ownBuffer [x00; x80; xff; x7f])
      (Stages.webAudio Samples.browser) defaultSampleRate 1 =
      inr {| bufferSampleRate := defaultSampleRate; channels := [samples] |} /\
    samples !! 1 = Some (inject_Z 32767 / 32768)%Q.
Proof.
  destruct (proj1 (C8_samples_divided_by_32768
                     (ownBuffer [x00; x80; xff; x7f])
                     (Stages.webAudio Samples.browser) defaultSampleRate 1
                     xff x7f eq_refl eq_refl eq_refl))
    as (samples & Hdecoded & Hsample).
  exists samples. split; [|exact Hsample].
  rewrite Hdecoded.
  replace (supports (Stages.webAudio Samples.browser) 1 defaultSampleRate)
    with true by (symmetry; vm_compute; reflexivity).
  reflexivity.
Defined.

End AudioFacts.

(* ===================================================================== *)
(** * Properties of the listening fetch *)
(* ===================================================================== *)

Section FetchFacts.
Import Js Executor Types Fetchers Stages.

(** [Promise.all] is rejected as soon as one of its promises is, with the
    reason of one of them. *)
Lemma firstRejection_exists {T} (promises : list (nat * Settled T)) :
  Exists (fun call => isRejected call.2 = true) promises ->
  exists at_ reason,
    firstRejection promises = Some (at_, reason) /\
    In (at_, Rejected reason) promises.
Proof.
  induction promises as [|[t [v|reason]] rest IH]; intros Hex.
  - inversion Hex.
  - inversion Hex as [? ? Hhd|? ? Htl]; subst; [discriminate Hhd|].
    destruct (IH Htl) as (at_ & reason & Hfirst & Hin).
    exists at_, reason. simpl. auto.
  - simpl. destruct (firstRejection rest) as [[at' reason']|] eqn:Hrest.
    + destruct (at' <? t).
      * assert (Hex' : Exists (fun call => isRejected call.2 = true) rest).
        { clear -Hrest. induction rest as [|[t' [v|r]] rest IH]; [discriminate| |].
          - right. now apply IH.
          - left. reflexivity. }
        destruct (IH Hex') as (a & r & Hfirst & Hin).
        exists at', reason'. split; [reflexivity|]. right. congruence.
      * exists t, reason. auto.
    + exists t, reason. auto.
Qed.

Lemma promiseAll_rejects {T} (promises : list (nat * Settled T)) :
  Exists (fun call => isRejected call.2 = true) promises ->
  exists at_ reason,
    promiseAll promises = Rejected reason /\ In (at_, Rejected reason) promises.
Proof.
  intros Hex. destruct (firstRejection_exists promises Hex) as (a & r & Hf & Hin).
  exists a, r. unfold promiseAll. now rewrite Hf.
Qed.

(** When all are fulfilled, the values come in the order of the list,
    whatever the order in time. *)
Lemma promiseAll_fulfils {T} (settled : list (nat * T)) :
  promiseAll (map (fun '(t, v) => (t, Fulfilled v)) settled) =
  Fulfilled (map snd settled).
Proof.
  unfold promiseAll.
  assert (H : firstRejection (map (fun '(t, v) => (t, @Fulfilled T v)) settled) = None
              /\ fulfilledValues (map (fun '(t, v) => (t, @Fulfilled T v)) settled)
                 = map snd settled).
  { induction settled as [|[t v] rest [IH1 IH2]]; [now split|].
    simpl. split; [exact IH1 | now rewrite IH2]. }
  destruct H as [-> ->]. reflexivity.
Qed.

(** A call through the executor is never rejected with [undefined]. *)
Lemma execute_reason {T} (operation : nat -> Outcome T) (reason : option Error) :
  fst (execute operation fresh) = Rejected reason ->
  exists e, reason = Some e.
Proof.
  unfold execute. destruct (runWithRetry _ _ _ _) as [r w'] eqn:Hrun.
  simpl. intros ->.
  apply (runWithRetry_reason operation defaultRetries defaultBaseDelay
           fresh reason w'); [unfold defaultRetries; lia | exact Hrun].
Qed.

Lemma synthesis_reason (p : Provider) (testContent : ListeningTestContent)
    (at_ : nat) (reason : option Error) :
  In (at_, Rejected reason) (synthesisCalls p testContent) ->
  exists e, reason = Some e.
Proof.
  unfold synthesisCalls. rewrite <- list_elem_of_In.
  intros Hin. apply elem_of_lookup_imap in Hin as (index & part & Heq & _).
  injection Heq as _ Hcall. symmetry in Hcall.
  now apply execute_reason in Hcall.
Qed.

(** The listening stage on a rejected synthesis: the error view, and no
    buffer. *)
Lemma runInitTest_synthesis_rejected (pf : Platform) (p : Provider)
    (testContent : ListeningTestContent) (e : Error) :
  generateListeningTestScript p = Fulfilled testContent ->
  promiseAll (synthesisCalls p testContent) = Rejected (Some e) ->
  ListeningModule.runInitTest pf p None ListeningModule.init =
  ({| ListeningModule.content := None;
      ListeningModule.loadingStep := ListeningModule.error;
      ListeningModule.errorMsg :=
        Some (messageOr e "Failed to load listening test.");
      ListeningModule.audioContext := false;
      ListeningModule.audioBuffer := None;
      ListeningModule.awaiting := ListeningModule.Idle |},
   [{| label := ""; logged := Some e |}]).
Proof.
  intros Hscript Hall. unfold ListeningModule.runInitTest. simpl.
  rewrite Hscript. simpl. rewrite Hall. reflexivity.
Qed.

(** The stage hands the decoded parts to the assembly: a buffer makes it
    ready, a refusal of the browser puts it into its error view. *)
Lemma process_assembles (pf : Platform) (testContent : ListeningTestContent)
    (audioBase64Results : list string) (segments : list Audio.Bytes)
    (st : ListeningModule.State) :
  mapM (ListeningModule.decode pf) audioBase64Results = Some segments ->
  match Audio.assemble segments (webAudio pf) 2 Audio.defaultSampleRate with
  | inr buffer =>
      ListeningModule.process pf testContent audioBase64Results st =
      ({| ListeningModule.content := Some testContent;
          ListeningModule.loadingStep := ListeningModule.ready;
          ListeningModule.errorMsg := ListeningModule.errorMsg st;
          ListeningModule.audioContext := true;
          ListeningModule.audioBuffer := Some buffer;
          ListeningModule.awaiting := ListeningModule.Idle |}, [])
  | inl exn =>
      ListeningModule.loadingStep
        (ListeningModule.process pf testContent audioBase64Results st).1
        = ListeningModule.error /\
      ListeningModule.audioBuffer
        (ListeningModule.process pf testContent audioBase64Results st).1
        = ListeningModule.audioBuffer st
  end.
Proof.
  intros Hdecoded. unfold ListeningModule.process, Audio.assemble.
  rewrite Hdecoded.
  destruct (Audio.concatenateRawAudio segments 2 Audio.defaultSampleRate)
    as [combined|]; [|now split].
  destruct (Audio.decodeAudioData (Audio.ownBuffer combined) (webAudio pf)
              Audio.defaultSampleRate 1) as [exn|buffer] eqn:Hdecode.
  - destruct (negb _ && negb _); [now split|]. now split.
  - assert (Hsupported :
              Audio.supports (webAudio pf) 1 Audio.defaultSampleRate = true).
    { apply (decodeAudioData_returns (Audio.ownBuffer combined)). eauto. }
    rewrite Hsupported, andb_false_r. reflexivity.
Qed.

End FetchFacts.

(* ===================================================================== *)
(** * Properties of the arithmetic *)
(* ===================================================================== *)

Section Binary64Facts.
Import Binary64.
Local Open Scope Q_scope.

Lemma roundHalfEven_floor (x : Q) :
  roundHalfEven x = Qfloor x \/
  (roundHalfEven x = (Qfloor x + 1)%Z /\ 1 # 2 <= x - inject_Z (Qfloor x)).
Proof.
  unfold roundHalfEven.
  destruct (Qcompare (x - inject_Z (Qfloor x)) (1 # 2)) eqn:Hc.
  - apply Qeq_alt in Hc. destruct (Z.even (Qfloor x)); [now left|].
    right. split; [reflexivity|]. rewrite Hc. apply Qle_refl.
  - now left.
  - apply Qgt_alt in Hc. right. split; [reflexivity|]. now apply Qlt_le_weak.
Qed.

Lemma roundHalfEven_error (x : Q) :
  Qabs (inject_Z (roundHalfEven x) - x) <= 1 # 2.
Proof.
  pose proof (Qfloor_le x) as Hlo. pose proof (Qlt_floor x) as Hhi.
  rewrite inject_Z_plus in Hhi. change (inject_Z 1) with 1 in Hhi.
  unfold roundHalfEven.
  destruct (Qcompare (x - inject_Z (Qfloor x)) (1 # 2)) eqn:Hc.
  - apply Qeq_alt in Hc.
    destruct (Z.even (Qfloor x)); apply Qabs_Qle_condition;
      rewrite ?inject_Z_plus; change (inject_Z 1) with 1; split; lra.
  - apply Qlt_alt in Hc. apply Qabs_Qle_condition. split; lra.
  - apply Qgt_alt in Hc. apply Qabs_Qle_condition.
    rewrite inject_Z_plus. change (inject_Z 1) with 1. split; lra.
Qed.

Lemma roundHalfEven_ge (x : Q) (z : Z) :
  inject_Z z <= x -> (z <= roundHalfEven x)%Z.
Proof.
  intros H. apply Qfloor_resp_le in H. rewrite Qfloor_Z in H.
  destruct (roundHalfEven_floor x) as [-> | [-> _]]; lia.
Qed.

Lemma roundHalfEven_le (x : Q) (z : Z) :
  x <= inject_Z z -> (roundHalfEven x <= z)%Z.
Proof.
  intros H. pose proof (Qfloor_le x) as Hlo.
  assert (Hf : (Qfloor x <= z)%Z).
  { apply Qfloor_resp_le in H. now rewrite Qfloor_Z in H. }
  destruct (roundHalfEven_floor x) as [-> | [-> Hhalf]]; [exact Hf|].
  destruct (Z.eq_dec (Qfloor x) z) as [Heq|Hne]; [|lia].
  exfalso. rewrite Heq in Hhalf. lra.
Qed.

Lemma pow2_pos (e : Z) : 0 < 2 ^ e.
Proof. now apply Qpower_0_lt. Qed.

Lemma pow2_add (a b : Z) : 2 ^ (a + b) == 2 ^ a * 2 ^ b.
Proof. now apply Qpower_plus. Qed.

Lemma pow2_le (a b : Z) : (a <= b)%Z -> 2 ^ a <= 2 ^ b.
Proof. intros H. apply Qpower_le_compat_l; [exact H|]. discriminate. Qed.

Lemma pow2_lt_inv (a b : Z) : 2 ^ a < 2 ^ b -> (a < b)%Z.
Proof.
  intros H. destruct (Z.lt_ge_cases a b) as [Hlt|Hge]; [exact Hlt|].
  exfalso. apply pow2_le in Hge. apply (Qlt_irrefl (2 ^ a)).
  eapply Qlt_le_trans; eauto.
Qed.

Lemma pow2_Z (n : Z) : (0 <= n)%Z -> 2 ^ n == inject_Z (2 ^ n).
Proof. intros H. symmetry. now apply (Zpower_Qpower 2 n). Qed.

Lemma Qabs_ratio (q : Q) :
  Qabs q == inject_Z (Z.abs (Qnum q)) / inject_Z (Z.pos (Qden q)).
Proof.
  destruct q as [n d]. unfold Qabs. cbn [Qnum Qden].
  rewrite (Qmake_Qdiv (Z.abs n) d). reflexivity.
Qed.

(** [magnitude] is the exponent of the binade of [q]. *)
Lemma magnitude_spec (q : Q) :
  ~ q == 0 ->
  2 ^ magnitude q <= Qabs q /\ Qabs q < 2 ^ (magnitude q + 1).
Proof.
  intros Hq.
  set (n := Z.abs (Qnum q)). set (d := Z.pos (Qden q)).
  assert (Hn : (0 < n)%Z).
  { unfold n. destruct q as [[|p|p] dq]; cbn; try lia.
    exfalso. apply Hq. reflexivity. }
  assert (Hd : (0 < d)%Z) by (unfold d; lia).
  destruct (Z.log2_spec n Hn) as [Hn1 Hn2].
  destruct (Z.log2_spec d Hd) as [Hd1 Hd2].
  pose proof (Z.log2_nonneg n) as Hln. pose proof (Z.log2_nonneg d) as Hld.
  assert (Habs : Qabs q == inject_Z n / inject_Z d) by apply Qabs_ratio.
  assert (Hdq : 0 < inject_Z d) by (change 0 with (inject_Z 0); now rewrite <- Zlt_Qlt).
  assert (Hlow : 2 ^ (Z.log2 n - Z.log2 d - 1) <= Qabs q).
  { rewrite Habs. apply Qle_shift_div_l; [exact Hdq|].
    apply Qle_trans with (2 ^ (Z.log2 n - Z.log2 d - 1) * 2 ^ (Z.log2 d + 1)).
    - apply Qmult_le_l; [apply pow2_pos|].
      rewrite (pow2_Z (Z.log2 d + 1)) by lia.
      rewrite <- Zle_Qle. replace (Z.log2 d + 1)%Z with (Z.succ (Z.log2 d)) by lia.
      lia.
    - rewrite <- pow2_add.
      replace (Z.log2 n - Z.log2 d - 1 + (Z.log2 d + 1))%Z with (Z.log2 n) by lia.
      rewrite pow2_Z by lia. now rewrite <- Zle_Qle. }
  assert (Hhigh : Qabs q < 2 ^ (Z.log2 n - Z.log2 d + 1)).
  { rewrite Habs. apply Qlt_shift_div_r; [exact Hdq|].
    apply Qlt_le_trans with (2 ^ (Z.log2 n - Z.log2 d + 1) * 2 ^ Z.log2 d).
    - rewrite <- pow2_add.
      replace (Z.log2 n - Z.log2 d + 1 + Z.log2 d)%Z with (Z.succ (Z.log2 n)) by lia.
      rewrite pow2_Z by lia. now rewrite <- Zlt_Qlt.
    - apply Qmult_le_l; [apply pow2_pos|].
      rewrite pow2_Z by lia. now rewrite <- Zle_Qle. }
  unfold magnitude. fold n d.
  destruct (Qle_bool (2 ^ (Z.log2 n - Z.log2 d)) (Qabs q)) eqn:Hc.
  - apply Qle_bool_iff in Hc. split; [exact Hc | exact Hhigh].
  - split; [exact Hlow|].
    replace (Z.log2 n - Z.log2 d - 1 + 1)%Z with (Z.log2 n - Z.log2 d)%Z by lia.
    apply Qnot_le_lt. intros H. apply Qle_bool_iff in H. congruence.
Qed.

Lemma magnitude_lt (q : Q) (k : Z) :
  ~ q == 0 -> Qabs q < 2 ^ k -> (magnitude q < k)%Z.
Proof.
  intros Hq Hk. destruct (magnitude_spec q Hq) as [Hlo _].
  apply pow2_lt_inv. eapply Qle_lt_trans; eauto.
Qed.

Lemma magnitude_ge (q : Q) (k : Z) :
  ~ q == 0 -> 2 ^ k <= Qabs q -> (k <= magnitude q)%Z.
Proof.
  intros Hq Hk. destruct (magnitude_spec q Hq) as [_ Hhi].
  assert (H : (k < magnitude q + 1)%Z); [|lia].
  apply pow2_lt_inv. eapply Qle_lt_trans; eauto.
Qed.

Lemma nearest_zero (q : Q) : q == 0 -> nearest q = 0.
Proof.
  intros H. unfold nearest. apply Qeq_bool_iff in H. now rewrite H.
Qed.

Lemma nearest_nonzero (q : Q) :
  ~ q == 0 ->
  nearest q = inject_Z (roundHalfEven (q / 2 ^ quantum q)) * 2 ^ quantum q.
Proof.
  intros H. unfold nearest.
  destruct (Qeq_bool q 0) eqn:E; [|reflexivity].
  apply Qeq_bool_iff in E. contradiction.
Qed.

(** The result differs from the exact value by at most half a unit in the
    last place. *)
Lemma nearest_error (q : Q) :
  Qabs (nearest q - q) <= 2 ^ quantum q * (1 # 2).
Proof.
  destruct (Qeq_dec q 0) as [Hz|Hnz].
  - rewrite (nearest_zero q Hz).
    assert (H : 0 - q == 0) by lra. rewrite H.
    apply Qmult_le_0_compat; [apply Qlt_le_weak, pow2_pos | discriminate].
  - rewrite (nearest_nonzero q Hnz).
    set (u := 2 ^ quantum q). assert (Hu : 0 < u) by apply pow2_pos.
    pose proof (roundHalfEven_error (q / u)) as Herr.
    assert (Heq : inject_Z (roundHalfEven (q / u)) * u - q ==
                  (inject_Z (roundHalfEven (q / u)) - q / u) * u)
      by (field; lra).
    rewrite Heq, Qabs_Qmult, (Qabs_pos u) by lra.
    rewrite (Qmult_comm u (1 # 2)).
    apply Qmult_le_compat_r; [exact Herr | lra].
Qed.

Lemma quantum_le (q : Q) (k : Z) :
  ~ q == 0 -> Qabs q < 2 ^ k -> (-1021 <= k)%Z -> (quantum q <= k - 53)%Z.
Proof.
  intros Hq Hk Hrange. pose proof (magnitude_lt q k Hq Hk). unfold quantum. lia.
Qed.

(** Below [2^k] the error is at most [2^(k-54)]. *)
Lemma nearest_error_below (q : Q) (k : Z) :
  Qabs q < 2 ^ k -> (-1021 <= k)%Z ->
  Qabs (nearest q - q) <= 2 ^ (k - 54).
Proof.
  intros Hk Hrange. destruct (Qeq_dec q 0) as [Hz|Hnz].
  - rewrite (nearest_zero q Hz).
    assert (H : 0 - q == 0) by lra. rewrite H.
    apply Qlt_le_weak, pow2_pos.
  - eapply Qle_trans; [apply nearest_error|].
    pose proof (quantum_le q k Hnz Hk Hrange) as Hu.
    replace (k - 54)%Z with ((k - 53) + -1)%Z by lia.
    rewrite pow2_add. change (2 ^ (-1)) with (1 # 2).
    apply Qmult_le_compat_r; [now apply pow2_le | discriminate].
Qed.

Lemma on_grid (z u : Z) :
  (u <= 0)%Z -> inject_Z z / 2 ^ u == inject_Z (z * 2 ^ (- u)).
Proof.
  intros Hu. rewrite inject_Z_mult, <- pow2_Z by lia.
  rewrite Qpower_opp. field. apply Qpower_not_0. discriminate.
Qed.

(** Rounding does not cross an integer, as long as the unit in the last
    place is at most one. *)
Lemma nearest_ge_int (q : Q) (z : Z) :
  Qabs q < 2 ^ 53 -> inject_Z z <= q -> inject_Z z <= nearest q.
Proof.
  intros Hsmall Hz. destruct (Qeq_dec q 0) as [Hq|Hq].
  - rewrite (nearest_zero q Hq). lra.
  - rewrite (nearest_nonzero q Hq).
    assert (Hu : (quantum q <= 0)%Z).
    { pose proof (magnitude_lt q 53 Hq Hsmall). unfold quantum. lia. }
    set (u := quantum q) in *. pose proof (pow2_pos u) as Hpos.
    assert (Hx : inject_Z (z * 2 ^ (- u)) <= q / 2 ^ u).
    { rewrite <- on_grid by exact Hu. apply Qmult_le_compat_r; [exact Hz|].
      apply Qlt_le_weak, Qinv_lt_0_compat, Hpos. }
    apply roundHalfEven_ge in Hx. rewrite Zle_Qle in Hx.
    apply Qle_trans with (inject_Z (z * 2 ^ (- u)) * 2 ^ u).
    + rewrite <- on_grid by exact Hu. apply Qle_lteq. right. field. lra.
    + apply Qmult_le_compat_r; [exact Hx | lra].
Qed.

Lemma nearest_le_int (q : Q) (z : Z) :
  Qabs q < 2 ^ 53 -> q <= inject_Z z -> nearest q <= inject_Z z.
Proof.
  intros Hsmall Hz. destruct (Qeq_dec q 0) as [Hq|Hq].
  - rewrite (nearest_zero q Hq). lra.
  - rewrite (nearest_nonzero q Hq).
    assert (Hu : (quantum q <= 0)%Z).
    { pose proof (magnitude_lt q 53 Hq Hsmall). unfold quantum. lia. }
    set (u := quantum q) in *. pose proof (pow2_pos u) as Hpos.
    assert (Hx : q / 2 ^ u <= inject_Z (z * 2 ^ (- u))).
    { rewrite <- on_grid by exact Hu. apply Qmult_le_compat_r; [exact Hz|].
      apply Qlt_le_weak, Qinv_lt_0_compat, Hpos. }
    apply roundHalfEven_le in Hx. rewrite Zle_Qle in Hx.
    apply Qle_trans with (inject_Z (z * 2 ^ (- u)) * 2 ^ u).
    + apply Qmult_le_compat_r; [exact Hx | lra].
    + rewrite <- on_grid by exact Hu. apply Qle_lteq. right. field. lra.
Qed.


Lemma quantum_grid (q : Q) (g : Z) :
  ~ q == 0 -> (-1074 <= g)%Z -> Qabs q < 2 ^ (g + 53) -> (quantum q <= g)%Z.
Proof.
  intros Hq Hg Hsmall. pose proof (magnitude_lt q (g + 53) Hq Hsmall).
  unfold quantum. lia.
Qed.

Lemma grid_ratio (z g u : Z) :
  (u <= g)%Z -> inject_Z z * 2 ^ g / 2 ^ u == inject_Z (z * 2 ^ (g - u)).
Proof.
  intros Hu. rewrite inject_Z_mult, <- pow2_Z by lia.
  unfold Zminus. rewrite pow2_add, Qpower_opp. field.
  apply Qpower_not_0. discriminate.
Qed.

(** Rounding does not cross a multiple of [2^g], as long as the unit in
    the last place is at most [2^g]. *)
Lemma nearest_ge_grid (q : Q) (z g : Z) :
  (-1074 <= g)%Z -> Qabs q < 2 ^ (g + 53) ->
  inject_Z z * 2 ^ g <= q -> inject_Z z * 2 ^ g <= nearest q.
Proof.
  intros Hg Hsmall Hz. destruct (Qeq_dec q 0) as [Hq|Hq].
  - rewrite (nearest_zero q Hq). lra.
  - rewrite (nearest_nonzero q Hq).
    pose proof (quantum_grid q g Hq Hg Hsmall) as Hu.
    set (u := quantum q) in *. pose proof (pow2_pos u) as Hpos.
    assert (Hx : inject_Z (z * 2 ^ (g - u)) <= q / 2 ^ u).
    { rewrite <- grid_ratio by exact Hu. apply Qmult_le_compat_r; [exact Hz|].
      apply Qlt_le_weak, Qinv_lt_0_compat, Hpos. }
    apply roundHalfEven_ge in Hx. rewrite Zle_Qle in Hx.
    apply Qle_trans with (inject_Z (z * 2 ^ (g - u)) * 2 ^ u).
    + rewrite <- grid_ratio by exact Hu. apply Qle_lteq. right. field. lra.
    + apply Qmult_le_compat_r; [exact Hx | lra].
Qed.

Lemma nearest_le_grid (q : Q) (z g : Z) :
  (-1074 <= g)%Z -> Qabs q < 2 ^ (g + 53) ->
  q <= inject_Z z * 2 ^ g -> nearest q <= inject_Z z * 2 ^ g.
Proof.
  intros Hg Hsmall Hz. destruct (Qeq_dec q 0) as [Hq|Hq].
  - rewrite (nearest_zero q Hq). lra.
  - rewrite (nearest_nonzero q Hq).
    pose proof (quantum_grid q g Hq Hg Hsmall) as Hu.
    set (u := quantum q) in *. pose proof (pow2_pos u) as Hpos.
    assert (Hx : q / 2 ^ u <= inject_Z (z * 2 ^ (g - u))).
    { rewrite <- grid_ratio by exact Hu. apply Qmult_le_compat_r; [exact Hz|].
      apply Qlt_le_weak, Qinv_lt_0_compat, Hpos. }
    apply roundHalfEven_le in Hx. rewrite Zle_Qle in Hx.
    apply Qle_trans with (inject_Z (z * 2 ^ (g - u)) * 2 ^ u).
    + apply Qmult_le_compat_r; [exact Hx | lra].
    + rewrite <- grid_ratio by exact Hu. apply Qle_lteq. right. field. lra.
Qed.

(** A multiple of [2^g] with fewer than 53 bits is delivered as it is. *)
Lemma nearest_exact (q : Q) (z g : Z) :
  (-1074 <= g)%Z -> Qabs q < 2 ^ (g + 53) ->
  q == inject_Z z * 2 ^ g -> nearest q == q.
Proof.
  intros Hg Hsmall Hq. apply Qle_antisym.
  - rewrite Hq at 2. apply nearest_le_grid; [exact Hg | exact Hsmall|].
    rewrite Hq. apply Qle_refl.
  - rewrite Hq at 1. apply nearest_ge_grid; [exact Hg | exact Hsmall|].
    rewrite Hq. apply Qle_refl.
Qed.

Lemma nearest_exact_int (q : Q) (z : Z) :
  Qabs q < 2 ^ 53 -> q == inject_Z z -> nearest q == q.
Proof.
  intros Hsmall Hq. apply (nearest_exact q z 0); [lia | exact Hsmall|].
  rewrite Hq. change (2 ^ 0) with 1. lra.
Qed.

Lemma Qabs_between (q lo hi bound : Q) :
  lo <= q -> q <= hi -> - bound < lo -> hi < bound -> Qabs q < bound.
Proof.
  intros Hlo Hhi Hb1 Hb2. apply Qabs_Qlt_condition. split; lra.
Qed.

(** Between two integers of fewer than 53 bits the operation stays
    finite, and between them. *)
Lemma double_between (q : Q) (lo hi : Z) :
  (- 2 ^ 53 < lo)%Z -> (hi < 2 ^ 53)%Z ->
  inject_Z lo <= q -> q <= inject_Z hi ->
  double q = Finite (nearest q) /\
  inject_Z lo <= nearest q /\ nearest q <= inject_Z hi.
Proof.
  intros Hlo Hhi Hq1 Hq2.
  assert (Hb1 : - 2 ^ 53 < inject_Z lo).
  { change (- 2 ^ 53) with (inject_Z (- 2 ^ 53)). now rewrite <- Zlt_Qlt. }
  assert (Hb2 : inject_Z hi < 2 ^ 53).
  { change (2 ^ 53) with (inject_Z (2 ^ 53)). now rewrite <- Zlt_Qlt. }
  assert (Hsmall : Qabs q < 2 ^ 53) by (eapply Qabs_between; eauto).
  pose proof (nearest_ge_int q lo Hsmall Hq1) as Hn1.
  pose proof (nearest_le_int q hi Hsmall Hq2) as Hn2.
  split; [|split; assumption].
  unfold double. cbv zeta.
  replace (Qle_bool (Qabs (nearest q)) maxValue) with true; [reflexivity|].
  symmetry. apply Qle_bool_iff.
  apply Qle_trans with (2 ^ 53).
  - apply Qlt_le_weak. eapply Qabs_between; eauto.
  - apply Qle_bool_iff. vm_compute. reflexivity.
Qed.

(** Rounding does not fall below an integer of fewer than 53 bits,
    wherever the exact result lies above it. *)
Lemma nearest_ge_any (q : Q) (z : Z) :
  (0 <= z < 2 ^ 53)%Z -> inject_Z z <= q -> inject_Z z <= nearest q.
Proof.
  intros Hz Hq. destruct (Qlt_le_dec (Qabs q) (2 ^ 53)) as [Hsmall|Hlarge].
  - now apply nearest_ge_int.
  - assert (H0 : 0 <= inject_Z z).
    { change 0 with (inject_Z 0). rewrite <- Zle_Qle. lia. }
    assert (Hpos : 0 <= q) by lra.
    rewrite (Qabs_pos q Hpos) in Hlarge.
    assert (Hnz : ~ q == 0).
    { intros E. rewrite E in Hlarge. revert Hlarge. apply Qlt_not_le. reflexivity. }
    assert (Hlarge' : 2 ^ 53 <= Qabs q) by now rewrite Qabs_pos.
    pose proof (magnitude_ge q 53 Hnz Hlarge') as Hm.
    destruct (magnitude_spec q Hnz) as [Hlo Hhi].
    rewrite (Qabs_pos q Hpos) in Hlo.
    assert (Hgrid : inject_Z (2 ^ 52) * 2 ^ (magnitude q - 52) == 2 ^ magnitude q).
    { rewrite <- (pow2_Z 52) by lia. rewrite <- pow2_add.
      now replace (52 + (magnitude q - 52))%Z with (magnitude q) by lia. }
    apply Qle_trans with (inject_Z (2 ^ 52) * 2 ^ (magnitude q - 52)).
    + rewrite Hgrid. apply Qle_trans with (2 ^ 53); [|now apply pow2_le].
      change (2 ^ 53) with (inject_Z (2 ^ 53)). rewrite <- Zle_Qle. lia.
    + apply nearest_ge_grid; [lia | |].
      * now replace (magnitude q - 52 + 53)%Z with (magnitude q + 1)%Z by lia.
      * now rewrite Hgrid.
Qed.

(** A number at or above an integer stays there through the operations
    of the average, whether it remains finite or not. *)
Lemma double_atLeast (q : Q) (z : Z) :
  (0 <= z < 2 ^ 53)%Z -> inject_Z z <= q ->
  atLeast (inject_Z z) (double q) = true.
Proof.
  intros Hz Hq. pose proof (nearest_ge_any q z Hz Hq) as Hn.
  assert (H0 : 0 <= inject_Z z).
  { change 0 with (inject_Z 0). rewrite <- Zle_Qle. lia. }
  unfold double. cbv zeta.
  destruct (Qle_bool (Qabs (nearest q)) maxValue).
  - cbn [atLeast]. now apply Qle_bool_iff.
  - replace (Qle_bool 0 (nearest q)) with true; [reflexivity|].
    symmetry. apply Qle_bool_iff. lra.
Qed.

Lemma add_atLeast (a b : Number) (x y : Z) :
  (0 <= x)%Z -> (0 <= y)%Z -> (x + y < 2 ^ 53)%Z ->
  atLeast (inject_Z x) a = true -> atLeast (inject_Z y) b = true ->
  atLeast (inject_Z (x + y)) (add a b) = true.
Proof.
  intros Hx Hy Hxy Ha Hb.
  destruct a as [va| | |], b as [vb| | |]; try discriminate; try reflexivity.
  cbn [add atLeast] in *. apply Qle_bool_iff in Ha, Hb.
  apply double_atLeast; [lia|]. rewrite inject_Z_plus. lra.
Qed.

Lemma divideBy_atLeast (a : Number) (z : Z) :
  (0 <= z < 2 ^ 53)%Z ->
  atLeast (inject_Z (4 * z)) a = true ->
  atLeast (inject_Z z) (divideBy 4 a) = true.
Proof.
  intros Hz Ha. destruct a as [va| | |]; try discriminate; try reflexivity.
  cbn [divideBy atLeast] in *. apply Qle_bool_iff in Ha.
  apply double_atLeast; [exact Hz|].
  rewrite inject_Z_mult in Ha. change (inject_Z 4) with 4 in Ha.
  apply Qle_shift_div_l; [reflexivity | lra].
Qed.

Lemma mathRound_atLeast (a : Number) (z : Z) :
  atLeast (inject_Z z) a = true ->
  atLeast (inject_Z z) (mathRound a) = true.
Proof.
  intros Ha. destruct a as [va| | |]; try discriminate; try reflexivity.
  cbn [mathRound atLeast] in *. apply Qle_bool_iff in Ha.
  apply Qle_bool_iff. rewrite <- Zle_Qle.
  rewrite <- (Qfloor_Z z). apply Qfloor_resp_le. lra.
Qed.

End Binary64Facts.

(* ===================================================================== *)
(** * Properties of the scores *)
(* ===================================================================== *)

Section ScoreFacts.
Import Types Scoring App Binary64.
Local Open Scope Q_scope.

(** [Math.round] yields the integer nearest to its argument, the upper one
    when two are equally near. *)
Lemma round_nearest (x : Q) :
  inject_Z (round x) - (1 # 2) <= x /\ x < inject_Z (round x) + (1 # 2).
Proof.
  unfold round. pose proof (Qfloor_le (x + (1 # 2))) as Hle.
  pose proof (Qlt_floor (x + (1 # 2))) as Hlt.
  rewrite inject_Z_plus in Hlt. change (inject_Z 1) with 1 in Hlt.
  split; lra.
Qed.

Lemma round_monotone (x y : Q) : x <= y -> (round x <= round y)%Z.
Proof. intros H. unfold round. apply Qfloor_resp_le. lra. Qed.

Lemma round_unique (x : Q) (z : Z) :
  inject_Z z - (1 # 2) <= x -> x < inject_Z z + (1 # 2) -> round x = z.
Proof.
  intros Hlo Hhi. unfold round.
  assert (H1 : (z <= Qfloor (x + (1 # 2)))%Z).
  { rewrite <- (Qfloor_Z z). apply Qfloor_resp_le. lra. }
  assert (H2 : (Qfloor (x + (1 # 2)) < z + 1)%Z).
  { rewrite Zlt_Qlt, inject_Z_plus. change (inject_Z 1) with 1.
    pose proof (Qfloor_le (x + (1 # 2))). lra. }
  lia.
Qed.

Lemma round_integer (z : Z) : round (inject_Z z) = z.
Proof. apply round_unique; lra. Qed.

Lemma round_equal (x y : Q) : x == y -> round x = round y.
Proof. intros H. unfold round. now rewrite H. Qed.

(** The two counters of the scoring loops. *)
Lemma tally_questions (answers : gmap string Z) (qs : list Question)
    (correct total : nat) :
  foldl (fun '(correct, total) q =>
           (if isCorrect answers q then S correct else correct, S total))
        (correct, total) qs =
  ((correct + length (List.filter (isCorrect answers) qs))%nat,
   (total + length qs)%nat).
Proof.
  revert correct total. induction qs as [|q qs IH]; intros correct total; simpl.
  - f_equal; lia.
  - rewrite IH. destruct (isCorrect answers q); simpl; f_equal; lia.
Qed.

Lemma isCorrect_filter (answers : gmap string Z) (qs : list Question) :
  List.filter (isCorrect answers) qs =
  List.filter
    (fun q => bool_decide (answers !! questionId q = Some (correctAnswerIndex q)))
    qs.
Proof. reflexivity. Qed.

Lemma tally_parts (answers : gmap string Z) (ps : list TestPart)
    (correct total : nat) :
  foldl (fun st part =>
           foldl (fun '(correct, total) q =>
                    (if isCorrect answers q then S correct else correct,
                     S total))
                 st (questions part))
        (correct, total) ps =
  ((correct + correctCount answers ps)%nat,
   (total + length (allQuestions ps))%nat).
Proof.
  unfold correctCount, allQuestions.
  revert correct total. induction ps as [|part ps IH]; intros correct total; simpl.
  - f_equal; lia.
  - rewrite tally_questions, IH, isCorrect_filter, List.filter_app, !length_app.
    f_equal; lia.
Qed.

Lemma count_parts (answers : gmap string Z) (ps : list TestPart) (correct : nat) :
  foldl (fun correct part =>
           foldl (fun correct q =>
                    if isCorrect answers q then S correct else correct)
                 correct (questions part))
        correct ps = (correct + correctCount answers ps)%nat.
Proof.
  unfold correctCount, allQuestions.
  revert correct. induction ps as [|part ps IH]; intros correct; simpl.
  - lia.
  - rewrite IH, List.filter_app, length_app.
    assert (Hin : forall qs c,
               foldl (fun correct q =>
                        if isCorrect answers q then S correct else correct) c qs
               = (c + length (List.filter (isCorrect answers) qs))%nat).
    { induction qs as [|q qs IHq]; intros c; simpl; [lia|].
      rewrite IHq. destruct (isCorrect answers q); simpl; lia. }
    rewrite Hin, isCorrect_filter. lia.
Qed.

Lemma total_parts (ps : list TestPart) (acc : nat) :
  foldl (fun acc part => (acc + length (questions part))%nat) acc ps =
  (acc + length (allQuestions ps))%nat.
Proof.
  unfold allQuestions. revert acc.
  induction ps as [|part ps IH]; intros acc; simpl; [lia|].
  rewrite IH, length_app. lia.
Qed.

Lemma correctCount_le (answers : gmap string Z) (ps : list TestPart) :
  (correctCount answers ps <= length (allQuestions ps))%nat.
Proof. unfold correctCount. apply List.filter_length_le. Qed.

(** The quotient of the two counters lies in [0, 1]. *)
Lemma quotient_bounds (correct total : nat) :
  (0 < total)%nat -> (correct <= total)%nat ->
  0 <= inject_Z (Z.of_nat correct) / inject_Z (Z.of_nat total) /\
  inject_Z (Z.of_nat correct) / inject_Z (Z.of_nat total) <= 1.
Proof.
  intros Hpos Hle.
  assert (Ht : 0 < inject_Z (Z.of_nat total)).
  { change 0 with (inject_Z 0). rewrite <- Zlt_Qlt. lia. }
  assert (Hc : 0 <= inject_Z (Z.of_nat correct)).
  { change 0 with (inject_Z 0). rewrite <- Zle_Qle. lia. }
  assert (Hct : inject_Z (Z.of_nat correct) <= inject_Z (Z.of_nat total)).
  { rewrite <- Zle_Qle. lia. }
  split.
  - apply Qle_shift_div_l; [exact Ht | lra].
  - apply Qle_shift_div_r; [exact Ht | lra].
Qed.

Lemma rounded_quotient_bounds (correct total : nat) :
  (0 < total)%nat -> (correct <= total)%nat ->
  0 <= nearest (inject_Z (Z.of_nat correct) / inject_Z (Z.of_nat total)) /\
  nearest (inject_Z (Z.of_nat correct) / inject_Z (Z.of_nat total)) <= 1.
Proof.
  intros Hpos Hle. destruct (quotient_bounds correct total Hpos Hle) as [H0 H1].
  destruct (double_between _ 0 1 ltac:(lia) ltac:(lia) H0 H1) as (_ & Hlo & Hhi).
  split; assumption.
Qed.

Lemma ratio_bounds (correct total : nat) :
  (0 < total)%nat -> (correct <= total)%nat ->
  0 <= ratio correct total /\ ratio correct total <= 100.
Proof.
  intros Hpos Hle. unfold ratio.
  destruct (rounded_quotient_bounds correct total Hpos Hle) as [H0 H1].
  set (x := nearest _) in *.
  assert (Hlo : inject_Z 0 <= x * 100) by (change (inject_Z 0) with 0; lra).
  assert (Hhi : x * 100 <= inject_Z 100) by (change (inject_Z 100) with 100; lra).
  destruct (double_between _ 0 100 ltac:(lia) ltac:(lia) Hlo Hhi) as (_ & Hn0 & Hn1).
  split; assumption.
Qed.

(** The two roundings move the score by less than [2^-45]. *)
Lemma ratio_close (correct total : nat) :
  (0 < total)%nat -> (correct <= total)%nat ->
  Qabs (ratio correct total - percentage correct total) <= 2 ^ (-45).
Proof.
  intros Hpos Hle. unfold ratio, percentage.
  destruct (quotient_bounds correct total Hpos Hle) as [H0 H1].
  destruct (rounded_quotient_bounds correct total Hpos Hle) as [Hx0 Hx1].
  set (c := inject_Z (Z.of_nat correct)) in *.
  set (t := inject_Z (Z.of_nat total)) in *.
  assert (He1 : Qabs (nearest (c / t) - c / t) <= 2 ^ (1 - 54)).
  { apply nearest_error_below; [|lia].
    apply (Qabs_between _ 0 1); try assumption; reflexivity. }
  set (x := nearest (c / t)) in *.
  assert (He2 : Qabs (nearest (x * 100) - x * 100) <= 2 ^ (7 - 54)).
  { apply nearest_error_below; [|lia].
    apply (Qabs_between _ 0 100); try reflexivity; lra. }
  set (y := nearest (x * 100)) in *.
  change (2 ^ (1 - 54)) with (1 # 9007199254740992) in He1.
  change (2 ^ (7 - 54)) with (1 # 140737488355328) in He2.
  change (2 ^ (-45)) with (1 # 35184372088832).
  apply Qabs_Qle_condition in He1, He2. apply Qabs_Qle_condition.
  assert (Heq : 100 * c / t == 100 * (c / t)).
  { unfold Qdiv. ring. }
  rewrite Heq. split; lra.
Qed.

(** No correct answer gives 0 and all answers correct give 100. *)
Lemma ratio_none (total : nat) : ratio 0 total == 0.
Proof.
  unfold ratio.
  assert (H : inject_Z (Z.of_nat 0) / inject_Z (Z.of_nat total) == 0).
  { change (inject_Z (Z.of_nat 0)) with 0. unfold Qdiv. ring. }
  rewrite (nearest_zero _ H).
  rewrite (nearest_zero (0 * 100)); reflexivity.
Qed.

Lemma ratio_all (total : nat) : (0 < total)%nat -> ratio total total == 100.
Proof.
  intros Hpos. unfold ratio.
  assert (Ht : 0 < inject_Z (Z.of_nat total)).
  { change 0 with (inject_Z 0). rewrite <- Zlt_Qlt. lia. }
  assert (H : inject_Z (Z.of_nat total) / inject_Z (Z.of_nat total) == inject_Z 1).
  { change (inject_Z 1) with 1. field. lra. }
  assert (Hx : nearest (inject_Z (Z.of_nat total) / inject_Z (Z.of_nat total)) == 1).
  { rewrite (nearest_exact_int _ 1); [exact H | | exact H].
    rewrite H. reflexivity. }
  set (x := nearest _) in *.
  assert (Hy : x * 100 == inject_Z 100).
  { rewrite Hx. reflexivity. }
  rewrite (nearest_exact_int _ 100); [exact Hy | | exact Hy].
  rewrite Hy. reflexivity.
Qed.

(** Checked on every outcome of up to 60 questions: the floating-point
    unit of the kernel delivers the same number. *)
Lemma agreesOn_all : forallb agreesOn (outcomesUpTo 60) = true.
Proof. vm_compute. reflexivity. Qed.

Lemma ratio_is_machine_ratio (correct total : nat) :
  (0 < total <= 60)%nat -> (correct <= total)%nat ->
  exists q, Js.rationalOf (ratioBinary64 correct total) = Some q /\
            q == ratio correct total.
Proof.
  intros Ht Hc.
  pose proof (proj1 (forallb_forall agreesOn (outcomesUpTo 60)) agreesOn_all
                (correct, total)) as Hagree.
  assert (Hin : In (correct, total) (outcomesUpTo 60)).
  { unfold outcomesUpTo. apply in_flat_map. exists total. split.
    - apply in_seq. lia.
    - apply in_map_iff. exists correct. split; [reflexivity|]. apply in_seq. lia. }
  specialize (Hagree Hin). unfold agreesOn in Hagree.
  destruct (Js.rationalOf (ratioBinary64 correct total)) as [q|]; [|discriminate].
  exists q. split; [reflexivity|]. now apply Qeq_bool_iff.
Qed.

(** Checked on the score boards of [boards]: the floating-point unit of
    the kernel delivers the quotient that [getAverageScore] rounds. *)
Lemma averageAgreesOn_all : forallb averageAgreesOn boards = true.
Proof. vm_compute. reflexivity. Qed.

(** The four operations of [getAverageScore] on fields in [0, 100]: no
    sum leaves the finite numbers, and the quotient the rounding is
    applied to is the exact mean up to [7 * 2^-48]; for fields that are
    integers every operation is exact. *)
Lemma getAverageScore_steps (w : World) :
  0 <= reading (scores w) /\ reading (scores w) <= 100 ->
  0 <= listening (scores w) /\ listening (scores w) <= 100 ->
  0 <= writing (scores w) /\ writing (scores w) <= 100 ->
  0 <= speaking (scores w) /\ speaking (scores w) <= 100 ->
  let mean := (reading (scores w) + listening (scores w) +
               writing (scores w) + speaking (scores w)) / 4 in
  let quotient :=
    nearest (nearest (nearest (nearest (reading (scores w) +
                                        listening (scores w)) +
                               writing (scores w)) +
                      speaking (scores w)) / 4) in
  getAverageScore w = Finite (inject_Z (round quotient)) /\
  0 <= quotient /\ quotient <= 100 /\
  Qabs (quotient - mean) <= 7 # 281474976710656 /\
  (forall a b c d : Z,
      reading (scores w) == inject_Z a ->
      listening (scores w) == inject_Z b ->
      writing (scores w) == inject_Z c ->
      speaking (scores w) == inject_Z d ->
      quotient == mean).
Proof.
  intros [Hr0 Hr1] [Hl0 Hl1] [Hw0 Hw1] [Hs0 Hs1] mean quotient.
  unfold getAverageScore. subst mean quotient.
  set (r := reading (scores w)) in *. set (l := listening (scores w)) in *.
  set (wr := writing (scores w)) in *. set (s := speaking (scores w)) in *.
  cbn [add].
  destruct (double_between (r + l) 0 200) as (E1 & L1 & U1);
    [lia | lia | change (inject_Z 0) with 0; lra
     | change (inject_Z 200) with 200; lra |].
  change (inject_Z 0) with 0 in L1. change (inject_Z 200) with 200 in U1.
  rewrite E1. cbn [add]. set (s1 := nearest (r + l)) in *.
  destruct (double_between (s1 + wr) 0 300) as (E2 & L2 & U2);
    [lia | lia | change (inject_Z 0) with 0; lra
     | change (inject_Z 300) with 300; lra |].
  change (inject_Z 0) with 0 in L2. change (inject_Z 300) with 300 in U2.
  rewrite E2. cbn [add]. set (s2 := nearest (s1 + wr)) in *.
  destruct (double_between (s2 + s) 0 400) as (E3 & L3 & U3);
    [lia | lia | change (inject_Z 0) with 0; lra
     | change (inject_Z 400) with 400; lra |].
  change (inject_Z 0) with 0 in L3. change (inject_Z 400) with 400 in U3.
  rewrite E3. cbn [divideBy]. set (s3 := nearest (s2 + s)) in *.
  assert (Hq : s3 / 4 == s3 * (1 # 4)) by reflexivity.
  destruct (double_between (s3 / 4) 0 100) as (E4 & L4 & U4);
    [lia | lia | rewrite Hq; change (inject_Z 0) with 0; lra
     | rewrite Hq; change (inject_Z 100) with 100; lra |].
  change (inject_Z 0) with 0 in L4. change (inject_Z 100) with 100 in U4.
  rewrite E4. cbn [mathRound].
  split; [unfold round; reflexivity|]. split; [exact L4|]. split; [exact U4|].
  assert (A1 : Qabs (r + l) < 2 ^ 8).
  { apply (Qabs_between _ 0 200); try reflexivity; lra. }
  assert (A2 : Qabs (s1 + wr) < 2 ^ 9).
  { apply (Qabs_between _ 0 300); try reflexivity; lra. }
  assert (A3 : Qabs (s2 + s) < 2 ^ 9).
  { apply (Qabs_between _ 0 400); try reflexivity; lra. }
  assert (A4 : Qabs (s3 / 4) < 2 ^ 7).
  { apply (Qabs_between _ 0 100); try reflexivity; rewrite Hq; lra. }
  split.
  - pose proof (nearest_error_below (r + l) 8 A1 ltac:(lia)) as D1.
    pose proof (nearest_error_below (s1 + wr) 9 A2 ltac:(lia)) as D2.
    pose proof (nearest_error_below (s2 + s) 9 A3 ltac:(lia)) as D3.
    pose proof (nearest_error_below (s3 / 4) 7 A4 ltac:(lia)) as D4.
    fold s1 in D1. fold s2 in D2. fold s3 in D3.
    set (m := nearest (s3 / 4)) in *.
    change (2 ^ (8 - 54)) with (1 # 70368744177664) in D1.
    change (2 ^ (9 - 54)) with (1 # 35184372088832) in D2, D3.
    change (2 ^ (7 - 54)) with (1 # 140737488355328) in D4.
    apply Qabs_Qle_condition in D1, D2, D3, D4. apply Qabs_Qle_condition.
    assert (Hmean : (r + l + wr + s) / 4 == (r + l + wr + s) * (1 # 4))
      by reflexivity.
    rewrite Hq in D4. rewrite Hmean. split; lra.
  - intros a b c d Ha Hb Hc Hd.
    assert (X1 : s1 == r + l).
    { apply (nearest_exact_int _ (a + b)).
      - eapply Qlt_trans; [exact A1 | reflexivity].
      - rewrite Ha, Hb, inject_Z_plus. reflexivity. }
    assert (X2 : s2 == s1 + wr).
    { apply (nearest_exact_int _ (a + b + c)).
      - eapply Qlt_trans; [exact A2 | reflexivity].
      - rewrite X1, Ha, Hb, Hc, !inject_Z_plus. reflexivity. }
    assert (X3 : s3 == s2 + s).
    { apply (nearest_exact_int _ (a + b + c + d)).
      - eapply Qlt_trans; [exact A3 | reflexivity].
      - rewrite X2, X1, Ha, Hb, Hc, Hd, !inject_Z_plus. reflexivity. }
    assert (X4 : nearest (s3 / 4) == s3 / 4).
    { apply (nearest_exact _ (a + b + c + d) (-2)); [lia| |].
      - eapply Qlt_trans; [exact A4 | reflexivity].
      - rewrite Hq, X3, X2, X1, Ha, Hb, Hc, Hd, !inject_Z_plus. reflexivity. }
    rewrite X4, Hq, X3, X2, X1. reflexivity.
Qed.

(** C7, the claim as it is stated, at the scores [(1 / 6) * 100] and
    [(1 / 3) * 100] of the two choice modules, that is 16.666666666666664
    and 33.33333333333333, and 70 for writing and for speaking: the three
    additions deliver 190 and the division 47.5, so the computed average
    is 48, while the mean of the four fields lies below 47.5 and rounds
    to 47. *)
Lemma C7_counterexample_sum_rounded_up :
  let w := setScores {| reading := ratio 1 6; listening := ratio 1 3;
                        writing := 70; speaking := 70 |} initial in
  let mean := (reading (scores w) + listening (scores w) +
               writing (scores w) + speaking (scores w)) / 4 in
  (reading (scores w) == 2345624805922133 # 140737488355328 /\
   listening (scores w) == 2345624805922133 # 70368744177664) /\
  getAverageScore w = Finite 48 /\
  mean < 95 # 2 /\
  round mean = 47%Z /\
  (exists q,
      Js.rationalOf (meanBinary64 (ratioBinary64 1 6) (ratioBinary64 1 3)
                                  (Js.number 70) (Js.number 70)) = Some q /\
      q == 95 # 2).
Proof.
  vm_compute. repeat split; try reflexivity.
  eexists. split; reflexivity.
Qed.

(** C7, amended: for a score board whose four fields lie in [0, 100] the
    computed average is [Math.round] of the quotient that the three
    additions and the division deliver, each rounded to the nearest
    binary64 number.  It is an integer in [0, 100] that differs from the
    mean of the four fields by at most [1/2 + 2^-45].  It is the mean
    rounded to the nearest integer whenever the mean keeps a distance of
    [2^-45] from the two ends of the interval of numbers that round to the
    same integer, and whenever the four fields are integers. *)
Theorem C7_average_is_rounded_mean (w : World) :
  0 <= reading (scores w) /\ reading (scores w) <= 100 ->
  0 <= listening (scores w) /\ listening (scores w) <= 100 ->
  0 <= writing (scores w) /\ writing (scores w) <= 100 ->
  0 <= speaking (scores w) /\ speaking (scores w) <= 100 ->
  let mean := (reading (scores w) + listening (scores w) +
               writing (scores w) + speaking (scores w)) / 4 in
  let quotient :=
    nearest (nearest (nearest (nearest (reading (scores w) +
                                        listening (scores w)) +
                               writing (scores w)) +
                      speaking (scores w)) / 4) in
  getAverageScore w = Finite (inject_Z (round quotient)) /\
  (0 <= round quotient <= 100)%Z /\
  Qabs (inject_Z (round quotient) - mean) <= (1 # 2) + 2 ^ (-45) /\
  (inject_Z (round mean) - (1 # 2) + 2 ^ (-45) <= mean /\
   mean + 2 ^ (-45) < inject_Z (round mean) + (1 # 2) ->
   round quotient = round mean) /\
  (forall a b c d : Z,
      reading (scores w) == inject_Z a ->
      listening (scores w) == inject_Z b ->
      writing (scores w) == inject_Z c ->
      speaking (scores w) == inject_Z d ->
      round quotient = round mean).
Proof.
  intros Hr Hl Hw Hs mean quotient.
  destruct (getAverageScore_steps w Hr Hl Hw Hs)
    as (Hm & H0 & H100 & Hclose & Hexact).
  fold mean in Hclose, Hexact. fold quotient in Hm, H0, H100, Hclose, Hexact.
  split; [exact Hm|].
  change (2 ^ (-45)) with (1 # 35184372088832).
  apply Qabs_Qle_condition in Hclose.
  destruct (round_nearest quotient) as [Hlo Hhi].
  split; [|split; [|split]].
  - split.
    + change 0%Z with (round 0). now apply round_monotone.
    + change 100%Z with (round 100). now apply round_monotone.
  - apply Qabs_Qle_condition. split; lra.
  - intros [Hlow Hhigh]. apply round_unique; lra.
  - intros a b c d Ha Hb Hc Hd. apply round_equal. now apply (Hexact a b c d).
Qed.

Lemma C7_average_is_rounded_mean_witness :
  getAverageScore
    (setScores {| reading := 80; listening := 70; writing := 90;
                  speaking := 61 |} initial) = Finite (inject_Z 75).
Proof.
  destruct (C7_average_is_rounded_mean
    (setScores {| reading := 80; listening := 70; writing := 90;
                  speaking := 61 |} initial)
    ltac:(split; discriminate) ltac:(split; discriminate)
    ltac:(split; discriminate) ltac:(split; discriminate))
    as (Haverage & _ & _ & _ & Hintegers).
  rewrite Haverage, (Hintegers 80 70 90 61)%Z by reflexivity.
  reflexivity.
Defined.

(** C9, the claim as it is stated, at three questions of which one is
    answered correctly: the module reports [(1 / 3) * 100], which is
    33.33333333333333 and neither [100 / 3] nor the number nearest to it
    (that number, 33.333333333333336, is what [100 * 1 / 3] evaluates
    to). *)
Lemma C9_counterexample_one_of_three :
  correctCount Samples.firstOptions (readingParts Samples.readingSample) = 1%nat /\
  length (allQuestions (readingParts Samples.readingSample)) = 3%nat /\
  scoreReading Samples.readingSample Samples.firstOptions
    == 2345624805922133 # 70368744177664 /\
  ~ scoreReading Samples.readingSample Samples.firstOptions == percentage 1 3 /\
  ~ scoreReading Samples.readingSample Samples.firstOptions
      == nearest (percentage 1 3) /\
  (exists q, Js.rationalOf (ratioBinary64 1 3) = Some q /\
             q == 2345624805922133 # 70368744177664).
Proof.
  split; [vm_compute; reflexivity|]. split; [vm_compute; reflexivity|].
  assert (Hs : scoreReading Samples.readingSample Samples.firstOptions
               == 2345624805922133 # 70368744177664) by (vm_compute; reflexivity).
  split; [exact Hs|]. rewrite Hs.
  split; [vm_compute; discriminate|]. split; [vm_compute; discriminate|].
  eexists. split; [vm_compute; reflexivity|]. vm_compute. reflexivity.
Qed.

(** C9, amended: for a reading or listening content with [T > 0]
    questions and any map of answers, with [C] the number of questions
    whose answer equals the correct index, the score the module reports is
    the quotient [C / T] rounded to a binary64 number, times 100, rounded
    again.  It lies in [0, 100], differs from [100 * C / T] by at most
    [2^-45], is 0 for [C = 0] and 100 for [C = T], and need not be an
    integer.  The floating-point unit delivers the same number (checked
    for up to 60 questions). *)
Theorem C9_choice_score_is_percentage
    (readingContent : ReadingTestContent) (listeningContent : ListeningTestContent)
    (answers : gmap string Z) :
  (0 < length (allQuestions (readingParts readingContent)))%nat ->
  (0 < length (allQuestions (parts listeningContent)))%nat ->
  let counted (ps : list TestPart) :=
    length (List.filter
              (fun q => bool_decide
                          (answers !! questionId q = Some (correctAnswerIndex q)))
              (concat (map questions ps))) in
  let reported (ps : list TestPart) :=
    nearest (nearest (inject_Z (Z.of_nat (counted ps)) /
                      inject_Z (Z.of_nat (length (concat (map questions ps)))))
             * 100) in
  let exact (ps : list TestPart) :=
    100 * inject_Z (Z.of_nat (counted ps)) /
    inject_Z (Z.of_nat (length (concat (map questions ps)))) in
  (scoreReading readingContent answers = reported (readingParts readingContent) /\
   scoreListening listeningContent answers =
     Some (reported (parts listeningContent))) /\
  (forall ps : list TestPart,
      (0 < length (concat (map questions ps)))%nat ->
      0 <= reported ps /\ reported ps <= 100 /\
      Qabs (reported ps - exact ps) <= 2 ^ (-45) /\
      (counted ps = 0%nat -> reported ps == 0) /\
      (counted ps = length (concat (map questions ps)) -> reported ps == 100) /\
      ((length (concat (map questions ps)) <= 60)%nat ->
       exists q,
         Js.rationalOf (ratioBinary64 (counted ps)
                          (length (concat (map questions ps)))) = Some q /\
         q == reported ps)) /\
  (exists content chosen,
      forall z : Z, ~ scoreReading content chosen == inject_Z z).
Proof.
  intros Hr Hl counted reported exact. split; [|split].
  - split.
    + unfold scoreReading. rewrite tally_parts. simpl "+"%nat.
      replace (0 <? _)%nat with true by (symmetry; now apply Nat.ltb_lt).
      reflexivity.
    + unfold scoreListening, getTotalQuestions.
      rewrite count_parts, total_parts. simpl "+"%nat.
      replace (_ =? 0)%nat with false by (symmetry; apply Nat.eqb_neq; lia).
      reflexivity.
  - intros ps Hps.
    change (counted ps) with (correctCount answers ps).
    change (concat (map questions ps)) with (allQuestions ps) in *.
    change (reported ps)
      with (ratio (correctCount answers ps) (length (allQuestions ps))).
    change (exact ps)
      with (percentage (correctCount answers ps) (length (allQuestions ps))).
    pose proof (correctCount_le answers ps) as Hle.
    destruct (ratio_bounds _ _ Hps Hle) as [H0 H100].
    split; [exact H0|]. split; [exact H100|].
    split; [now apply ratio_close|].
    split; [intros ->; apply ratio_none|].
    split; [intros ->; now apply ratio_all|].
    intros H60. apply ratio_is_machine_ratio; [lia | exact Hle].
  - exists Samples.readingSample, Samples.firstOptions. intros z.
    assert (Hs : scoreReading Samples.readingSample Samples.firstOptions
                 == 2345624805922133 # 70368744177664) by (vm_compute; reflexivity).
    rewrite Hs. unfold Qeq. simpl. lia.
Qed.

Lemma C9_choice_score_is_percentage_witness :
  scoreReading Samples.readingSample Samples.firstOptions
    == 2345624805922133 # 70368744177664 /\
  exists score,
    scoreListening Samples.listeningSample Samples.firstOptions = Some score /\
    score == 2345624805922133 # 70368744177664.
Proof.
  destruct (C9_choice_score_is_percentage Samples.readingSample
              Samples.listeningSample Samples.firstOptions)
    as [[Hr Hl] _].
  - simpl. lia.
  - simpl. lia.
  - split.
    + rewrite Hr. vm_compute. reflexivity.
    + eexists. split; [exact Hl|]. vm_compute. reflexivity.
Defined.

End ScoreFacts.

(* ===================================================================== *)
(** * Properties of the orchestrator *)
(* ===================================================================== *)

Section AppFacts.
Import Js Types Stages App.
Variable pf : Platform.

Lemma preloadingEffect_keeps (w : World) :
  state (preloadingEffect w) = state w /\
  scores (preloadingEffect w) = scores w /\
  userDetails (preloadingEffect w) = userDetails w /\
  preloadedReading (preloadingEffect w) = preloadedReading w /\
  preloadedListening (preloadingEffect w) = preloadedListening w /\
  preloadedWriting (preloadingEffect w) = preloadedWriting w /\
  preloadedSpeaking (preloadingEffect w) = preloadedSpeaking w /\
  stage (preloadingEffect w) = stage w /\
  console (preloadingEffect w) = console w.
Proof.
  unfold preloadingEffect, launch.
  repeat match goal with
         | |- context [if ?b then _ else _] => destruct b
         end; simpl; auto 10.
Qed.

Lemma render_keeps (before : AppState) (w : World) :
  state (render pf before w) = state w /\
  scores (render pf before w) = scores w /\
  userDetails (render pf before w) = userDetails w /\
  preloadedReading (render pf before w) = preloadedReading w /\
  preloadedListening (render pf before w) = preloadedListening w /\
  preloadedWriting (render pf before w) = preloadedWriting w /\
  preloadedSpeaking (render pf before w) = preloadedSpeaking w /\
  background (render pf before w) = background w.
Proof.
  unfold render. destruct (decide (state w = before)); [auto 10|].
  destruct (state w) eqn:Hstate; simpl; auto 10.
  destruct (ListeningModule.mount pf (preloadedListening w)); simpl; auto 10.
Qed.

Lemma render_same (w : World) : render pf (state w) w = w.
Proof. unfold render. now rewrite decide_True. Qed.

(** State and scores after an event are those its handler leaves. *)
Lemma step_state_scores (w : World) (ev : Event) :
  state (step pf w ev) = state (handle pf ev w) /\
  scores (step pf w ev) = scores (handle pf ev w).
Proof.
  unfold step.
  destruct (render_keeps (state w) (handle pf ev w)) as (Hs & Hsc & _).
  destruct (preloadingEffect_keeps (render pf (state w) (handle pf ev w)))
    as (Hs' & Hsc' & _).
  destruct (_ || _); split; congruence.
Qed.

Lemma preloadSettled_keeps {T} (slot : Slot) (failed : string)
    (setPreloaded : option T -> World -> World) (r : Settled T) (w : World) :
  (forall v w0, state (setPreloaded v w0) = state w0 /\
                scores (setPreloaded v w0) = scores w0) ->
  state (preloadSettled slot failed setPreloaded r w) = state w /\
  scores (preloadSettled slot failed setPreloaded r w) = scores w.
Proof.
  intros Hset. unfold preloadSettled. destruct (inFlight slot w); [|auto].
  destruct r as [data|reason]; [|auto].
  destruct (Hset (Some data) (setBackground (removeFirst slot (background w)) w))
    as [Hs Hsc].
  simpl in Hs, Hsc. split; assumption.
Qed.

Lemma propChanged_keeps (slot : Slot) (w : World) :
  state (propChanged slot w) = state w /\ scores (propChanged slot w) = scores w.
Proof.
  unfold propChanged. destruct slot, (stage w) as [[st|st|st|st]|]; auto.
Qed.

(** Settled fetches and the retry button of a stage neither move the state
    machine nor touch the score board. *)
Lemma handle_quiet (w : World) (ev : Event) :
  quiet ev = true ->
  state (handle pf ev w) = state w /\ scores (handle pf ev w) = scores w.
Proof.
  intros Hq. destruct ev; try discriminate Hq; cbn [handle].
  - destruct (stage w) as [[st|st|st|st]|]; auto;
      match goal with |- context [match ?v with _ => _ end] => destruct v end;
      auto.
  - destruct (preloadSettled_keeps ReadingSlot "BG Load Reading Failed"
                setPreloadedReading r w) as [Hs Hsc]; [auto|].
    destruct (_ && _); [|auto].
    destruct (propChanged_keeps ReadingSlot
                (preloadSettled ReadingSlot "BG Load Reading Failed"
                   setPreloadedReading r w)). split; congruence.
  - apply preloadSettled_keeps. auto.
  - destruct (preloadSettled_keeps WritingSlot "BG Load Writing Failed"
                setPreloadedWriting r w) as [Hs Hsc]; [auto|].
    destruct (_ && _); [|auto].
    destruct (propChanged_keeps WritingSlot
                (preloadSettled WritingSlot "BG Load Writing Failed"
                   setPreloadedWriting r w)). split; congruence.
  - destruct (preloadSettled_keeps SpeakingSlot "BG Load Speaking Failed"
                setPreloadedSpeaking r w) as [Hs Hsc]; [auto|].
    destruct (_ && _); [|auto].
    destruct (propChanged_keeps SpeakingSlot
                (preloadSettled SpeakingSlot "BG Load Speaking Failed"
                   setPreloadedSpeaking r w)). split; congruence.
  - destruct (stage w) as [[st|st|st|st]|]; auto.
    destruct (Loader.fetching st); auto.
  - destruct (stage w) as [[st|st|st|st]|]; auto.
  - destruct (stage w) as [[st|st|st|st]|]; auto.
  - destruct (stage w) as [[st|st|st|st]|]; auto.
    destruct (Loader.fetching st); auto.
  - destruct (stage w) as [[st|st|st|st]|]; auto.
    destruct (Loader.fetching st); auto.
Qed.

Lemma run_quiet (events : list Event) :
  forall w : World,
    Forall (fun ev => quiet ev = true) events ->
    state (run pf w events) = state w /\ scores (run pf w events) = scores w.
Proof.
  unfold run. induction events as [|ev events IH]; intros w Hq; [auto|].
  inversion Hq as [|? ? Hev Hrest]; subst. simpl.
  destruct (IH (step pf w ev) Hrest) as [Hs Hsc].
  destruct (step_state_scores w ev) as [Hs' Hsc'].
  destruct (handle_quiet w ev Hev) as [Hs'' Hsc''].
  split; congruence.
Qed.

(** A user event followed by any number of quiet ones leaves the state and
    the scores the handler of the user event produced. *)
Lemma run_then_quiet (w : World) (ev : Event) (events : list Event) :
  Forall (fun ev => quiet ev = true) events ->
  state (run pf w (ev :: events)) = state (handle pf ev w) /\
  scores (run pf w (ev :: events)) = scores (handle pf ev w).
Proof.
  intros Hq. change (run pf w (ev :: events)) with (run pf (step pf w ev) events).
  destruct (run_quiet events (step pf w ev) Hq) as [Hs Hsc].
  destruct (step_state_scores w ev) as [Hs' Hsc'].
  split; congruence.
Qed.

Lemma start_then_quiet (w : World) (events : list Event) :
  state w = HOME ->
  Forall (fun ev => quiet ev = true) events ->
  state (run pf w (ClickStart :: events)) = TEST_READING /\
  scores (run pf w (ClickStart :: events)) = scores w.
Proof.
  intros Hhome Hq. destruct (run_then_quiet w ClickStart events Hq) as [-> ->].
  cbn [handle]. now rewrite decide_True by exact Hhome.
Qed.

(** The completion callback of the module on screen stores the score in
    the field of that module and moves to the next state. *)
Lemma complete_then_quiet (module : ModuleKey) (score : Q) (w : World)
    (events : list Event) :
  state w = stateOfModule module ->
  Forall (fun ev => quiet ev = true) events ->
  state (run pf w (ModuleComplete score :: events)) = stateAfter module /\
  scores (run pf w (ModuleComplete score :: events)) =
    withScore module score (scores w).
Proof.
  intros Hstate Hq.
  destruct (run_then_quiet w (ModuleComplete score) events Hq) as [-> ->].
  cbn [handle]. rewrite Hstate. now destruct module.
Qed.

(** The handler of the restart button, from any world. *)
Lemma restart_resets (w : World) :
  state (restart w) = HOME /\ scores (restart w) = noScores /\
  userDetails (restart w) = noDetails /\ cacheEmpty (restart w).
Proof. unfold cacheEmpty. repeat split. Qed.

(** The button itself is on the results page; its click is followed by the
    render of the home page and the preloading effect, which launches a
    fetch and fills no cell. *)
Lemma click_restart_resets (w : World) :
  state w = RESULTS ->
  let w' := step pf w ClickRestart in
  state w' = HOME /\ scores w' = noScores /\ userDetails w' = noDetails /\
  cacheEmpty w' /\ stage w' = None.
Proof.
  intros Hres w'. subst w'. unfold step. cbn [handle].
  rewrite decide_True by exact Hres.
  replace (deliversValue ClickRestart w || depsChanged w _) with true.
  2:{ symmetry. apply orb_true_iff. right. unfold depsChanged.
      destruct (render_keeps (state w) (restart w)) as (-> & _).
      simpl. rewrite Hres. reflexivity. }
  destruct (preloadingEffect_keeps (render pf (state w) (restart w)))
    as (-> & -> & -> & Hr & Hl & Hw & Hs & -> & _).
  destruct (render_keeps (state w) (restart w))
    as (-> & -> & -> & Hr' & Hl' & Hw' & Hs' & _).
  unfold cacheEmpty. rewrite Hr, Hl, Hw, Hs, Hr', Hl', Hw', Hs'.
  repeat split. unfold render. simpl. rewrite Hres.
  now rewrite decide_False by discriminate.
Qed.

Lemma depsChanged_same (w w' : World) :
  state w' = state w ->
  preloadedReading w' = preloadedReading w ->
  preloadedListening w' = preloadedListening w ->
  preloadedWriting w' = preloadedWriting w ->
  preloadedSpeaking w' = preloadedSpeaking w ->
  depsChanged w w' = false.
Proof.
  unfold depsChanged. intros -> -> -> -> ->.
  rewrite bool_decide_eq_true_2 by reflexivity.
  now rewrite !Bool.eqb_reflx.
Qed.

(** The step of a rejected background fetch, in full. *)
Lemma step_preloadRejected (w : World) (slot : Slot) (reason : option Error) :
  step pf w (preloadRejected slot reason) =
  if inFlight slot w
  then log [{| label := failureLabel slot; logged := reason |}]
           (setBackground (removeFirst slot (background w)) w)
  else w.
Proof.
  assert (Hstep : forall w',
             deliversValue (preloadRejected slot reason) w = false ->
             handle pf (preloadRejected slot reason) w = w' ->
             state w' = state w ->
             preloadedReading w' = preloadedReading w ->
             preloadedListening w' = preloadedListening w ->
             preloadedWriting w' = preloadedWriting w ->
             preloadedSpeaking w' = preloadedSpeaking w ->
             step pf w (preloadRejected slot reason) = w').
  { intros w' Hd Hh Hs Hr Hl Hw Hsp. unfold step. rewrite Hd, Hh, <- Hs.
    rewrite render_same. now rewrite depsChanged_same. }
  destruct (inFlight slot w) eqn:Hin.
  - apply Hstep; try reflexivity; destruct slot; try reflexivity;
      cbn [handle preloadRejected]; unfold preloadSettled; rewrite Hin;
      try reflexivity; now rewrite andb_false_r.
  - apply Hstep; try reflexivity; destruct slot; try reflexivity;
      cbn [handle preloadRejected]; unfold preloadSettled; now rewrite Hin.
Qed.

Lemma empty_cell {A} (cell : option A) : negb (isSet cell) = true -> cell = None.
Proof. now destruct cell. Qed.

(** Entering a stage whose cell is empty mounts the module in its loading
    view with a fetch of its own outstanding. *)
Lemma enter_with_empty_cell (slot : Slot) (w : World) (ev : Event) :
  enters slot w ev -> slotEmpty slot w = true ->
  exists st,
    stage (step pf w ev) = Some st /\ stageOf slot st = true /\
    stageView st = LoadingView /\ fetchOutstanding st = true.
Proof.
  intros Henters Hempty. unfold step.
  destruct (preloadingEffect_keeps (render pf (state w) (handle pf ev w)))
    as (_ & _ & _ & _ & _ & _ & _ & Hstage & _).
  assert (Hsame : stage (if deliversValue ev w ||
                            depsChanged w (render pf (state w) (handle pf ev w))
                         then preloadingEffect
                                (render pf (state w) (handle pf ev w))
                         else render pf (state w) (handle pf ev w))
                  = stage (render pf (state w) (handle pf ev w))).
  { now destruct (_ || _). }
  rewrite Hsame. clear Hsame Hstage.
  destruct slot; simpl in Henters, Hempty; apply empty_cell in Hempty.
  - destruct Henters as [Hstate ->]. cbn [handle].
    rewrite decide_True by exact Hstate. unfold render. simpl.
    rewrite Hstate, Hempty, decide_False by discriminate.
    eexists. split; [reflexivity|]. now repeat split.
  - destruct Henters as [Hstate [score ->]]. cbn [handle]. rewrite Hstate.
    unfold render. simpl. rewrite Hempty.
    eexists. split; [reflexivity|]. now repeat split.
  - destruct Henters as [Hstate [score ->]]. cbn [handle]. rewrite Hstate.
    unfold render. simpl. rewrite Hempty.
    eexists. split; [reflexivity|]. now repeat split.
  - destruct Henters as [Hstate [score ->]]. cbn [handle]. rewrite Hstate.
    unfold render. simpl. rewrite Hempty.
    eexists. split; [reflexivity|]. now repeat split.
Qed.

End AppFacts.

Section SessionClaims.
Import Js Types Stages App.

(** C2: from the initial state Home with an all-zero score board, the start
    of the test and the scores 80, 70, 90, 60 reported by the modules in
    their order take the state through Reading, Listening, Writing and
    Speaking to DetailsForm with the score board {80, 70, 90, 60}, whatever
    fetches settle in between; the restart handler then gives Home, the
    score board {0, 0, 0, 0}, cleared user details and four empty cache
    cells, also when it is reached through the form and the results page. *)
Theorem C2_session_walk_and_restart
    (pf : Platform) (q1 q2 q3 q4 q5 : list Event) :
  Forall (fun ev => quiet ev = true) q1 ->
  Forall (fun ev => quiet ev = true) q2 ->
  Forall (fun ev => quiet ev = true) q3 ->
  Forall (fun ev => quiet ev = true) q4 ->
  Forall (fun ev => quiet ev = true) q5 ->
  let w1 := run pf initial (ClickStart :: q1) in
  let w2 := run pf w1 (ModuleComplete 80 :: q2) in
  let w3 := run pf w2 (ModuleComplete 70 :: q3) in
  let w4 := run pf w3 (ModuleComplete 90 :: q4) in
  let w5 := run pf w4 (ModuleComplete 60 :: q5) in
  (state initial = HOME /\ scores initial = noScores) /\
  (state w1 = TEST_READING /\ state w2 = TEST_LISTENING /\
   state w3 = TEST_WRITING /\ state w4 = TEST_SPEAKING /\
   state w5 = USER_DETAILS_FORM) /\
  scores w5 = {| reading := 80; listening := 70; writing := 90;
                 speaking := 60 |} /\
  (state (restart w5) = HOME /\ scores (restart w5) = noScores /\
   userDetails (restart w5) = noDetails /\ cacheEmpty (restart w5)) /\
  (forall w, state w = RESULTS ->
     state (step pf w ClickRestart) = HOME /\
     scores (step pf w ClickRestart) = noScores /\
     userDetails (step pf w ClickRestart) = noDetails /\
     cacheEmpty (step pf w ClickRestart)) /\
  (forall now,
     let w6 := run pf initial
                 [ClickStart; ModuleComplete 80; ModuleComplete 70;
                  ModuleComplete 90; ModuleComplete 60;
                  TypeName "Anna"; TypePhone "98765 01234"; SubmitForm now] in
     state w6 = RESULTS /\
     scores w6 = {| reading := 80; listening := 70; writing := 90;
                    speaking := 60 |} /\
     state (step pf w6 ClickRestart) = HOME /\
     scores (step pf w6 ClickRestart) = noScores /\
     userDetails (step pf w6 ClickRestart) = noDetails /\
     cacheEmpty (step pf w6 ClickRestart)).
Proof.
  intros H1 H2 H3 H4 H5 w1 w2 w3 w4 w5.
  destruct (start_then_quiet pf initial q1 eq_refl H1) as [Hs1 Hc1].
  destruct (complete_then_quiet pf Reading 80 w1 q2 Hs1 H2) as [Hs2 Hc2].
  destruct (complete_then_quiet pf Listening 70 w2 q3 Hs2 H3) as [Hs3 Hc3].
  destruct (complete_then_quiet pf Writing 90 w3 q4 Hs3 H4) as [Hs4 Hc4].
  destruct (complete_then_quiet pf Speaking 60 w4 q5 Hs4 H5) as [Hs5 Hc5].
  fold w1 in Hc1, Hc2. fold w2 in Hs2, Hc2, Hc3. fold w3 in Hs3, Hc3, Hc4.
  fold w4 in Hs4, Hc4, Hc5. fold w5 in Hs5, Hc5.
  rewrite Hc4, Hc3, Hc2, Hc1 in Hc5. cbn in Hc5, Hs2, Hs3, Hs4, Hs5.
  split; [split; reflexivity|].
  split; [auto 6|]. split; [exact Hc5|].
  split; [apply restart_resets|]. split.
  - intros w Hres.
    destruct (click_restart_resets pf w Hres) as (? & ? & ? & ? & _). auto.
  - intros now w6.
    assert (Hs6 : state w6 = RESULTS) by reflexivity.
    split; [exact Hs6|]. split; [reflexivity|].
    destruct (click_restart_resets pf w6 Hs6) as (? & ? & ? & ? & _). auto.
Qed.

Lemma C2_session_walk_and_restart_witness :
  let w1 := run Samples.browser initial
              [ClickStart; ReadingPreloadSettled (Fulfilled Samples.readingSample)] in
  let w2 := run Samples.browser w1 [ModuleComplete 80] in
  let w3 := run Samples.browser w2
              [ModuleComplete 70; WritingPreloadSettled (Rejected None)] in
  let w4 := run Samples.browser w3 [ModuleComplete 90] in
  let w5 := run Samples.browser w4 [ModuleComplete 60] in
  state w5 = USER_DETAILS_FORM /\
  scores w5 = {| reading := 80; listening := 70; writing := 90;
                 speaking := 60 |} /\
  state (restart w5) = HOME /\ scores (restart w5) = noScores.
Proof.
  pose proof (C2_session_walk_and_restart Samples.browser
              [ReadingPreloadSettled (Fulfilled Samples.readingSample)] []
              [WritingPreloadSettled (Rejected None)] [] []
              ltac:(repeat constructor) ltac:(repeat constructor)
              ltac:(repeat constructor) ltac:(repeat constructor)
              ltac:(repeat constructor)) as H.
  cbv zeta in H |- *.
  destruct H as (_ & (_ & _ & _ & _ & Hstate) & Hscores & (Hhome & Hzero & _) & _).
  split; [exact Hstate|]. split; [exact Hscores|]. split; assumption.
Defined.

(** C10: when a background prefetch is rejected, the failure is written to
    the console and nothing else: the cell of its slot stays empty, the
    current state, the score board, the other cells and the mounted stage -
    its error state included - are what they were; the stage of that slot,
    entered later with the cell still empty, shows its loading view and runs
    a fetch of its own. *)
Theorem C10_failed_prefetch_is_only_logged
    (pf : Platform) (w : World) (slot : Slot) (reason : option Error) :
  inFlight slot w = true ->
  let w' := step pf w (preloadRejected slot reason) in
  (console w' =
     console w ++ [{| label := failureLabel slot; logged := reason |}] /\
   background w' = removeFirst slot (background w)) /\
  (slotEmpty slot w = true -> slotEmpty slot w' = true) /\
  (state w' = state w /\ scores w' = scores w /\
   userDetails w' = userDetails w /\
   preloadedReading w' = preloadedReading w /\
   preloadedListening w' = preloadedListening w /\
   preloadedWriting w' = preloadedWriting w /\
   preloadedSpeaking w' = preloadedSpeaking w) /\
  stage w' = stage w /\
  (forall v ev,
      enters slot v ev -> slotEmpty slot v = true ->
      exists st,
        stage (step pf v ev) = Some st /\ stageOf slot st = true /\
        stageView st = LoadingView /\ fetchOutstanding st = true).
Proof.
  intros Hin w'. subst w'. rewrite step_preloadRejected, Hin.
  split; [split; reflexivity|]. split; [now destruct slot|].
  split; [repeat split|]. split; [reflexivity|].
  intros v ev. apply enter_with_empty_cell.
Qed.

Lemma C10_failed_prefetch_is_only_logged_witness :
  let busy := Some (newError "503 Service Unavailable") in
  let w' := step Samples.browser initial (ReadingPreloadSettled (Rejected busy)) in
  preloadedReading w' = None /\ state w' = HOME /\
  console w' = [{| label := "BG Load Reading Failed"; logged := busy |}] /\
  exists st,
    stage (step Samples.browser w' ClickStart) = Some (ReadingStage st) /\
    Loader.view st = LoadingView /\ Loader.fetching st = true.
Proof.
  intros busy w'.
  destruct (C10_failed_prefetch_is_only_logged Samples.browser initial
              ReadingSlot busy eq_refl)
    as ((Hlog & _) & _ & (Hstate & _ & _ & Hcell & _) & _ & Henter).
  split; [exact Hcell|]. split; [exact Hstate|]. split; [exact Hlog|].
  destruct (Henter w' ClickStart (conj Hstate eq_refl)) as (st & Hst & Hof & Hv & Hf).
  - reflexivity.
  - destruct st as [st| | |]; try discriminate Hof. now exists st.
Defined.

(** C5: when, in a listening fetch, the synthesis call of at least one part
    is rejected by the executor, the whole fetch fails: the prefetch is
    rejected and returns no content with audio parts, the stage that fetches
    for itself ends in its error view, and no audio buffer is assembled from
    the segments that were synthesized. *)
Theorem C5_listening_fetch_fails_as_a_whole
    (pf : Platform) (p : Fetchers.Provider) (testContent : ListeningTestContent) :
  Fetchers.generateListeningTestScript p = Fulfilled testContent ->
  Exists (fun call => isRejected call.2 = true)
         (Fetchers.synthesisCalls p testContent) ->
  exists e,
    Fetchers.preloadListeningTest p = Rejected (Some e) /\
    (forall w,
        preloadedListening
          (step pf w (ListeningPreloadSettled (Fetchers.preloadListeningTest p)))
        = preloadedListening w) /\
    (exists st entries,
        ListeningModule.runInitTest pf p None ListeningModule.init
          = (st, entries) /\
        ListeningModule.loadingStep st = ListeningModule.error /\
        ListeningModule.view st =
          ErrorView (messageOr e "Failed to load listening test.") /\
        ListeningModule.content st = None /\
        ListeningModule.audioBuffer st = None).
Proof.
  intros Hscript Hex.
  destruct (promiseAll_rejects _ Hex) as (at_ & reason & Hall & Hin).
  destruct (synthesis_reason p testContent at_ reason Hin) as [e ->].
  assert (Hpre : Fetchers.preloadListeningTest p = Rejected (Some e)).
  { unfold Fetchers.preloadListeningTest. now rewrite Hscript, Hall. }
  exists e. split; [exact Hpre|]. split.
  - intros w. rewrite Hpre.
    change (ListeningPreloadSettled (Rejected (Some e)))
      with (preloadRejected ListeningSlot (Some e)).
    rewrite step_preloadRejected. now destruct (inFlight ListeningSlot w).
  - eexists. eexists.
    split; [exact (runInitTest_synthesis_rejected pf p testContent e Hscript Hall)|].
    now repeat split.
Qed.

Lemma C5_listening_fetch_fails_as_a_whole_witness :
  exists e,
    Fetchers.preloadListeningTest Samples.refusesSecondPart = Rejected (Some e) /\
    exists st entries,
      ListeningModule.runInitTest Samples.browser Samples.refusesSecondPart
        None ListeningModule.init = (st, entries) /\
      ListeningModule.loadingStep st = ListeningModule.error /\
      ListeningModule.audioBuffer st = None.
Proof.
  destruct (C5_listening_fetch_fails_as_a_whole Samples.browser
              Samples.refusesSecondPart
              {| parts := parts Samples.threeParts;
                 fullScript := Fetchers.scriptOf Samples.threeParts;
                 audioBase64 := None |})
    as (e & Hpre & _ & st & entries & Hrun & Hstep & _ & _ & Hbuf).
  - reflexivity.
  - right. left. reflexivity.
  - exists e. split; [exact Hpre|]. exists st, entries. auto.
Defined.

End SessionClaims.

Section ExecutorMore.
Import Js Executor.

Context {T : Type} (operation : nat -> Outcome T).
Variables (retries : nat) (baseDelay : Z).

(** Every way out of the loop, from iteration [i] on: [k] transient
    failures with their delays, then one more invocation that decides. *)
Lemma retryLoop_outcome (remaining : nat) :
  forall (i : nat) (lastError : option Error) (w : World)
         (r : Settled T) (w' : World),
    i + remaining = retries -> 0 < remaining ->
    retryLoop operation retries baseDelay remaining i lastError w = (r, w') ->
    exists k,
      k < remaining /\
      w' = w ++ flat_map (fun j => [Invoked; Slept (baseDelay * 2 ^ Z.of_nat j)%Z])
                         (seq i k) ++ [Invoked] /\
      (forall j, j < k -> failsTransiently (operation (invocations w + j))) /\
      match r with
      | Fulfilled v => operation (invocations w + k) = Resolve v
      | Rejected reason =>
          exists e, reason = Some e /\
                    operation (invocations w + k) = Throw e /\
                    (isTransient e = false \/ i + k = retries - 1)
      end.
Proof.
  induction remaining as [|remaining IH]; intros i lastError w r w' Hsum Hpos;
    [lia|].
  simpl. unfold bind, invoke.
  destruct (operation (invocations w)) as [v|error] eqn:Hop.
  - unfold ret. intros [= <- <-]. exists 0. simpl.
    rewrite Nat.add_0_r. repeat split; [lia | intros j Hj; lia | exact Hop].
  - destruct (isTransient error) eqn:Htr; simpl.
    + destruct (Z.of_nat i <? Z.of_nat retries - 1)%Z eqn:Hlast.
      * unfold bind, sleep. simpl. intros Hrun.
        apply Z.ltb_lt in Hlast.
        apply IH in Hrun as (k & Hk & -> & Hfail & Hres); [|lia|lia].
        exists (S k). split; [lia|]. split.
        { simpl. now rewrite <- !app_assoc. }
        assert (Hinv : forall d, invocations ((w ++ [Invoked]) ++ [Slept d])
                                 = invocations w + 1).
        { intros d. rewrite !invocations_app. simpl. lia. }
        rewrite Hinv in Hfail, Hres.
        split.
        { intros [|j] Hj.
          - rewrite Nat.add_0_r. now exists error.
          - replace (invocations w + S j) with (invocations w + 1 + j) by lia.
            apply Hfail. lia. }
        replace (invocations w + S k) with (invocations w + 1 + k) by lia.
        destruct r as [v|reason]; [exact Hres|].
        destruct Hres as (e & -> & Hthrow & Hwhy). exists e.
        split; [reflexivity|]. split; [exact Hthrow|].
        destruct Hwhy; [now left | right; lia].
      * unfold ret. intros [= <- <-]. apply Z.ltb_ge in Hlast. exists 0. simpl.
        rewrite Nat.add_0_r. repeat split; [lia | intros j Hj; lia |].
        exists error. repeat split; [exact Hop | right; lia].
    + unfold ret. intros [= <- <-]. exists 0. simpl.
      rewrite Nat.add_0_r. repeat split; [lia | intros j Hj; lia |].
      exists error. repeat split; [exact Hop | now left].
Qed.

Lemma runWithRetry_outcome (w : World) (r : Settled T) (w' : World) :
  0 < retries ->
  runWithRetry operation retries baseDelay w = (r, w') ->
  exists k,
    k < retries /\
    w' = w ++ retried baseDelay k ++ [Invoked] /\
    (forall j, j < k -> failsTransiently (operation (invocations w + j))) /\
    match r with
    | Fulfilled v => operation (invocations w + k) = Resolve v
    | Rejected reason =>
        exists e, reason = Some e /\
                  operation (invocations w + k) = Throw e /\
                  (isTransient e = false \/ k = retries - 1)
    end.
Proof.
  intros Hpos Hrun. unfold runWithRetry in Hrun.
  apply retryLoop_outcome in Hrun as (k & Hk & Hw & Hfail & Hres); [|lia|lia].
  exists k. repeat split; try assumption.
Qed.

End ExecutorMore.

Section ExecutorProperties.
Import Js Executor.

(** X1: whatever the operation does, a run with at least one attempt
    invokes it between one and [retries] times, sleeps exactly once between
    two consecutive invocations - the delays being the first ones of the
    backoff sequence - and never after the last one; with a base delay that
    is not negative it sleeps at most [baseDelay * (2^(retries-1) - 1)] in
    total. *)
Theorem X1_runWithRetry_is_bounded
    {T : Type} (operation : nat -> Outcome T) (retries : nat) (baseDelay : Z)
    (w : World) :
  0 < retries ->
  exists k,
    k < retries /\
    snd (runWithRetry operation retries baseDelay w)
      = w ++ retried baseDelay k ++ [Invoked] /\
    invocations (snd (runWithRetry operation retries baseDelay w))
      = invocations w + (k + 1) /\
    sleeps (snd (runWithRetry operation retries baseDelay w))
      = sleeps w ++ backoffDelays baseDelay k /\
    ((0 <= baseDelay)%Z ->
     (totalSleep (snd (runWithRetry operation retries baseDelay w))
      <= totalSleep w + baseDelay * (2 ^ Z.of_nat (retries - 1) - 1))%Z).
Proof.
  intros Hpos.
  destruct (runWithRetry operation retries baseDelay w) as [r w'] eqn:Hrun.
  destruct (runWithRetry_outcome operation retries baseDelay w r w' Hpos Hrun)
    as (k & Hk & -> & _).
  exists k. simpl. split; [exact Hk|]. split; [reflexivity|].
  split; [apply trace_invocations|]. split; [apply trace_sleeps|].
  intros Hbase. rewrite trace_totalSleep, sum_backoffDelays.
  assert (2 ^ Z.of_nat k <= 2 ^ Z.of_nat (retries - 1))%Z
    by (apply Z.pow_le_mono_r; lia).
  nia.
Qed.

Lemma X1_runWithRetry_is_bounded_witness :
  exists k,
    k < 3 /\
    invocations (snd (runWithRetry
                        (fun n => nth n [Throw (newError "quota exceeded")]
                                        (Resolve 7%nat)) 3 1500 []))
    = k + 1.
Proof.
  destruct (X1_runWithRetry_is_bounded
              (fun n => nth n [Throw (newError "quota exceeded")] (Resolve 7%nat))
              3 1500 [] ltac:(lia)) as (k & Hk & _ & Hinv & _).
  exists k. split; [exact Hk | exact Hinv].
Defined.

(** X2: what comes out of a run is what the last invocation produced: a
    fulfilled run returns the value of an attempt all of whose predecessors
    threw transient errors; a rejected run carries the error thrown by its
    last attempt, which was either classified permanent or was attempt
    number [retries]. *)
Theorem X2_runWithRetry_returns_last_attempt
    {T : Type} (operation : nat -> Outcome T) (retries : nat) (baseDelay : Z)
    (w : World) (r : Settled T) :
  0 < retries ->
  fst (runWithRetry operation retries baseDelay w) = r ->
  exists k,
    k < retries /\
    (forall j, j < k -> failsTransiently (operation (invocations w + j))) /\
    match r with
    | Fulfilled v => operation (invocations w + k) = Resolve v
    | Rejected reason =>
        exists e, reason = Some e /\
                  operation (invocations w + k) = Throw e /\
                  (isTransient e = false \/ k = retries - 1)
    end.
Proof.
  intros Hpos Hfst.
  destruct (runWithRetry operation retries baseDelay w) as [r0 w'] eqn:Hrun.
  simpl in Hfst. subst r0.
  destruct (runWithRetry_outcome operation retries baseDelay w r w' Hpos Hrun)
    as (k & Hk & _ & Hfail & Hres).
  exists k. auto.
Qed.

Lemma X2_runWithRetry_returns_last_attempt_witness :
  exists k,
    k < 3 /\
    nth k [Throw (newError "quota exceeded")] (Resolve 7%nat) = Resolve 7%nat.
Proof.
  destruct (X2_runWithRetry_returns_last_attempt
              (fun n => nth n [Throw (newError "quota exceeded")] (Resolve 7%nat))
              3 1500 [] (Fulfilled 7%nat) ltac:(lia) eq_refl)
    as (k & Hk & _ & Hres).
  exists k. split; [exact Hk | exact Hres].
Defined.

End ExecutorProperties.

Section TrackFacts.
Import Audio Track.

Lemma int16View_app (a b : Bytes) :
  Nat.even (length a) = true ->
  int16View (a ++ b) =
  va ← int16View a; vb ← int16View b; Some (va ++ vb).
Proof.
  intros Heven.
  assert (H : forall n (a : Bytes), length a < n ->
             Nat.even (length a) = true ->
             int16View (a ++ b) =
             va ← int16View a; vb ← int16View b; Some (va ++ vb)).
  { clear a Heven. induction n as [|n IH]; intros a Hn Heven; [lia|].
    destruct a as [|lo [|hi a]].
    - simpl. now destruct (int16View b).
    - discriminate Heven.
    - change (int16View ((lo :: hi :: a) ++ b))
        with (cons (int16 lo hi) <$> int16View (a ++ b)).
      rewrite (IH a) by (simpl in *; first [lia | assumption]).
      simpl. destruct (int16View a) as [va|]; [|reflexivity]. simpl.
      now destruct (int16View b). }
  apply (H (S (length a))); [lia | exact Heven].
Qed.

Lemma int16View_silence (k : nat) :
  int16View (replicate (k * 2) x00) = Some (replicate k 0%Z).
Proof.
  induction k as [|k IH]; [reflexivity|].
  change (S k * 2) with (S (S (k * 2))). simpl replicate.
  change (int16View (x00 :: x00 :: replicate (k * 2) x00))
    with (cons (int16 x00 x00) <$> int16View (replicate (k * 2) x00)).
  now rewrite IH.
Qed.

(** Segments of even length keep the sample grid aligned. *)
Lemma int16View_interleaved (segments : list Bytes) (views : list (list Z))
    (k : nat) :
  Forall (fun seg => Nat.even (length seg) = true) segments ->
  mapM int16View segments = Some views ->
  int16View (interleaved segments (k * 2)) = Some (joined views k).
Proof.
  revert views. induction segments as [|seg rest IH]; intros views Heven Hviews.
  - injection Hviews as <-. reflexivity.
  - inversion Heven as [|? ? Hseg Hrest]; subst.
    simpl in Hviews.
    destruct (int16View seg) as [view|] eqn:Hview; [|discriminate].
    destruct (mapM int16View rest) as [views'|] eqn:Hrestv; [|discriminate].
    simpl in Hviews. injection Hviews as <-.
    destruct rest as [|seg' rest].
    + injection Hrestv as <-. simpl. exact Hview.
    + rewrite interleaved_cons by discriminate.
      rewrite int16View_app, Hview by exact Hseg. cbn [mbind option_bind].
      rewrite int16View_app by (rewrite length_replicate, Nat.mul_comm;
                                apply Nat.even_even).
      rewrite int16View_silence. cbn [mbind option_bind].
      rewrite (IH views') by (assumption || reflexivity).
      cbn [mbind option_bind].
      destruct views' as [|view' views']; [|reflexivity].
      simpl in Hrestv. destruct (int16View seg'); [|discriminate].
      destruct (mapM int16View rest); discriminate.
Qed.

Lemma mapM_int16View_even (segments : list Bytes) :
  Forall (fun seg => Nat.even (length seg) = true) segments ->
  exists views, mapM int16View segments = Some views.
Proof.
  induction 1 as [|seg rest Hseg _ [views IH]]; [now exists []|].
  destruct (proj1 (int16View_parity seg) Hseg) as (view & Hview & _).
  exists (view :: views). simpl. now rewrite Hview, IH.
Qed.

Lemma int16View_range (data : Bytes) (view : list Z) :
  int16View data = Some view ->
  Forall (fun z => (-32768 <= z <= 32767)%Z) view.
Proof.
  assert (H : forall n (data : Bytes) view, length data < n ->
             int16View data = Some view ->
             Forall (fun z => (-32768 <= z <= 32767)%Z) view).
  { induction n as [|n IH]; intros d v Hn Hv; [lia|].
    destruct d as [|lo [|hi d]].
    - injection Hv as <-. constructor.
    - discriminate.
    - simpl in Hv. destruct (int16View d) as [v'|] eqn:Hd; [|discriminate].
      injection Hv as <-. constructor; [apply int16_range|].
      apply (IH d); [simpl in Hn; lia | exact Hd]. }
  intros Hv. apply (H (S (length data)) data view); [lia | exact Hv].
Qed.

Lemma normalize_range (z : Z) :
  (-32768 <= z <= 32767)%Z -> inUnitRange (normalize z).
Proof.
  intros Hz. unfold inUnitRange, normalize.
  assert (H1 : (inject_Z (-32768) <= inject_Z z)%Q) by (rewrite <- Zle_Qle; lia).
  assert (H2 : (inject_Z z < inject_Z 32768)%Q) by (rewrite <- Zlt_Qlt; lia).
  change (inject_Z (-32768)) with (-32768)%Q in H1.
  change (inject_Z 32768) with 32768%Q in H2.
  unfold Qdiv. change (/ 32768)%Q with (1 # 32768)%Q. split; lra.
Qed.

End TrackFacts.

Section TrackProperties.
Import Audio Track.

(** X3: when every segment has an even number of bytes and the track is
    not empty, the assembly at a rate that the audio context supports
    returns the samples of the segments, in their order, with [s * r]
    samples of value 0 - [s] seconds at rate [r] - between two neighbours:
    the silence decodes to exact zeros and the sample grid of no segment is
    shifted.  At a rate that the context does not support the assembly
    fails with the [NotSupportedError] of [createBuffer]. *)
Theorem X3_track_is_segments_joined_by_silence
    (segments : list Bytes) (ctx : AudioContext) (s r : nat) :
  Forall (fun seg => Nat.even (length seg) = true) segments ->
  0 < sum_list (map length segments) + (length segments - 1) * (s * r * 2) ->
  exists views,
    mapM int16View segments = Some views /\
    assemble segments ctx s r =
      if supports ctx 1 r
      then inr {| bufferSampleRate := r;
                  channels := [map normalize (joined views (s * r))] |}
      else inl NotSupportedError.
Proof.
  intros Heven Hpos.
  destruct (mapM_int16View_even segments Heven) as [views Hviews].
  exists views. split; [exact Hviews|].
  rewrite assemble_decodes, decodeAudioData_mono. cbn [arrayBuffer ownBuffer].
  rewrite (int16View_interleaved segments views (s * r) Heven Hviews).
  destruct (joined views (s * r)) as [|z track] eqn:Hjoined; [|reflexivity].
  exfalso.
  destruct (proj1 (int16View_parity (interleaved segments (s * r * 2))))
    as (view & Hview & Hlen).
  - rewrite even_total.
    clear -Heven. induction Heven as [|seg rest Hseg _ IH]; [reflexivity|].
    simpl. now rewrite Nat.even_add, Hseg, IH.
  - rewrite (int16View_interleaved segments views (s * r) Heven Hviews) in Hview.
    injection Hview as <-. rewrite Hjoined, length_interleaved in Hlen.
    simpl in Hlen. lia.
Qed.

Lemma X3_track_is_segments_joined_by_silence_witness :
  assemble [[x00; x80]; [xff; x7f]] (Stages.webAudio Samples.browser)
           2 defaultSampleRate =
  inr {| bufferSampleRate := defaultSampleRate;
         channels :=
           [map normalize
                (joined [[(-32768)%Z]; [32767%Z]] (2 * defaultSampleRate))] |}.
Proof.
  destruct (X3_track_is_segments_joined_by_silence
              [[x00; x80]; [xff; x7f]] (Stages.webAudio Samples.browser)
              2 defaultSampleRate)
    as (views & Hviews & Hrun).
  - repeat constructor.
  - apply Nat.add_pos_l. cbn. lia.
  - injection Hviews as <-.
    replace (supports (Stages.webAudio Samples.browser) 1 defaultSampleRate)
      with true in Hrun by (symmetry; vm_compute; reflexivity).
    exact Hrun.
Defined.

(** X4: [decodeAudioData] returns a buffer only for a number of channels
    above zero and a sample rate that the audio context supports.  The
    buffer has the rate and as many channels as it was asked for; each
    channel has [(bytes / 2) / numChannels] frames, where the bytes are
    those of the whole buffer behind the array handed in, whatever window
    the array shows; and every sample lies in [-1, 1). *)
Theorem X4_decoded_samples_in_unit_range
    (data : Uint8Array) (ctx : AudioContext) (sampleRate numChannels : nat)
    (buffer : AudioBuffer) :
  decodeAudioData data ctx sampleRate numChannels = inr buffer ->
  (0 < numChannels /\ supports ctx numChannels sampleRate = true) /\
  bufferSampleRate buffer = sampleRate /\
  length (channels buffer) = numChannels /\
  Forall (fun channel =>
            length channel = length (arrayBuffer data) / 2 / numChannels /\
            0 < length channel /\
            Forall inUnitRange channel)
         (channels buffer).
Proof.
  unfold decodeAudioData, newInt16Array.
  destruct (int16View (arrayBuffer data)) as [view|] eqn:Hview; [|discriminate].
  destruct (_ || _) eqn:Hrefused; [discriminate|]. intros [= <-].
  apply orb_false_iff in Hrefused as [Hrefused Hsupported].
  apply orb_false_iff in Hrefused as [Hchannels Hframes].
  apply Nat.eqb_neq in Hchannels, Hframes.
  apply negb_false_iff in Hsupported.
  cbn [channels bufferSampleRate].
  pose proof (int16View_range (arrayBuffer data) view Hview) as Hrange.
  assert (Hlen : length (arrayBuffer data) / 2 = length view).
  { destruct (Nat.even (length (arrayBuffer data))) eqn:Hp.
    - destruct (proj1 (int16View_parity (arrayBuffer data)) Hp) as (v & Hv & ->).
      rewrite Hview in Hv. injection Hv as <-.
      now rewrite Nat.mul_comm, Nat.div_mul.
    - rewrite (proj2 (int16View_parity (arrayBuffer data)) Hp) in Hview.
      discriminate. }
  split; [split; [lia | exact Hsupported]|].
  split; [reflexivity|]. split; [now rewrite length_map, length_seq|].
  apply Forall_map, Forall_forall. intros channel _. unfold channelData.
  split; [now rewrite length_map, length_seq, Hlen|].
  split; [rewrite length_map, length_seq; lia|].
  apply Forall_map, Forall_forall. intros i _.
  destruct (nth_in_or_default (i * numChannels + channel) view 0%Z) as [Hin| ->].
  - apply normalize_range. rewrite Forall_forall in Hrange.
    apply Hrange. now apply list_elem_of_In.
  - apply normalize_range. lia.
Qed.

Lemma X4_decoded_samples_in_unit_range_witness :
  let window := {| arrayBuffer := [x00; x80; xff; x7f];
                   byteOffset := 2; byteLength := 2 |} in
  decodeAudioData window (Stages.webAudio Samples.browser) defaultSampleRate 2 =
    inr {| bufferSampleRate := defaultSampleRate;
           channels := [[normalize (-32768)]; [normalize 32767]] |} /\
  Forall (fun channel =>
            length channel = length (arrayBuffer window) / 2 / 2 /\
            0 < length channel /\
            Forall inUnitRange channel)
         [[normalize (-32768)]; [normalize 32767]].
Proof.
  intros window.
  assert (Hrun : forall rate,
             supports (Stages.webAudio Samples.browser) 2 rate = true ->
             decodeAudioData window (Stages.webAudio Samples.browser) rate 2 =
             inr {| bufferSampleRate := rate;
                    channels := [[normalize (-32768)]; [normalize 32767]] |}).
  { intros rate Hsupported. unfold decodeAudioData.
    rewrite Hsupported. reflexivity. }
  specialize (Hrun defaultSampleRate ltac:(vm_compute; reflexivity)).
  split; [exact Hrun|].
  apply (proj2 (proj2 (proj2 (X4_decoded_samples_in_unit_range
                                window (Stages.webAudio Samples.browser)
                                defaultSampleRate 2 _ Hrun)))).
Defined.

End TrackProperties.

(* ===================================================================== *)
(** * Properties of the listening prefetch *)
(* ===================================================================== *)

Section FetchMore.

Import Js Executor Types Fetchers Calls.

Lemma generateAudioFromScript_operation (p : Provider) (index : nat)
    (script : string) :
  generateAudioFromScript p index script =
  fst (execute (audioOperation p index script) fresh).
Proof. reflexivity. Qed.

Lemma synthesisCalls_spokenText (p : Provider) (c : ListeningTestContent) :
  synthesisCalls p c =
  imap (fun index part =>
          (audioSettledAt p index,
           generateAudioFromScript p index (spokenText index part)))
       (parts c).
Proof. reflexivity. Qed.

(** What [execute] fulfils with is what some attempt resolved with. *)
Lemma execute_fulfilled {T} (operation : nat -> Outcome T) (v : T) :
  fst (execute operation fresh) = Fulfilled v ->
  exists k, k < defaultRetries /\ operation k = Resolve v.
Proof.
  intros H. unfold execute in H.
  destruct (runWithRetry operation defaultRetries defaultBaseDelay fresh)
    as [r w'] eqn:Hrun.
  simpl in H. subst r.
  apply runWithRetry_outcome in Hrun; [|unfold defaultRetries; lia].
  destruct Hrun as (k & Hk & _ & _ & Hop). exists k. split; [exact Hk|].
  exact Hop.
Qed.

Lemma generateAudioFromScript_nonempty (p : Provider) (index : nat)
    (script a : string) :
  generateAudioFromScript p index script = Fulfilled a -> a <> "".
Proof.
  rewrite generateAudioFromScript_operation. intros H.
  apply execute_fulfilled in H. destruct H as (k & _ & Hop).
  unfold audioOperation in Hop.
  destruct (audioResponse p index script k) as [[[|c s]|]|e];
    try discriminate.
  injection Hop as <-. discriminate.
Qed.

(** [Promise.all] is fulfilled exactly when every promise is, with the
    values in the order of the list. *)
Lemma firstRejection_none {T} (promises : list (nat * Settled T)) :
  firstRejection promises = None <->
  map snd promises = map Fulfilled (fulfilledValues promises).
Proof.
  induction promises as [|[t [v|reason]] rest IH]; simpl.
  - tauto.
  - split; [intros H; apply IH in H; now rewrite H|].
    intros H. apply IH. congruence.
  - split; [|destruct (fulfilledValues rest); discriminate].
    destruct (firstRejection rest) as [[t' r']|]; [|discriminate].
    destruct (t' <? t); discriminate.
Qed.

Lemma promiseAll_fulfilled {T} (ps : list (nat * Settled T)) (vs : list T) :
  promiseAll ps = Fulfilled vs -> map snd ps = map Fulfilled vs.
Proof.
  unfold promiseAll.
  destruct (firstRejection ps) as [[t r]|] eqn:Hps; [discriminate|].
  intros H. injection H as <-. now apply firstRejection_none.
Qed.

Lemma scriptOf_parts (a b : ListeningTestContent) :
  parts a = parts b -> scriptOf a = scriptOf b.
Proof. unfold scriptOf. now intros ->. Qed.

End FetchMore.

Section FetchProperties.

Import Js Executor Types Fetchers Calls.

(** X6.  A fulfilled listening prefetch carries the script joined from its
    own parts and one audio payload per part, in the order of the parts:
    the payload at a position is what the synthesis call for the part at
    that position was fulfilled with for the announced text, and it is
    never empty. *)
Theorem X6_prefetch_delivers_audio_per_part
    (p : Provider) (r : ListeningPreload)
    (Hdone : preloadListeningTest p = Fulfilled r) :
  fullScript (content r) = scriptOf (content r) /\
  length (audioParts r) = length (parts (content r)) /\
  forall i part,
    parts (content r) !! i = Some part ->
    exists a, audioParts r !! i = Some a /\ a <> "" /\
              generateAudioFromScript p i (spokenText i part) = Fulfilled a.
Proof.
  unfold preloadListeningTest in Hdone.
  destruct (generateListeningTestScript p) as [c|reason] eqn:Hscript;
    [|discriminate].
  destruct (promiseAll (synthesisCalls p c)) as [vs|reason] eqn:Hall;
    [|discriminate].
  injection Hdone as <-. cbn [content audioParts].
  apply promiseAll_fulfilled in Hall.
  rewrite synthesisCalls_spokenText, fmap_imap in Hall.
  split; [|split].
  - unfold generateListeningTestScript in Hscript.
    apply execute_fulfilled in Hscript. destruct Hscript as (k & _ & Hop).
    destruct (scriptResponse p k) as [data|e]; [|discriminate].
    injection Hop as <-. reflexivity.
  - apply (f_equal length) in Hall.
    rewrite length_imap, length_fmap in Hall. now symmetry.
  - intros i part Hpart.
    apply (f_equal (fun l => l !! i)) in Hall.
    rewrite list_lookup_imap, Hpart, list_lookup_fmap in Hall.
    cbn in Hall.
    destruct (vs !! i) as [a|]; [|discriminate].
    injection Hall as Ha. exists a. split; [reflexivity|]. split; [|exact Ha].
    now apply generateAudioFromScript_nonempty in Ha.
Qed.

Lemma X6_prefetch_delivers_audio_per_part_witness :
  exists r,
    preloadListeningTest Cases.deliversAll = Fulfilled r /\
    fullScript (content r) = scriptOf (content r) /\
    length (audioParts r) = length (parts (content r)) /\
    forall i part,
      parts (content r) !! i = Some part ->
      exists a, audioParts r !! i = Some a /\ a <> "" /\
                generateAudioFromScript Cases.deliversAll i (spokenText i part) =
                Fulfilled a.
Proof.
  eexists. split; [reflexivity|].
  apply (X6_prefetch_delivers_audio_per_part Cases.deliversAll). reflexivity.
Defined.

(** X7.  A speech response without audio data (absent or empty) makes the
    operation throw "No audio data"; the executor does not take that for a
    transient failure, so the call is rejected with it after a single
    attempt and without any pause. *)
Theorem X7_missing_audio_is_not_retried
    (p : Provider) (index : nat) (script : string)
    (Hnone : audioResponse p index script 0 = Resolve None \/
             audioResponse p index script 0 = Resolve (Some "")) :
  generateAudioFromScript p index script =
    Rejected (Some (newError "No audio data")) /\
  snd (execute (audioOperation p index script) fresh) = [Invoked].
Proof.
  rewrite generateAudioFromScript_operation. unfold execute.
  rewrite (runWithRetry_permanent (audioOperation p index script)
             defaultRetries defaultBaseDelay 0 (newError "No audio data")
             fresh).
  - split; reflexivity.
  - unfold defaultRetries. lia.
  - intros j Hj. lia.
  - split; [|reflexivity].
    change (invocations fresh + 0) with 0. unfold audioOperation.
    destruct Hnone as [-> | ->]; reflexivity.
Qed.

Lemma X7_missing_audio_is_not_retried_witness :
  generateAudioFromScript Cases.silent 0 "Teil 1" =
    Rejected (Some (newError "No audio data")) /\
  snd (execute (audioOperation Cases.silent 0 "Teil 1") fresh) = [Invoked].
Proof.
  apply (X7_missing_audio_is_not_retried Cases.silent 0 "Teil 1").
  left. reflexivity.
Defined.

End FetchProperties.

(* ===================================================================== *)
(** * Properties of [cleanJson] *)
(* ===================================================================== *)

Section CleanJsonFacts.

Import Js Stages Calls.

Lemma spaceAt_head (c : ascii) (s : string) :
  spaceAt (String c s) = 0 -> isSpace c = false.
Proof.
  unfold spaceAt. destruct (isSpace c); [discriminate | reflexivity].
Qed.

Lemma length_skipSpaces (s : string) (skip : nat) :
  String.length (skipSpaces skip s) <= String.length s.
Proof.
  revert skip. induction s as [|c s IH]; intros skip; [simpl; lia|].
  cbn [skipSpaces]. destruct skip as [|k].
  - destruct (spaceAt (String c s)) as [|k]; [lia|].
    specialize (IH k). cbn [String.length]. lia.
  - specialize (IH k). cbn [String.length]. lia.
Qed.

Lemma length_trimStart (s : string) :
  String.length (trimStart s) <= String.length s.
Proof. apply length_skipSpaces. Qed.

Lemma length_trimEnd (s : string) :
  String.length (trimEnd s) <= String.length s.
Proof.
  induction s as [|c s IH]; [simpl; lia|].
  cbn [trimEnd]. destruct (onlySpaces 0 (String c s)); cbn [String.length]; lia.
Qed.

(** A text that [trimStart] leaves alone starts with no white space. *)
Lemma trimStart_head (c : ascii) (s : string) :
  trimStart (String c s) = String c s -> spaceAt (String c s) = 0.
Proof.
  unfold trimStart. cbn [skipSpaces].
  destruct (spaceAt (String c s)) as [|k]; [reflexivity|].
  intros H. apply (f_equal String.length) in H. cbn [String.length] in H.
  pose proof (length_skipSpaces s k). lia.
Qed.

(** A text that [trim] leaves alone has no white space at either end. *)
Lemma trim_fixed (s : string) :
  trim s = s -> trimStart s = s /\ trimEnd s = s.
Proof.
  unfold trim. intros H.
  assert (Hstart : trimStart s = s).
  { destruct s as [|c s]; [reflexivity|].
    unfold trimStart in *. cbn [skipSpaces] in *.
    destruct (spaceAt (String c s)) as [|k]; [reflexivity|].
    apply (f_equal String.length) in H. cbn [String.length] in H.
    pose proof (length_trimEnd (skipSpaces k s)).
    pose proof (length_skipSpaces s k). lia. }
  split; [exact Hstart|]. now rewrite Hstart in H.
Qed.

Lemma trimEnd_tail (c : ascii) (s : string) :
  trimEnd (String c s) = String c s ->
  onlySpaces 0 (String c s) = false /\ trimEnd s = s.
Proof.
  cbn [trimEnd]. destruct (onlySpaces 0 (String c s)); [discriminate|].
  intros H. injection H as H. now split.
Qed.

(** A text of one character that [trimEnd] leaves alone does not consist
    of a white space. *)
Lemma trimEnd_single (c : ascii) :
  trimEnd (String c "") = String c "" -> isSpace c = false.
Proof.
  intros H. destruct (trimEnd_tail c "" H) as [Hspaces _].
  cbn [onlySpaces] in Hspaces.
  destruct (spaceAt (String c "")) eqn:Hat; [now apply (spaceAt_head c "")|].
  unfold spaceAt in Hat. destruct (isSpace c) eqn:Hc; [|reflexivity].
  injection Hat as <-. discriminate.
Qed.

Lemma not_newline (c : ascii) : isSpace c = false -> Ascii.eqb c newline = false.
Proof.
  intros H. destruct (Ascii.eqb c newline) eqn:E; [|reflexivity].
  apply Ascii.eqb_eq in E. subst c. discriminate.
Qed.

(** [trim] takes every white space of ECMAScript off both ends, the
    no-break space, the byte order mark and the line separators among
    them, and leaves the ones inside. *)
Lemma trim_unicodeSpaces :
  forallb (fun space =>
             String.eqb (trim (space +:+ "a" +:+ space +:+ "b" +:+ space))
                        ("a" +:+ space +:+ "b") &&
             String.eqb (trim (space +:+ space)) "")
          (" " :: String newline "" :: unicodeSpaces) = true.
Proof. vm_compute. reflexivity. Qed.

Lemma startsWith_other (c p : ascii) (s prefix : string) :
  Ascii.eqb c p = false -> startsWith (String c s) (String p prefix) = false.
Proof.
  intros H. cbn [startsWith]. now rewrite Ascii.eqb_sym, H.
Qed.

Lemma plain_head (c : ascii) (s : string) :
  noBacktick (String c s) = true ->
  Ascii.eqb c backtick = false /\ noBacktick s = true.
Proof.
  cbn [noBacktick]. intros H. apply andb_true_iff in H.
  destruct H as [Hc Hs]. now apply negb_true_iff in Hc.
Qed.

Lemma fenceAt_plain (c : ascii) (s : string) :
  Ascii.eqb c backtick = false ->
  fenceAt (String c s) =
  if Ascii.eqb c newline && startsWith s "```" then 4 else 0.
Proof.
  intros Hc. unfold fenceAt.
  assert (H1 : startsWith (String c s) "```json" = false)
    by now apply startsWith_other.
  assert (H3 : startsWith (String c s) "```" = false)
    by now apply startsWith_other.
  rewrite H1, H3.
  change (startsWith (String c s) (String newline "```"))
    with (if Ascii.eqb newline c then startsWith s "```" else false).
  rewrite (Ascii.eqb_sym newline c).
  destruct (Ascii.eqb c newline); [|reflexivity].
  destruct (startsWith s "```"); reflexivity.
Qed.

Lemma startsWith_fence_plain (s tail : string) (c : ascii) :
  noBacktick s = true -> Ascii.eqb c backtick = false ->
  startsWith (s +:+ String c tail) "```" = false.
Proof.
  intros Hs Hc. destruct s as [|d s].
  - now apply startsWith_other.
  - apply plain_head in Hs. destruct Hs as [Hd _].
    now apply startsWith_other.
Qed.

(** Without a backtick there is nothing to remove. *)
Lemma removeFences_plain (s : string) :
  noBacktick s = true -> removeFences 0 s = s.
Proof.
  induction s as [|c s IH]; [reflexivity|].
  intros H. apply plain_head in H. destruct H as [Hc Hs].
  cbn [removeFences]. rewrite (fenceAt_plain c s Hc).
  assert (Hno : startsWith s "```" = false).
  { destruct s as [|d s]; [reflexivity|].
    apply plain_head in Hs. destruct Hs as [Hd _].
    now apply startsWith_other. }
  rewrite Hno, andb_false_r. now rewrite IH.
Qed.

(** A closing fence on a line of its own goes together with its line
    feed. *)
Lemma removeFences_closing_line (s : string) :
  noBacktick s = true ->
  removeFences 0 (s +:+ String newline "```") = s.
Proof.
  induction s as [|c s IH]; [reflexivity|].
  intros H. apply plain_head in H. destruct H as [Hc Hs].
  change (String c s +:+ String newline "```")
    with (String c (s +:+ String newline "```")).
  cbn [removeFences]. rewrite (fenceAt_plain c _ Hc).
  rewrite (startsWith_fence_plain s "```" newline Hs eq_refl).
  rewrite andb_false_r. now rewrite IH.
Qed.

(** A closing fence right behind the text goes alone, as the text does not
    end in a line feed. *)
Lemma removeFences_closing (s : string) :
  noBacktick s = true -> trimEnd s = s ->
  removeFences 0 (s +:+ "```") = s.
Proof.
  induction s as [|c s IH]; [reflexivity|].
  intros H Hend. apply plain_head in H. destruct H as [Hc Hs].
  change (String c s +:+ "```") with (String c (s +:+ "```")).
  cbn [removeFences]. rewrite (fenceAt_plain c _ Hc).
  destruct s as [|d s].
  - rewrite (not_newline c (trimEnd_single c Hend)). reflexivity.
  - destruct (trimEnd_tail c _ Hend) as [_ Hend'].
    assert (Hno : startsWith (String d s +:+ "```") "```" = false).
    { pose proof (plain_head _ _ Hs) as [Hd _].
      now apply startsWith_other. }
    rewrite Hno, andb_false_r. now rewrite (IH Hs Hend').
Qed.

End CleanJsonFacts.

Section CleanJsonProperties.

Import Js Stages Calls.

(** X8.  [cleanJson] strips the Markdown fence a model puts around its
    JSON: for a text without backticks and without white space at its ends,
    the text itself, the text in a fence with line feeds and the text in a
    fence without them all clean to the text. *)
Theorem X8_cleanJson_unwraps_fenced_text
    (body : string)
    (Hplain : noBacktick body = true)
    (Htrimmed : trim body = body) :
  cleanJson body = body /\
  cleanJson ("```json" +:+ String newline body +:+ String newline "```") = body /\
  cleanJson ("```json" +:+ body +:+ "```") = body.
Proof.
  destruct (trim_fixed body Htrimmed) as [Hstart Hend].
  unfold cleanJson. split; [|split].
  - now rewrite removeFences_plain.
  - change (removeFences 0
              ("```json" +:+ String newline body +:+ String newline "```"))
      with (removeFences 0 (body +:+ String newline "```")).
    now rewrite removeFences_closing_line.
  - assert (Hopen : removeFences 0 ("```json" +:+ body +:+ "```") =
                    removeFences 0 (body +:+ "```")).
    { destruct body as [|c s]; [reflexivity|].
      assert (Hnl : Ascii.eqb newline c = false).
      { rewrite Ascii.eqb_sym. apply not_newline, (spaceAt_head c s).
        now apply trimStart_head. }
      change ("```json" +:+ String c s +:+ "```")
          with (String backtick (String backtick (String backtick
                 (String "j" (String "s" (String "o" (String "n"
                   (String c (s +:+ "```"))))))))).
      cbn [removeFences].
      unfold fenceAt at 1.
      cbn [startsWith dropChars Ascii.eqb Bool.eqb backtick].
      fold newline. rewrite Hnl. reflexivity. }
    rewrite Hopen. now rewrite removeFences_closing.
Qed.

Lemma X8_cleanJson_unwraps_fenced_text_witness :
  let byteOrderMark := utf8 [239; 187; 191] in
  let noBreakSpace := utf8 [194; 160] in
  (cleanJson "{}" = "{}" /\
   cleanJson ("```json" +:+ String newline "{}" +:+ String newline "```") = "{}" /\
   cleanJson ("```json" +:+ "{}" +:+ "```") = "{}") /\
  trim (noBreakSpace +:+ "{}") <> noBreakSpace +:+ "{}" /\
  cleanJson (byteOrderMark +:+ "```json" +:+ String newline "{}" +:+
             String newline "```" +:+ String newline noBreakSpace) = "{}".
Proof.
  intros byteOrderMark noBreakSpace.
  split; [apply (X8_cleanJson_unwraps_fenced_text "{}"); reflexivity|].
  split; [intros H; vm_compute in H; discriminate H | reflexivity].
Defined.

End CleanJsonProperties.

(* ===================================================================== *)
(** * Properties of the details form and the results page *)
(* ===================================================================== *)

Section FormFacts.
Import Js Types Stages App Report.
Variable pf : Platform.


Lemma trim_truthy (s : string) : truthy (trim s) = true -> truthy s = true.
Proof. now destruct s. Qed.

Lemma truthy_nonempty (s : string) : truthy s = true <-> s <> "".
Proof. destruct s; simpl; split; congruence. Qed.

(** What a phone number that passes the validation looks like. *)
Lemma validatePhone_accepts (p : string) :
  validatePhone p = None ->
  String.length (digitsOf p) = 10 /\ startsWith (digitsOf p) "0" = false.
Proof.
  unfold validatePhone.
  destruct (String.length (digitsOf p) =? 10) eqn:Hlen; [|discriminate].
  destruct (startsWith (digitsOf p) "0"); [discriminate|].
  intros _. split; [now apply Nat.eqb_eq|reflexivity].
Qed.

Lemma validatePhone_message (p msg : string) :
  validatePhone p = Some msg -> msg <> "".
Proof.
  unfold validatePhone.
  repeat match goal with
         | |- context [if ?b then _ else _] => destruct b
         end; intros H; try discriminate; injection H as <-; discriminate.
Qed.

(** The handler of the form either reports an error or submits: the guard
    of line 149 cannot fail behind the two validations. *)
Lemma handleFormSubmit_cases (now : string) (w : World) :
  (exists msg,
      msg <> "" /\ handleFormSubmit now w = setFormError (Some msg) w /\
      (trim (name (userDetails w)) = "" \/
       validatePhone (phone (userDetails w)) = Some msg)) \/
  (trim (name (userDetails w)) <> "" /\
   validatePhone (phone (userDetails w)) = None /\
   handleFormSubmit now w =
   setState RESULTS
     (setIsSubmitting false
        (setSubmissions (submissions w ++ [submissionOf now w])
           (setIsSubmitting true (setFormError None w))))).
Proof.
  unfold handleFormSubmit.
  change (name (userDetails (setFormError None w))) with (name (userDetails w)).
  change (phone (userDetails (setFormError None w)))
    with (phone (userDetails w)).
  destruct (truthy (trim (name (userDetails w)))) eqn:Hname; cbn [negb].
  - destruct (validatePhone (phone (userDetails w))) as [msg|] eqn:Hphone.
    + left. exists msg. split; [now apply validatePhone_message in Hphone|].
      split; [reflexivity|now right].
    + right. split; [now apply truthy_nonempty|]. split; [reflexivity|].
      rewrite (trim_truthy _ Hname).
      assert (Hp : truthy (phone (userDetails w)) = true).
      { apply validatePhone_accepts in Hphone. destruct Hphone as [Hlen _].
        destruct (phone (userDetails w)); [discriminate Hlen|reflexivity]. }
      rewrite Hp. reflexivity.
  - left. exists "Please enter your full name.". split; [discriminate|].
    split; [reflexivity|]. left.
    destruct (trim (name (userDetails w))); [reflexivity|discriminate].
Qed.

(** The fields of the form that the render and the preloading effect
    leave alone. *)
Lemma preloadingEffect_form (w : World) :
  userDetails (preloadingEffect w) = userDetails w /\
  submissions (preloadingEffect w) = submissions w /\
  formError (preloadingEffect w) = formError w /\
  state (preloadingEffect w) = state w.
Proof.
  unfold preloadingEffect, launch.
  repeat match goal with
         | |- context [if ?b then _ else _] => destruct b
         end; simpl; auto.
Qed.

Lemma render_form (before : AppState) (w : World) :
  userDetails (render pf before w) = userDetails w /\
  submissions (render pf before w) = submissions w /\
  formError (render pf before w) = formError w /\
  state (render pf before w) = state w.
Proof.
  unfold render. destruct (decide (state w = before)); [auto|].
  destruct (state w) eqn:Hstate; simpl; auto.
  destruct (ListeningModule.mount pf (preloadedListening w)); simpl; auto.
Qed.

Lemma step_form (w : World) (ev : Event) :
  userDetails (step pf w ev) = userDetails (handle pf ev w) /\
  submissions (step pf w ev) = submissions (handle pf ev w) /\
  formError (step pf w ev) = formError (handle pf ev w) /\
  state (step pf w ev) = state (handle pf ev w).
Proof.
  unfold step.
  destruct (render_form (state w) (handle pf ev w)) as (H1 & H2 & H3 & H4).
  destruct (preloadingEffect_form (render pf (state w) (handle pf ev w)))
    as (H1' & H2' & H3' & H4').
  destruct (_ || _); repeat split; congruence.
Qed.









End FormFacts.

Section FormProperties.
Import Js Types Stages App Report.

(** X9.  Submitting the details form has two outcomes and no third: either
    an error text that is not empty is put up and the application stays on
    the form without submitting anything, or the name is not blank, the
    phone number passes the validation, one record built from the form and
    the score board is submitted and the results page is shown.  The guard
    on name and phone behind the validations never fails. *)
Theorem X9_form_submit_reports_or_submits
    (pf : Platform) (w : World) (now : string)
    (Hform : state w = USER_DETAILS_FORM) :
  let w' := step pf w (SubmitForm now) in
  (exists msg,
      msg <> "" /\ formError w' = Some msg /\
      state w' = USER_DETAILS_FORM /\ submissions w' = submissions w /\
      (trim (name (userDetails w)) = "" \/
       validatePhone (phone (userDetails w)) = Some msg)) \/
  (trim (name (userDetails w)) <> "" /\
   validatePhone (phone (userDetails w)) = None /\
   formError w' = None /\ state w' = RESULTS /\
   submissions w' = submissions w ++ [submissionOf now w]).
Proof.
  intros w'. subst w'.
  destruct (step_form pf w (SubmitForm now)) as (_ & -> & -> & ->).
  cbn [handle]. rewrite decide_True by exact Hform.
  destruct (handleFormSubmit_cases now w)
    as [(msg & Hmsg & -> & Hwhy) | (Hname & Hphone & ->)].
  - left. exists msg. cbn. auto.
  - right. cbn. auto.
Qed.

Lemma X9_form_submit_reports_or_submits_witness :
  let noBreakSpace := utf8 [194; 160] in
  let w := run Samples.browser initial
             [ClickStart; ModuleComplete 80; ModuleComplete 70;
              ModuleComplete 90; ModuleComplete 60;
              TypeName noBreakSpace; TypePhone "98470 12345"] in
  let w' := step Samples.browser w (SubmitForm "03/11/2026") in
  state w = USER_DETAILS_FORM /\
  name (userDetails w) = noBreakSpace /\
  formError w' = Some "Please enter your full name." /\
  state w' = USER_DETAILS_FORM /\ submissions w' = submissions w.
Proof.
  intros noBreakSpace w w'.
  assert (Hform : state w = USER_DETAILS_FORM) by reflexivity.
  assert (Hname : trim (name (userDetails w)) = "") by reflexivity.
  assert (Herror : formError w' = Some "Please enter your full name.")
    by reflexivity.
  split; [exact Hform|]. split; [reflexivity|]. split; [exact Herror|].
  destruct (X9_form_submit_reports_or_submits Samples.browser w "03/11/2026"
              Hform)
    as [(msg & _ & _ & Hstate & Hsame & _) | (Hfilled & _)].
  - split; [exact Hstate | exact Hsame].
  - contradiction.
Defined.



(** X11.  The phone field is drawn as invalid only for an error text that
    contains "Phone" with a capital letter.  Of the errors of the phone
    validation these are the wrong number of digits and the leading zero;
    for a blocked or a repeated-digit number the field is not marked, and
    neither is it for a missing name. *)
Theorem X11_phone_field_marked_for_two_errors_only
    (number msg : string)
    (Hrejected : validatePhone number = Some msg) :
  phoneFieldInvalid (Some msg) =
    negb (String.length (digitsOf number) =? 10) ||
    startsWith (digitsOf number) "0".
Proof.
  unfold validatePhone in Hrejected.
  destruct (String.length (digitsOf number) =? 10); cbn [negb] in *.
  - destruct (startsWith (digitsOf number) "0").
    + injection Hrejected as <-. reflexivity.
    + destruct (existsb _ _).
      * injection Hrejected as <-. reflexivity.
      * destruct (repeatedDigit _); [|discriminate].
        injection Hrejected as <-. reflexivity.
  - injection Hrejected as <-. reflexivity.
Qed.

Lemma X11_phone_field_marked_for_two_errors_only_witness :
  validatePhone "7777777777" =
    Some "Please enter a valid phone number (not repeated digits)." /\
  phoneFieldInvalid
    (Some "Please enter a valid phone number (not repeated digits).") = false.
Proof.
  split; [reflexivity|].
  apply (X11_phone_field_marked_for_two_errors_only "7777777777").
  reflexivity.
Defined.

(** X12.  On the results page, when each of the four module scores is
    drawn green (it is at least 60), the circle around the overall score
    is green as well and the advice shown is not the one for a failed
    test. *)
Theorem X12_all_modules_green_means_passed
    (w : World)
    (Hreading : moduleClass (reading (scores w)) = "text-green-600")
    (Hlistening : moduleClass (listening (scores w)) = "text-green-600")
    (Hwriting : moduleClass (writing (scores w)) = "text-green-600")
    (Hspeaking : moduleClass (speaking (scores w)) = "text-green-600") :
  overallClass (getAverageScore w) =
    "border-green-500 text-green-600 bg-green-50" /\
  tipsTitle (overallTips w) <> "Needs More Preparation (Ausreichend)".
Proof.
  assert (Hgreen : forall s, moduleClass s = "text-green-600" ->
                             Binary64.atLeast (inject_Z 60) (Binary64.Finite s) = true).
  { intros s. unfold moduleClass. cbn [Binary64.atLeast].
    destruct (Qle_bool 60 s) eqn:H; [|discriminate].
    intros _. exact H. }
  apply Hgreen in Hreading, Hlistening, Hwriting, Hspeaking.
  assert (Havg : Binary64.atLeast 60 (getAverageScore w) = true).
  { unfold getAverageScore.
    apply (mathRound_atLeast _ 60), (divideBy_atLeast _ 60); [lia|].
    apply (add_atLeast _ _ 180 60); [lia | lia | lia | | exact Hspeaking].
    apply (add_atLeast _ _ 120 60); [lia | lia | lia | | exact Hwriting].
    apply (add_atLeast _ _ 60 60); [lia | lia | lia | exact Hreading
                                    | exact Hlistening]. }
  unfold overallTips, overallClass, getExamTips.
  rewrite Havg.
  split; [reflexivity|].
  destruct (Binary64.atLeast 90 _); [discriminate|].
  destruct (Binary64.atLeast 80 _); discriminate.
Qed.

Lemma X12_all_modules_green_means_passed_witness :
  let w := run Samples.browser initial
             [ClickStart; ModuleComplete 80; ModuleComplete 70;
              ModuleComplete 90; ModuleComplete 60] in
  overallClass (getAverageScore w) =
    "border-green-500 text-green-600 bg-green-50" /\
  tipsTitle (overallTips w) <> "Needs More Preparation (Ausreichend)".
Proof.
  intros w.
  apply (X12_all_modules_green_means_passed w); reflexivity.
Defined.

End FormProperties.

(* ===================================================================== *)
(** * Properties of the prefetch cache and the stages it feeds *)
(* ===================================================================== *)

Section CacheFacts.
Import Js Types Stages App.

Lemma depsChanged_state (w w' : World) :
  state w <> state w' -> depsChanged w w' = true.
Proof.
  intros H. unfold depsChanged. now rewrite bool_decide_false by exact H.
Qed.

End CacheFacts.

Section CacheProperties.
Import Js Types Stages App.

(** X13.  While the reading stage is on screen with the listening cell
    still empty, a background reading fetch that delivers its value makes
    the preloading effect run again, and the effect starts one more
    listening prefetch, whether or not one is on its way already. *)
Theorem X13_delivery_restarts_the_next_prefetch
    (pf : Platform) (w : World) (data : ReadingTestContent)
    (Hstate : state w = TEST_READING)
    (Hflying : inFlight ReadingSlot w = true)
    (Hempty : preloadedListening w = None) :
  let w' := step pf w (ReadingPreloadSettled (Fulfilled data)) in
  preloadedReading w' = Some data /\
  background w' = removeFirst ReadingSlot (background w) ++ [ListeningSlot].
Proof.
  intros w'. subst w'. destruct w. cbn in Hstate, Hempty. subst.
  unfold step. cbn [handle]. unfold preloadSettled. rewrite Hflying.
  unfold deliversValue. rewrite Hflying.
  cbn [isRejected negb andb orb].
  unfold propChanged.
  destruct stage as [[st|st|st|st]|]; cbn; auto.
Qed.

Lemma X13_delivery_restarts_the_next_prefetch_witness :
  let w := step Samples.browser initial ClickStart in
  let w' := step Samples.browser w
              (ReadingPreloadSettled (Fulfilled Samples.readingSample)) in
  background w = [ReadingSlot; ListeningSlot] /\
  preloadedReading w' = Some Samples.readingSample /\
  background w' = [ListeningSlot; ListeningSlot].
Proof.
  intros w w'. split; [reflexivity|].
  apply (X13_delivery_restarts_the_next_prefetch Samples.browser w
           Samples.readingSample); reflexivity.
Defined.

(** X14.  A click on the logo leads home from every other state and takes
    the stage module off the screen, but unlike the restart button it
    resets nothing: score board, details, submitted records and the
    prefetch cache stay as they are, and a reading prefetch is started
    exactly when the reading cell is empty. *)
Theorem X14_logo_leads_home_without_reset
    (pf : Platform) (w : World)
    (Haway : state w <> HOME) :
  let w' := step pf w ClickLogo in
  state w' = HOME /\ stage w' = None /\
  scores w' = scores w /\ userDetails w' = userDetails w /\
  submissions w' = submissions w /\
  preloadedReading w' = preloadedReading w /\
  preloadedListening w' = preloadedListening w /\
  preloadedWriting w' = preloadedWriting w /\
  preloadedSpeaking w' = preloadedSpeaking w /\
  background w' =
    background w ++
    (if isSet (preloadedReading w) then [] else [ReadingSlot]).
Proof.
  intros w'. subst w'.
  destruct w as [st sc ud sub fe pr pl pw ps sg bg co su]. cbn in Haway.
  unfold step. cbn [handle]. unfold render. cbn.
  rewrite decide_False by congruence.
  rewrite depsChanged_state by (cbn; congruence).
  unfold preloadingEffect, launch. cbn.
  destruct pr; cbn; repeat split; auto.
  now rewrite app_nil_r.
Qed.

Lemma X14_logo_leads_home_without_reset_witness :
  let w := run Samples.browser initial
             [ReadingPreloadSettled (Fulfilled Samples.readingSample);
              ClickStart; ModuleComplete 80] in
  let w' := step Samples.browser w ClickLogo in
  state w = TEST_LISTENING /\
  state w' = HOME /\ stage w' = None /\ scores w' = scores w /\
  preloadedReading w' = Some Samples.readingSample /\
  background w' = background w.
Proof.
  intros w w'. split; [reflexivity|].
  assert (Haway : state w <> HOME) by (vm_compute; discriminate).
  destruct (X14_logo_leads_home_without_reset Samples.browser w Haway)
    as (H1 & H2 & H3 & _ & _ & H6 & _ & _ & _ & H10).
  split; [exact H1|]. split; [exact H2|]. split; [exact H3|].
  split; [exact H6|]. etransitivity; [exact H10|]. vm_compute. reflexivity.
Defined.



(** X16.  A reading stage that was entered with an empty cell and is
    waiting for its own fetch stops showing the loading view as soon as the
    background fetch delivers: the module takes the new prop as a reason to
    end loading but not as content, so until its own fetch settles it
    renders nothing. *)
Theorem X16_late_delivery_blanks_the_loading_stage
    (pf : Platform) (w : World) (st : Loader.State ReadingTestContent)
    (data : ReadingTestContent)
    (Hstate : state w = TEST_READING)
    (Hstage : stage w = Some (ReadingStage st))
    (Hloading : Loader.view st = LoadingView)
    (Hnone : Loader.content st = None)
    (Hclean : Loader.error st = None)
    (Hflying : inFlight ReadingSlot w = true) :
  exists st',
    stage (step pf w (ReadingPreloadSettled (Fulfilled data))) =
      Some (ReadingStage st') /\
    Loader.view st' = Blank /\ Loader.content st' = None /\
    Loader.fetching st' = Loader.fetching st.
Proof.
  destruct (preloadingEffect_keeps
              (render pf (state w)
                 (handle pf (ReadingPreloadSettled (Fulfilled data)) w)))
    as (_ & _ & _ & _ & _ & _ & _ & Hkeep & _).
  unfold step.
  assert (Hsame : forall b : bool,
             stage (if b
                    then preloadingEffect
                           (render pf (state w)
                              (handle pf (ReadingPreloadSettled (Fulfilled data)) w))
                    else render pf (state w)
                           (handle pf (ReadingPreloadSettled (Fulfilled data)) w))
             = stage (render pf (state w)
                        (handle pf (ReadingPreloadSettled (Fulfilled data)) w))).
  { now intros []. }
  rewrite Hsame. clear Hsame Hkeep.
  destruct w. cbn in Hstate, Hstage. subst.
  cbn [handle]. unfold preloadSettled. rewrite Hflying.
  cbn [isRejected negb andb]. unfold propChanged, render. cbn.
  eexists. split; [reflexivity|].
  unfold Loader.view. cbn. rewrite Hnone, Hclean. auto.
Qed.

Lemma X16_late_delivery_blanks_the_loading_stage_witness :
  let w := step Samples.browser initial ClickStart in
  exists st',
    stage (step Samples.browser w
             (ReadingPreloadSettled (Fulfilled Samples.readingSample))) =
      Some (ReadingStage st') /\
    Loader.view st' = Blank /\ Loader.content st' = None /\
    Loader.fetching st' = true.
Proof.
  intros w.
  apply (X16_late_delivery_blanks_the_loading_stage Samples.browser w
           (Loader.mount None) Samples.readingSample); reflexivity.
Defined.

(** X17.  The retry button of the reading stage does nothing at all once
    the reading cell of the cache is filled: [fetchTest] returns at its
    first line, so an error that is on screen stays there although content
    has arrived. *)
Theorem X17_retry_is_idle_once_the_cell_is_filled
    (pf : Platform) (w : World) (st : Loader.State ReadingTestContent)
    (text : string) (data : ReadingTestContent)
    (Hstage : stage w = Some (ReadingStage st))
    (Herror : Loader.view st = ErrorView text)
    (Hfilled : preloadedReading w = Some data) :
  step pf w ClickTryAgain = w /\
  stageView (ReadingStage st) = ErrorView text.
Proof.
  split; [|exact Herror].
  destruct w. cbn in Hstage, Hfilled. subst.
  unfold step. cbn [handle]. cbn [App.stage]. rewrite Herror.
  unfold render, setStage. cbn. rewrite decide_True by reflexivity.
  unfold depsChanged. cbn. rewrite bool_decide_true by reflexivity.
  cbn. now repeat rewrite eqb_reflx.
Qed.

Lemma X17_retry_is_idle_once_the_cell_is_filled_witness :
  let w := run Samples.browser initial
             [ClickStart;
              ReadingFetchSettled (Rejected (Some (newError "400 Bad Request")));
              ReadingPreloadSettled (Fulfilled Samples.readingSample)] in
  preloadedReading w = Some Samples.readingSample /\
  step Samples.browser w ClickTryAgain = w /\
  option_map stageView (stage w) = Some (ErrorView "400 Bad Request").
Proof.
  intros w. split; [reflexivity|].
  destruct (X17_retry_is_idle_once_the_cell_is_filled Samples.browser w
              {| Loader.content := None; Loader.loading := false;
                 Loader.error := Some "400 Bad Request";
                 Loader.fetching := false |}
              "400 Bad Request" Samples.readingSample)
    as [Hidle Hview]; try reflexivity.
  split; [exact Hidle|]. reflexivity.
Defined.

End CacheProperties.

(* ===================================================================== *)
(** * Properties of the answer sheet *)
(* ===================================================================== *)

Section QuizFacts.
Import Js Types Scoring Quiz.

Lemma size_list_to_set_le (l : list string) :
  size (list_to_set l : gset string) <= length l.
Proof.
  induction l as [|x l IH];
    [rewrite list_to_set_nil, size_empty; reflexivity|].
  rewrite list_to_set_cons. cbn [length].
  destruct (decide (x ∈ (list_to_set l : gset string))) as [Hin|Hout].
  - assert (Hsame : {[x]} ∪ list_to_set l = (list_to_set l : gset string))
      by now apply subseteq_union_1_L, singleton_subseteq_l.
    rewrite Hsame. lia.
  - rewrite size_union by now apply disjoint_singleton_l.
    rewrite size_singleton. lia.
Qed.

(** A list with as many different elements as it is long repeats none. *)
Lemma size_list_to_set_NoDup (l : list string) :
  size (list_to_set l : gset string) = length l -> NoDup l.
Proof.
  induction l as [|x l IH]; [constructor|].
  rewrite list_to_set_cons. cbn [length]. intros Hsize.
  pose proof (size_list_to_set_le l) as Hle.
  destruct (decide (x ∈ (list_to_set l : gset string))) as [Hin|Hout].
  - assert (Hsame : {[x]} ∪ list_to_set l = (list_to_set l : gset string))
      by now apply subseteq_union_1_L, singleton_subseteq_l.
    rewrite Hsame in Hsize. lia.
  - rewrite size_union in Hsize by now apply disjoint_singleton_l.
    rewrite size_singleton in Hsize.
    constructor; [|apply IH; lia].
    intros Hin. apply Hout. now apply elem_of_list_to_set.
Qed.

Lemma NoDup_ids_inj (qs : list Question) (q q' : Question) :
  NoDup (map questionId qs) -> q ∈ qs -> q' ∈ qs ->
  questionId q = questionId q' -> q = q'.
Proof.
  induction qs as [|a qs IH]; intros Hnd Hq Hq' Hid; [inversion Hq|].
  cbn in Hnd. apply NoDup_cons in Hnd. destruct Hnd as [Hnotin Hnd].
  apply elem_of_cons in Hq. apply elem_of_cons in Hq'.
  destruct Hq as [-> | Hq], Hq' as [-> | Hq']; auto.
  - exfalso. apply Hnotin. rewrite Hid. now apply list_elem_of_fmap_2.
  - exfalso. apply Hnotin. rewrite <- Hid. now apply list_elem_of_fmap_2.
Qed.

Lemma lookup_question (content : list TestPart) (p q : nat)
    (question : Question) :
  content !! p ≫= (fun part => questions part !! q) = Some question ->
  question ∈ allQuestions content.
Proof.
  intros H. destruct (content !! p) as [part|] eqn:Hp; [|discriminate].
  cbn in H. unfold allQuestions. apply list_elem_of_In, in_concat.
  exists (questions part). split.
  - apply in_map. apply list_elem_of_In. now apply list_elem_of_lookup_2 in Hp.
  - apply list_elem_of_In. now apply list_elem_of_lookup_2 in H.
Qed.

Lemma click_sheetInvariant (content : list TestPart) (s : Sheet) (c : Click) :
  sheetInvariant content s -> sheetInvariant content (click content s c).
Proof.
  intros Hinv. pose proof Hinv as [Hanswers Hdone].
  destruct c as [p q i|]; cbn [click].
  - destruct (content !! p ≫= _) as [question|] eqn:Hq; [|exact Hinv].
    destruct (i <? length (options question)) eqn:Hi; [|exact Hinv].
    destruct (submitted s) eqn:Hsub; cbn [negb andb]; [exact Hinv|].
    unfold handleSelect. rewrite Hsub. split; cbn [answers submitted].
    + intros id z Hlook.
      destruct (decide (questionId question = id)) as [<-|Hne].
      * rewrite lookup_insert_eq in Hlook. injection Hlook as <-.
        exists question, i. split; [now apply lookup_question in Hq|].
        split; [reflexivity|]. split; [reflexivity|]. now apply Nat.ltb_lt.
      * rewrite lookup_insert_ne in Hlook by exact Hne. now apply Hanswers.
    + discriminate.
  - destruct (submitted s) eqn:Hsub; cbn [orb]; [exact Hinv|].
    unfold submitDisabled. rewrite total_parts. cbn [Nat.add].
    destruct (size (answers s) =? length (allQuestions content)) eqn:Hsize;
      cbn [negb]; [|exact Hinv].
    split; cbn [handleSubmit answers submitted]; [exact Hanswers|].
    intros _. now apply Nat.eqb_eq.
Qed.

Lemma clicks_sheetInvariant (content : list TestPart) (cs : list Click)
    (s : Sheet) :
  sheetInvariant content s -> sheetInvariant content (foldl (click content) s cs).
Proof.
  revert s. induction cs as [|c cs IH]; intros s H; [exact H|].
  cbn [foldl]. apply IH. now apply click_sheetInvariant.
Qed.

Lemma init_sheetInvariant (content : list TestPart) :
  sheetInvariant content init.
Proof.
  split; [|discriminate]. intros id z H. unfold init in H.
  cbn [answers] in H. now rewrite lookup_empty in H.
Qed.

Lemma click_submitted (content : list TestPart) (s : Sheet) (c : Click) :
  submitted s = true -> click content s c = s.
Proof.
  intros H. destruct c as [p q i|]; cbn [click]; rewrite H.
  - destruct (content !! p ≫= _); [|reflexivity].
    now rewrite andb_false_r.
  - reflexivity.
Qed.

End QuizFacts.

Section QuizProperties.
Import Js Types Scoring Quiz.

(** X18.  However the option buttons and the submit button of a choice
    module are clicked, a sheet gets submitted only if the identifiers of
    the questions are pairwise different and every question has an answer
    that is the index of one of its options; from then on no click changes
    the sheet.  With two questions that share an identifier the submit
    button never becomes active. *)
Theorem X18_submitted_sheet_answers_every_question
    (content : list TestPart) (cs : list Click)
    (Hsubmitted : submitted (clicks content cs) = true) :
  NoDup (map questionId (allQuestions content)) /\
  (forall question,
      question ∈ allQuestions content ->
      exists i,
        answers (clicks content cs) !! questionId question = Some (Z.of_nat i) /\
        i < length (options question)) /\
  (forall more, foldl (click content) (clicks content cs) more =
                clicks content cs).
Proof.
  destruct (clicks_sheetInvariant content cs init (init_sheetInvariant content))
    as [Hanswers Hdone].
  fold (clicks content cs) in Hanswers, Hdone.
  set (s := clicks content cs) in *.
  specialize (Hdone Hsubmitted).
  set (ids := map questionId (allQuestions content)).
  assert (Hsub : dom (answers s) ⊆ (list_to_set ids : gset string)).
  { intros id Hid. apply elem_of_dom in Hid. destruct Hid as [z Hz].
    destruct (Hanswers id z Hz) as (question & i & Hin & <- & _).
    apply elem_of_list_to_set. unfold ids. now apply list_elem_of_fmap_2. }
  assert (Hlen : length ids = length (allQuestions content))
    by (unfold ids; apply length_map).
  pose proof (size_list_to_set_le ids) as Hle.
  pose proof (subseteq_size _ _ Hsub) as Hle'.
  rewrite size_dom in Hle'.
  assert (Hnodup : NoDup ids) by (apply size_list_to_set_NoDup; lia).
  assert (Hall : dom (answers s) = (list_to_set ids : gset string)).
  { apply set_subseteq_size_eq; [exact Hsub|]. rewrite size_dom. lia. }
  split; [exact Hnodup|]. split.
  - intros question Hin.
    assert (Hid : questionId question ∈ dom (answers s)).
    { rewrite Hall. apply elem_of_list_to_set. unfold ids.
      now apply list_elem_of_fmap_2. }
    apply elem_of_dom in Hid. destruct Hid as [z Hz].
    destruct (Hanswers _ z Hz) as (question' & i & Hin' & Hsame & -> & Hi).
    assert (question' = question)
      by (eapply NoDup_ids_inj; eauto).
    subst question'. now exists i.
  - intros more. induction more as [|c more IH]; [reflexivity|].
    cbn [foldl]. now rewrite (click_submitted content s c Hsubmitted).
Qed.

Lemma X18_submitted_sheet_answers_every_question_witness :
  let s := clicks [Samples.email]
             [ClickOption 0 0 1; ClickSubmit; ClickOption 0 1 0;
              ClickOption 0 2 2; ClickOption 0 0 0; ClickSubmit;
              ClickOption 0 0 2] in
  submitted s = true /\
  forall question,
    question ∈ allQuestions [Samples.email] ->
    exists i, answers s !! questionId question = Some (Z.of_nat i) /\
              i < length (options question).
Proof.
  intros s. split; [reflexivity|].
  apply (X18_submitted_sheet_answers_every_question [Samples.email]).
  reflexivity.
Defined.

(** X19.  For a content without any question the submit button is active
    from the start, and the two modules then report differently: the
    reading module reports 0, the listening module divides 0 by 0 and
    reports not-a-number. *)
Theorem X19_no_questions_zero_or_not_a_number
    (content : ListeningTestContent) (chosen : gmap string Z)
    (Hnone : allQuestions (parts content) = []) :
  submitDisabled (parts content) init = false /\
  scoreReading {| readingParts := parts content |} chosen = 0%Q /\
  scoreListening content chosen = None.
Proof.
  split; [|split].
  - unfold submitDisabled. rewrite total_parts, Hnone. reflexivity.
  - unfold scoreReading. cbn [readingParts]. rewrite tally_parts, Hnone.
    reflexivity.
  - unfold scoreListening, getTotalQuestions.
    rewrite total_parts, Hnone. reflexivity.
Qed.

Lemma X19_no_questions_zero_or_not_a_number_witness :
  submitDisabled [] init = false /\
  scoreReading {| readingParts := [] |} ∅ = 0%Q /\
  scoreListening {| parts := []; fullScript := ""; audioBase64 := None |} ∅
    = None.
Proof.
  apply (X19_no_questions_zero_or_not_a_number
           {| parts := []; fullScript := ""; audioBase64 := None |} ∅).
  reflexivity.
Defined.

End QuizProperties.

(* ===================================================================== *)
(** * Properties of what is sent for evaluation and to the sheet *)
(* ===================================================================== *)

Section SpeechFacts.
Import Js Types Stages Speech.

Lemma split_nonempty (sep : ascii) (s : string) : split sep s <> [].
Proof.
  destruct s as [|c s]; [discriminate|]. cbn [split].
  destruct (Ascii.eqb c sep); [discriminate|].
  destruct (split sep s); discriminate.
Qed.

Lemma split_noComma (s : string) : noComma s = true -> split "," s = [s].
Proof.
  induction s as [|c s IH]; [reflexivity|]. cbn [noComma split].
  intros H. apply andb_true_iff in H. destruct H as [Hc Hs].
  apply negb_true_iff in Hc. rewrite Hc, (IH Hs). reflexivity.
Qed.

Lemma split_header (header rest : string) :
  noComma header = true ->
  split "," (header +:+ String "," rest) = header :: split "," rest.
Proof.
  induction header as [|c header IH]; [reflexivity|]. cbn [noComma].
  intros H. apply andb_true_iff in H. destruct H as [Hc Hs].
  apply negb_true_iff in Hc.
  change (String c header +:+ String "," rest)
    with (String c (header +:+ String "," rest)).
  cbn [split]. rewrite Hc, (IH Hs). reflexivity.
Qed.

End SpeechFacts.

Section SpeechProperties.
Import Js Types Stages Speech.

(** X20.  [blobToBase64] returns what stands behind the first comma of the
    text the reader delivers: for a data URL whose header and payload hold
    no comma that is the payload, and without any comma it is [undefined].
    An empty payload comes back as the empty string, for which the request
    for evaluation gets no audio part: it consists of the task alone. *)
Theorem X20_blobToBase64_returns_the_payload
    (header payload : string) (spoken : SpeakingTask)
    (Hheader : noComma header = true)
    (Hpayload : noComma payload = true) :
  blobToBase64 (header +:+ String "," payload) = Some payload /\
  blobToBase64 header = None /\
  evaluationParts spoken
    {| inputAudioBase64 := blobToBase64 (header +:+ String "," EmptyString);
       inputText := None |} = [taskPrompt spoken].
Proof.
  unfold blobToBase64. split; [|split].
  - now rewrite split_header, split_noComma.
  - now rewrite split_noComma.
  - now rewrite split_header.
Qed.

Lemma X20_blobToBase64_returns_the_payload_witness :
  blobToBase64 "data:audio/webm;base64,GkXfo59ChoEB" = Some "GkXfo59ChoEB" /\
  blobToBase64 "data:audio/webm;base64" = None.
Proof.
  destruct (X20_blobToBase64_returns_the_payload
              "data:audio/webm;base64" "GkXfo59ChoEB"
              {| speakingTopic := "Familie"; speakingInstructions := "..." |}
              eq_refl eq_refl) as (Hsome & Hnone & _).
  split; [exact Hsome | exact Hnone].
Defined.

(** X21.  What the submit handler of the speaking module does is decided
    by the form alone.  It does nothing without a task, without a
    recording in recording mode, or with a blank text in text mode.
    Otherwise it asks for an evaluation whose last part is the task; in
    text mode the part before it is the text as typed, in recording mode
    it is the payload of the recording if that is not empty.  The branch
    that reports that no input was provided is never taken. *)
Theorem X21_speaking_submission_by_cases (f : Form) :
  match handleSubmit f with
  | Nothing =>
      task f = None \/
      (useTextFallback f = false /\ audioBlob f = None) \/
      (useTextFallback f = true /\ trim (textInput f) = "")
  | Evaluate spoken input =>
      task f = Some spoken /\
      ((useTextFallback f = true /\ trim (textInput f) <> "" /\
        evaluationParts spoken input =
          [Text ("User text: " +:+ textInput f); taskPrompt spoken]) \/
       (useTextFallback f = false /\
        exists result,
          audioBlob f = Some result /\
          evaluationParts spoken input =
            whenTruthy (blobToBase64 result) (InlineData "audio/webm") ++
            [taskPrompt spoken]))
  | ShowError _ => False
  end.
Proof.
  unfold handleSubmit.
  destruct (task f) as [spoken|]; [|now left].
  destruct (useTextFallback f); cbn [negb andb].
  - destruct (trim (textInput f)) as [|c rest] eqn:Htrim; cbn [App.truthy negb].
    + right. right. now split.
    + split; [reflexivity|]. left. split; [reflexivity|].
      split; [discriminate|].
      unfold evaluationParts. cbn [inputAudioBase64 inputText whenTruthy].
      destruct (textInput f); [discriminate Htrim|reflexivity].
  - destruct (audioBlob f) as [result|]; cbn [App.isSet negb].
    + split; [reflexivity|]. right. split; [reflexivity|].
      exists result. split; reflexivity.
    + right. left. now split.
Qed.

Lemma X21_speaking_submission_by_cases_witness :
  let familie := {| speakingTopic := "Familie"; speakingInstructions := "..." |} in
  let recorded := {| task := Some familie; useTextFallback := false;
                     audioBlob := Some "data:audio/webm;base64,";
                     textInput := "" |} in
  let blank := {| task := Some familie; useTextFallback := true;
                  audioBlob := None; textInput := utf8 [194; 160] |} in
  match handleSubmit recorded with
  | Evaluate spoken input => evaluationParts spoken input = [taskPrompt spoken]
  | _ => False
  end /\
  handleSubmit blank = Nothing /\ trim (textInput blank) = "".
Proof.
  intros familie recorded blank. split; [|split].
  - pose proof (X21_speaking_submission_by_cases recorded) as H.
    cbn in H. destruct H as [_ [[Hno _] | [_ [result [Hblob Hparts]]]]];
      [discriminate Hno|].
    injection Hblob as <-. exact Hparts.
  - reflexivity.
  - pose proof (X21_speaking_submission_by_cases blank) as H.
    change (handleSubmit blank) with Nothing in H.
    destruct H as [Htask | [[Hmode _] | [_ Hblank]]];
      [discriminate Htask | discriminate Hmode | exact Hblank].
Defined.

End SpeechProperties.

Section SheetProperties.
Import Js Types Stages App Sheets.

(** X22.  The address of the sheet is never empty: it is the configured
    one if that is set and the built-in one otherwise.  So the results are
    posted exactly once on every path, the warning about a missing address
    is never written, and a request that fails is only written to the
    console.  The request goes to that address as a [POST] in mode
    [no-cors] with a form-encoded body, and it carries the nine fields of
    the record, each under its name, in the order of the record: the three
    texts and the time stamp as they are, the five scores as numbers. *)
Theorem X22_results_are_posted_exactly_once
    (env : option string) (fetch : Request -> Outcome unit)
    (data : TestSubmissionData) :
  let request :=
    {| requestUrl := match env with
                     | Some (String c s) => String c s
                     | _ => hardcodedUrl
                     end;
       requestMethod := "POST";
       requestMode := "no-cors";
       contentType := "application/x-www-form-urlencoded";
       params :=
         [("name", OfText (submittedName data));
          ("phone", OfText (submittedPhone data));
          ("language", OfText (submittedLanguage data));
          ("readingScore",
           OfNumber (Binary64.Finite (inject_Z (readingScore data))));
          ("listeningScore",
           OfNumber (Binary64.Finite (inject_Z (listeningScore data))));
          ("writingScore",
           OfNumber (Binary64.Finite (inject_Z (writingScore data))));
          ("speakingScore",
           OfNumber (Binary64.Finite (inject_Z (speakingScore data))));
          ("averageScore", OfNumber (averageScore data));
          ("timestamp", OfText (timestamp data))] |} in
  requestUrl request <> "" /\
  requestUrl request = getSheetUrl env /\
  submitTestResults env fetch data =
    ([request],
     [match fetch request with
      | Resolve _ =>
          Logged "✅ Submission sent to Google Sheet (opaque response)"
      | Throw error =>
          Errored "❌ Error submitting to Google Sheets:" (Some error)
      end]).
Proof.
  intros request.
  assert (Hurl : truthy (getSheetUrl env) = true)
    by (destruct env as [[|c s]|]; reflexivity).
  assert (Hsame : requestUrl request = getSheetUrl env)
    by (destruct env as [[|c s]|]; reflexivity).
  split; [rewrite Hsame; destruct (getSheetUrl env); discriminate|].
  split; [exact Hsame|].
  unfold submitTestResults. rewrite Hurl. cbn [negb].
  assert (Hrequest :
            {| requestUrl := getSheetUrl env;
               requestMethod := "POST";
               requestMode := "no-cors";
               contentType := "application/x-www-form-urlencoded";
               params :=
                 [("name", OfText (submittedName data));
                  ("phone", OfText (submittedPhone data));
                  ("language", OfText (submittedLanguage data));
                  ("readingScore", ofInteger (readingScore data));
                  ("listeningScore", ofInteger (listeningScore data));
                  ("writingScore", ofInteger (writingScore data));
                  ("speakingScore", ofInteger (speakingScore data));
                  ("averageScore", OfNumber (averageScore data));
                  ("timestamp", OfText (timestamp data))] |} = request).
  { unfold request. rewrite <- Hsame. reflexivity. }
  rewrite Hrequest. now destruct (fetch request).
Qed.

Lemma X22_results_are_posted_exactly_once_witness :
  let data :=
    {| submittedName := "Anna"; submittedPhone := "9847012345";
       submittedLanguage := "Malayalam"; readingScore := 80;
       listeningScore := 70; writingScore := 90; speakingScore := 60;
       averageScore := Binary64.Finite 75; timestamp := "03/11/2026" |} in
  let offline := fun _ : Request => Throw (T := unit) (newError "Failed to fetch") in
  submitTestResults (Some "") offline data =
    ([{| requestUrl := hardcodedUrl;
         requestMethod := "POST";
         requestMode := "no-cors";
         contentType := "application/x-www-form-urlencoded";
         params :=
           [("name", OfText "Anna");
            ("phone", OfText "9847012345");
            ("language", OfText "Malayalam");
            ("readingScore", OfNumber (Binary64.Finite 80));
            ("listeningScore", OfNumber (Binary64.Finite 70));
            ("writingScore", OfNumber (Binary64.Finite 90));
            ("speakingScore", OfNumber (Binary64.Finite 60));
            ("averageScore", OfNumber (Binary64.Finite 75));
            ("timestamp", OfText "03/11/2026")] |}],
     [Errored "❌ Error submitting to Google Sheets:"
              (Some (newError "Failed to fetch"))]).
Proof.
  intros data offline.
  exact (proj2 (proj2 (X22_results_are_posted_exactly_once
                         (Some "") offline data))).
Defined.

End SheetProperties.

(* ===================================================================== *)
(** * Properties of the listening stage fed from the cache *)
(* ===================================================================== *)

Section ListeningFacts.
Import Js Types Stages App.
Variable pf : Platform.



End ListeningFacts.

Section ListeningProperties.
Import Js Types Stages App.



End ListeningProperties.

Section MountFacts.
Import Js Types Stages App Report.
Variable pf : Platform.








End MountFacts.

Section MountProperties.
Import Js Types Stages App Report.



End MountProperties.
